(** * lab0-c queue.c: a circular, sentinel-based doubly linked queue of strings

    A shallow embedding of [queue.c] (insert, remove with bounded copy-out,
    delete-middle, delete-duplicates, pairwise swap, reverse, merge sort)
    over an explicit heap, and the properties of its operations.

    Memory is modelled by objects keyed by their address:
    - [links]  : every [struct list_head] (the sentinel and the link embedded
                 in each [element_t]), keyed by the address of the list_head;
    - [values] : the [value] field of each [element_t], keyed by the address
                 of its embedded list_head ([list_entry] is that identification);
    - [strs]   : heap strings, keyed by the address of their first byte; the
                 stored [string] is the bytes before the terminating NUL;
    - [bytes]  : caller-provided character buffers, one entry per byte;
    - [stray]  : what a read finds past the terminator of a string block;
    - [oracle] : the results the allocator will hand out next (0 = failure).
    A computation that touches an address which is not allocated has no
    result ([None]), nor has one whose behaviour C leaves undefined because
    the int subtraction of [min] overflows; loops carry fuel and have no
    result when it runs out. *)

From Stdlib Require Import ZArith String Ascii Lia Permutation.
From stdpp Require Import base gmap list sorting.

Local Open Scope Z_scope.
#[local] Set Warnings "-clear-no-such-hyp".

(** ** Machine integers *)

Definition to_int32 (z : Z) : Z := (z + 2 ^ 31) mod 2 ^ 32 - 2 ^ 31.
Definition to_size_t (z : Z) : Z := z mod 2 ^ 64.
Definition to_char (z : Z) : Z := z mod 2 ^ 8.
Definition INT32_MAX : Z := 2 ^ 31 - 1.

(** ** Heap *)

Record link := Link { next : Z; prev : Z }.

Record state := State {
  links : gmap Z link;
  values : gmap Z Z;
  strs : gmap Z string;
  bytes : gmap Z Z;
  stray : Z -> Z;
  oracle : list Z
}.

Definition with_links (L : gmap Z link) (s : state) : state :=
  State L (values s) (strs s) (bytes s) (stray s) (oracle s).
Definition with_values (V : gmap Z Z) (s : state) : state :=
  State (links s) V (strs s) (bytes s) (stray s) (oracle s).
Definition with_strs (S : gmap Z string) (s : state) : state :=
  State (links s) (values s) S (bytes s) (stray s) (oracle s).
Definition with_bytes (B : gmap Z Z) (s : state) : state :=
  State (links s) (values s) (strs s) B (stray s) (oracle s).
Definition with_oracle (o : list Z) (s : state) : state :=
  State (links s) (values s) (strs s) (bytes s) (stray s) o.

(** ** State-and-failure monad *)

Definition M (A : Type) : Type := state -> option (A * state).

Definition ret {A} (a : A) : M A := fun s => Some (a, s).
Definition fail {A} : M A := fun _ => None.
Definition bind {A B} (c : M A) (k : A -> M B) : M B :=
  fun s => match c s with Some (a, s') => k a s' | None => None end.

(* the value of an expression, where it has one *)
Definition defined {A} (o : option A) : M A :=
  fun s => match o with Some a => Some (a, s) | None => None end.

Notation "'let!' x ':=' c 'in' k" := (bind c (fun x => k))
  (at level 10, x name, c at level 100, k at level 200).
Notation "'do!' c 'in' k" := (bind c (fun _ => k))
  (at level 10, c at level 100, k at level 200).

(** ** Field access *)

Definition set_next (v : Z) (r : link) : link := Link v (prev r).
Definition set_prev (v : Z) (r : link) : link := Link (next r) v.

Definition nxt (L : gmap Z link) (x : Z) : option Z := next <$> L !! x.
Definition prv (L : gmap Z link) (x : Z) : option Z := prev <$> L !! x.

(* x->next *)
Definition load_next (x : Z) : M Z :=
  fun s => match nxt (links s) x with Some v => Some (v, s) | None => None end.
(* x->prev *)
Definition load_prev (x : Z) : M Z :=
  fun s => match prv (links s) x with Some v => Some (v, s) | None => None end.
(* x->next = v *)
Definition store_next (x v : Z) : M unit :=
  fun s => match links s !! x with
           | Some _ => Some (tt, with_links (alter (set_next v) x (links s)) s)
           | None => None
           end.
(* x->prev = v *)
Definition store_prev (x v : Z) : M unit :=
  fun s => match links s !! x with
           | Some _ => Some (tt, with_links (alter (set_prev v) x (links s)) s)
           | None => None
           end.
(* list_entry(x, element_t, list)->value *)
Definition load_value (x : Z) : M Z :=
  fun s => match values s !! x with Some v => Some (v, s) | None => None end.
(* list_entry(x, element_t, list)->value = v *)
Definition store_value (x v : Z) : M unit :=
  fun s => match values s !! x with
           | Some _ => Some (tt, with_values (<[x := v]> (values s)) s)
           | None => None
           end.

(** ** Strings *)

Definition byte_of (c : ascii) : Z := Z.of_N (N_of_ascii c).

(* The byte at index i of the block holding [str]: its characters, then the
   terminator; further on, whatever lies behind the block. *)
Fixpoint char_at (str : string) (i : nat) (beyond : nat -> Z) : Z :=
  match str, i with
  | EmptyString, O => 0
  | EmptyString, S j => beyond j
  | String c _, O => byte_of c
  | String _ str', S j => char_at str' j beyond
  end.

(** Modelled from the spec: the C library's strcmp (string.h is not under
    src/); the difference of the first two bytes that differ, compared as
    unsigned chars, the end of a string counting as the byte 0 and ending the
    comparison. Only the sign of the result is used. *)
Fixpoint strcmp_str (a b : string) : Z :=
  match a, b with
  | EmptyString, EmptyString => 0
  | EmptyString, String d _ => 0 - byte_of d
  | String c _, EmptyString => byte_of c
  | String c a', String d b' =>
      if byte_of c =? byte_of d
      then (if byte_of c =? 0 then 0 else strcmp_str a' b')
      else byte_of c - byte_of d
  end.

(* p[i] for a heap string p *)
Definition load_char (p i : Z) : M Z :=
  fun s => match strs s !! p with
           | Some str =>
               if 0 <=? i
               then Some (char_at str (Z.to_nat i)
                            (fun j => stray s (p + Z.of_nat (String.length str) + 1 + Z.of_nat j)), s)
               else None
           | None => None
           end.

(** Modelled from the spec: the C library's strlen. *)
Definition strlen (p : Z) : M Z :=
  fun s => match strs s !! p with
           | Some str => Some (Z.of_nat (String.length str), s)
           | None => None
           end.

Definition strcmp (p q : Z) : M Z :=
  fun s => match strs s !! p, strs s !! q with
           | Some a, Some b => Some (strcmp_str a b, s)
           | _, _ => None
           end.

(* sp[i] = v for a caller buffer *)
Definition store_byte (a v : Z) : M unit :=
  fun s => match bytes s !! a with
           | Some _ => Some (tt, with_bytes (<[a := v]> (bytes s)) s)
           | None => None
           end.

(** ** Allocator

    Modelled from the spec: "memory-allocation facilities - treated as a
    provided allocator returning null on failure" (malloc, strdup and free
    come from harness.h, which is not under src/). The address returned by
    the next allocation is read off [oracle]. *)

Definition next_alloc : M Z :=
  fun s => match oracle s with
           | [] => Some (0, s)
           | a :: o => Some (a, with_oracle o s)
           end.

(* malloc(sizeof(struct list_head)) *)
Definition malloc_list_head : M Z :=
  let! a := next_alloc in
  if a =? 0 then ret 0
  else fun s => Some (a, with_links (<[a := Link 0 0]> (links s)) s).

(* malloc(sizeof(element_t)) *)
Definition malloc_element : M Z :=
  let! a := next_alloc in
  if a =? 0 then ret 0
  else fun s => Some (a, with_values (<[a := 0]> (values s))
                             (with_links (<[a := Link 0 0]> (links s)) s)).

Definition strdup (p : Z) : M Z :=
  fun s => match strs s !! p with
           | Some str =>
               (let! a := next_alloc in
                if a =? 0 then ret 0
                else fun s => Some (a, with_strs (<[a := str]> (strs s)) s)) s
           | None => None
           end.

(* free(p) for a string *)
Definition free_str (p : Z) : M unit :=
  if p =? 0 then ret tt
  else fun s => match strs s !! p with
                | Some _ => Some (tt, with_strs (delete p (strs s)) s)
                | None => None
                end.

(* free(e) for an element_t *)
Definition free_element (e : Z) : M unit :=
  if e =? 0 then ret tt
  else fun s => match links s !! e, values s !! e with
                | Some _, Some _ =>
                    Some (tt, with_values (delete e (values s))
                                (with_links (delete e (links s)) s))
                | _, _ => None
                end.

(* free(l) for a bare list_head *)
Definition free_list_head (l : Z) : M unit :=
  if l =? 0 then ret tt
  else fun s => match links s !! l with
                | Some _ => Some (tt, with_links (delete l (links s)) s)
                | None => None
                end.

(** ** Intrusive list primitives

    Modelled from the spec: "sentinel-based circular doubly linked list
    primitives - initialize-empty, link-at-head, link-at-tail, unlink,
    is-empty test, and forward iteration" (list.h is not under src/). The
    iteration macros are unfolded into the loops that use them. *)

Definition INIT_LIST_HEAD (head : Z) : M unit :=
  do! store_next head head in
  store_prev head head.

Definition list_empty (head : Z) : M bool :=
  let! n := load_next head in
  ret (n =? head).

(* link node right after head *)
Definition list_add (node head : Z) : M unit :=
  let! nx := load_next head in
  do! store_prev nx node in
  do! store_next node nx in
  do! store_prev node head in
  store_next head node.

(* link node right before head *)
Definition list_add_tail (node head : Z) : M unit :=
  let! pv := load_prev head in
  do! store_next pv node in
  do! store_next node head in
  do! store_prev node pv in
  store_prev head node.

(* unlink node *)
Definition list_del (node : Z) : M unit :=
  let! nx := load_next node in
  let! pv := load_prev node in
  do! store_prev nx pv in
  store_next pv nx.

(** ** queue.c *)

Definition q_new : M Z :=
  let! head := malloc_list_head in
  if head =? 0 then ret head
  else do! INIT_LIST_HEAD head in ret head.

Definition q_release_element (e : Z) : M unit :=
  let! v := load_value e in
  do! free_str v in
  free_element e.

Fixpoint q_free_loop (fuel : nat) (l node safe : Z) : M unit :=
  match fuel with
  | O => fail
  | S f =>
      if node =? l then ret tt
      else
        do! list_del node in
        do! q_release_element node in
        let! safe' := load_next safe in
        q_free_loop f l safe safe'
  end.

Definition q_free (fuel : nat) (l : Z) : M unit :=
  if l =? 0 then ret tt
  else
    let! node := load_next l in
    let! safe := load_next node in
    do! q_free_loop fuel l node safe in
    free_list_head l.

Definition q_insert_head (head s : Z) : M bool :=
  if head =? 0 then ret false
  else
    let! node := malloc_element in
    if node =? 0 then ret false
    else
      let! v := strdup s in
      do! store_value node v in
      if v =? 0 then
        do! free_element node in
        ret false
      else
        do! list_add node head in
        ret true.

Definition q_insert_tail (head s : Z) : M bool :=
  if head =? 0 then ret false
  else
    let! node := malloc_element in
    if node =? 0 then ret false
    else
      let! v := strdup s in
      do! store_value node v in
      if v =? 0 then
        do! free_element node in
        ret false
      else
        do! list_add_tail node head in
        ret true.

(* a > 0 ? a : -a. For INT32_MIN the negation is taken in two's complement,
   which gives INT32_MIN again. *)
Definition abs_branchless (a : Z) : Z :=
  if a >? 0 then a else to_int32 (- a).

(** Modelled from the spec: the C library's [abs] on [int], which
    [q_remove_tail] calls where [q_remove_head] calls [abs_branchless]. *)
Definition c_abs (a : Z) : Z :=
  if a <? 0 then to_int32 (- a) else a.

(* a - b > 0 ? b : a. The subtraction is one of two ints: where it overflows
   the behaviour is undefined and [min] has no result (a build that wraps
   the difference around returns the larger argument there, one that
   compares a with b the smaller one). *)
Definition min (a b : Z) : option Z :=
  if (- 2 ^ 31 <=? a - b) && (a - b <? 2 ^ 31)
  then Some (if a - b >? 0 then b else a)
  else None.

(* while (len >= 0) { mask = -!!(len ^ i); sp[len] = value[len] & mask; len--; } *)
Fixpoint copy_loop (fuel : nat) (sp v i len : Z) : M unit :=
  match fuel with
  | O => fail
  | S f =>
      if len >=? 0 then
        let mask := - Z.b2z (negb (Z.lxor (to_size_t len) i =? 0)) in
        let! c := load_char v len in
        do! store_byte (sp + len) (to_char (Z.land c mask)) in
        copy_loop f sp v i (to_int32 (len - 1))
      else ret tt
  end.

Definition q_remove_head (fuel : nat) (head sp bufsize : Z) : M Z :=
  if head =? 0 then ret 0
  else
    let! e := list_empty head in
    if e then ret 0
    else
      let! node := load_next head in
      do! list_del node in
      let! v := load_value node in
      let! n := strlen v in
      let! m := defined (min (to_int32 (to_size_t (bufsize - 1)))
                             (to_int32 (to_size_t (n + 1)))) in
      let! len := defined (min m (to_int32 (abs_branchless (to_int32 sp) - 1))) in
      let i := to_size_t len in
      do! copy_loop fuel sp v i len in
      ret node.

Definition q_remove_tail (fuel : nat) (head sp bufsize : Z) : M Z :=
  if head =? 0 then ret 0
  else
    let! e := list_empty head in
    if e then ret 0
    else
      let! node := load_prev head in
      do! list_del node in
      let! v := load_value node in
      let! n := strlen v in
      let! m := defined (min (to_int32 (to_size_t (bufsize - 1)))
                             (to_int32 (to_size_t (n + 1)))) in
      let! len := defined (min m (to_int32 (c_abs (to_int32 sp) - 1))) in
      let i := to_size_t len in
      do! copy_loop fuel sp v i len in
      ret node.

Fixpoint q_size_loop (fuel : nat) (head node len : Z) : M Z :=
  match fuel with
  | O => fail
  | S f =>
      if node =? head then ret len
      else
        let! node' := load_next node in
        q_size_loop f head node' (to_size_t (len + 1))
  end.

Definition q_size (fuel : nat) (head : Z) : M Z :=
  if head =? 0 then ret 0
  else
    let! e := list_empty head in
    if e then ret 0
    else
      let! node := load_next head in
      let! len := q_size_loop fuel head node 0 in
      ret (to_int32 len).

Fixpoint q_delete_mid_loop (fuel : nat) (node nx pv : Z) : M Z :=
  match fuel with
  | O => fail
  | S f =>
      if negb (node =? 0) then ret node
      else
        let node := if nx =? pv then nx else node in
        let! nn := load_next nx in
        let node := if nn =? pv then pv else node in
        let! pp := load_prev pv in
        q_delete_mid_loop f node nn pp
  end.

Definition q_delete_mid (fuel : nat) (head : Z) : M bool :=
  if head =? 0 then ret false
  else
    let! e := list_empty head in
    if e then ret false
    else
      let! nx := load_next head in
      let! pv := load_prev head in
      let! node := q_delete_mid_loop fuel 0 nx pv in
      do! list_del node in
      do! q_release_element node in
      ret true.

(* if (del_patten && !strcmp(del_patten, node->value)) { list_del; release } *)
Definition q_delete_dup_step (del_patten node : Z) : M unit :=
  if del_patten =? 0 then ret tt
  else
    let! nv := load_value node in
    let! c := strcmp del_patten nv in
    if c =? 0 then
      do! list_del node in
      q_release_element node
    else ret tt.

Fixpoint q_delete_dup_loop (fuel : nat) (head node safe del_patten : Z) : M (Z * Z) :=
  match fuel with
  | O => fail
  | S f =>
      if safe =? head then ret (node, del_patten)
      else
        let! nv := load_value node in
        let! sv := load_value safe in
        let! c := strcmp nv sv in
        let mask := Z.lor (- Z.b2z (c =? 0)) (Z.b2z (nv =? del_patten)) in
        let del_patten := Z.land (to_size_t sv) (to_size_t mask) in
        do! q_delete_dup_step del_patten node in
        let! safe' := load_next safe in
        q_delete_dup_loop f head safe safe' del_patten
  end.

Definition q_delete_dup (fuel : nat) (head : Z) : M bool :=
  if head =? 0 then ret false
  else
    let! node := load_next head in
    let! safe := load_next node in
    let! r := q_delete_dup_loop fuel head node safe 0 in
    do! q_delete_dup_step (snd r) (fst r) in
    ret true.

Fixpoint q_swap_loop (fuel : nat) (head node safe : Z) : M unit :=
  match fuel with
  | O => fail
  | S f =>
      if node =? head then ret tt
      else if safe =? head then ret tt
      else
        do! list_del node in
        do! list_add node safe in
        let! safe := load_next node in
        let! safe' := load_next safe in
        q_swap_loop f head safe safe'
  end.

Definition q_swap (fuel : nat) (head : Z) : M unit :=
  if head =? 0 then ret tt
  else
    let! node := load_next head in
    let! safe := load_next node in
    q_swap_loop fuel head node safe.

Fixpoint q_reverse_loop (fuel : nat) (head node safe : Z) : M (Z * Z) :=
  match fuel with
  | O => fail
  | S f =>
      if node =? head then ret (node, safe)
      else
        let! p := load_prev node in
        do! store_next node p in
        do! store_prev node safe in
        let! safe' := load_next safe in
        q_reverse_loop f head safe safe'
  end.

Definition q_reverse (fuel : nat) (head : Z) : M unit :=
  if head =? 0 then ret tt
  else
    let! node := load_next head in
    let! safe := load_next node in
    let! r := q_reverse_loop fuel head node safe in
    let! p := load_prev (fst r) in
    do! store_next (fst r) p in
    store_prev (fst r) (snd r).

(* A [struct list_head **]: the local [sorted], or the next field of a node. *)
Inductive slot := SortedVar | NextOf (n : Z).

(* *tail = v, returning the value of [sorted] afterwards *)
Definition store_slot (tail : slot) (v sorted : Z) : M Z :=
  match tail with
  | SortedVar => ret v
  | NextOf n => do! store_next n v in ret sorted
  end.

Fixpoint merge_loop (fuel : nat) (sorted : Z) (tail : slot) (a b : Z) : M Z :=
  match fuel with
  | O => fail
  | S f =>
      if negb (a =? 0) && negb (b =? 0) then
        let! va := load_value a in
        let! vb := load_value b in
        let! c := strcmp va vb in
        let t := if c <=? 0 then a else b in
        let! sorted := store_slot tail t sorted in
        let! tn := load_next t in
        if c <=? 0 then merge_loop f sorted (NextOf t) tn b
        else merge_loop f sorted (NextOf t) a tn
      else
        store_slot tail (Z.lor a b) sorted
  end.

Definition merge (fuel : nat) (a b : Z) : M Z :=
  merge_loop fuel 0 SortedVar a b.

(* for (mid = head, last = head->next; last && last->next;
        mid = mid->next, last = last->next->next); *)
Fixpoint merge_sort_split (fuel : nat) (mid last : Z) : M Z :=
  match fuel with
  | O => fail
  | S f =>
      if last =? 0 then ret mid
      else
        let! ln := load_next last in
        if ln =? 0 then ret mid
        else
          let! mid' := load_next mid in
          let! last' := load_next ln in
          merge_sort_split f mid' last'
  end.

Fixpoint merge_sort (fuel : nat) (head : Z) : M Z :=
  match fuel with
  | O => fail
  | S f =>
      let! hn := load_next head in
      if hn =? 0 then ret head
      else
        let! last := merge_sort_split fuel head hn in
        let! mid := load_next last in
        do! store_next last 0 in
        let! head := merge_sort f head in
        let! mid := merge_sort f mid in
        merge fuel head mid
  end.

(* while (tail->next) { tail->next->prev = tail; tail = tail->next; } *)
Fixpoint q_sort_relink (fuel : nat) (tail : Z) : M Z :=
  match fuel with
  | O => fail
  | S f =>
      let! tn := load_next tail in
      if tn =? 0 then ret tail
      else
        do! store_prev tn tail in
        q_sort_relink f tn
  end.

Definition q_sort (fuel : nat) (head : Z) : M unit :=
  if head =? 0 then ret tt
  else
    let! hn := load_next head in
    let! hp := load_prev head in
    if hn =? hp then ret tt
    else
      do! store_next hp 0 in
      let! first := load_next head in
      let! tail := merge_sort fuel first in
      do! store_next head tail in
      do! store_prev tail head in
      let! tail := q_sort_relink fuel tail in
      do! store_prev head tail in
      store_next tail head.

(** ** Representation of a queue in the heap *)

Definition hd_or (d : Z) (l : list Z) : Z :=
  match l with [] => d | x :: _ => x end.

Fixpoint last_or (d : Z) (l : list Z) : Z :=
  match l with [] => d | x :: l' => last_or x l' end.

(* the next fields thread the nodes of l, the last one pointing to q *)
Fixpoint nchain (L : gmap Z link) (l : list Z) (q : Z) : Prop :=
  match l with
  | [] => True
  | x :: l' => nxt L x = Some (hd_or q l') /\ nchain L l' q
  end.

(* the prev fields thread the nodes of l backwards, the first one pointing to p *)
Fixpoint pchain (L : gmap Z link) (p : Z) (l : list Z) : Prop :=
  match l with
  | [] => True
  | x :: l' => prv L x = Some p /\ pchain L x l'
  end.

(* the nodes of c form a ring *)
Definition cdll (L : gmap Z link) (c : list Z) : Prop :=
  nchain L c (hd_or 0 c) /\ pchain L (last_or 0 c) c.

(* the ring of the sentinel head holds exactly the nodes l, in this order *)
Definition dll (L : gmap Z link) (head : Z) (l : list Z) : Prop :=
  cdll L (head :: l) /\ NoDup (head :: l) /\ 0 ∉ head :: l.

(* An element of the queue: the address of its node, the address of its
   string and the string. *)
Record cell := Cell { c_node : Z; c_val : Z; c_str : string }.

(* what malloc guarantees of the address of a block *)
Definition ptr_ok (v : Z) : Prop := 0 < v < 2 ^ 64 /\ Z.land v 1 = 0.

Definition cell_ok (s : state) (c : cell) : Prop :=
  values s !! c_node c = Some (c_val c) /\
  strs s !! c_val c = Some (c_str c) /\
  ptr_ok (c_val c).

Definition queue (s : state) (head : Z) (q : list cell) : Prop :=
  dll (links s) head (map c_node q) /\
  NoDup (map c_val q) /\
  Forall (cell_ok s) q.



(* the links after list_del of a node whose neighbours are nx and pv *)
Definition unlink (nx pv : Z) (L : gmap Z link) : gmap Z link :=
  alter (set_next nx) pv (alter (set_prev pv) nx L).

(* the links after list_add node h, where nx was h->next *)
Definition link_after (node h nx : Z) (L : gmap Z link) : gmap Z link :=
  alter (set_next node) h (alter (set_prev h) node
    (alter (set_next nx) node (alter (set_prev node) nx L))).

(* the links after list_add_tail node h, where pv was h->prev *)
Definition link_before (node h pv : Z) (L : gmap Z link) : gmap Z link :=
  alter (set_prev node) h (alter (set_prev pv) node
    (alter (set_next h) node (alter (set_next node) pv L))).

(* exchanging the two fields of a link, and doing so for every node of c *)
Definition flip_link (r : link) : link := Link (prev r) (next r).
Definition flip_all (c : list Z) (L : gmap Z link) : gmap Z link :=
  foldl (fun L x => alter flip_link x L) L c.

(* what q_swap does to the sequence of elements *)
Fixpoint swap_pairs {A} (l : list A) : list A :=
  match l with
  | a :: b :: l' => b :: a :: swap_pairs l'
  | _ => l
  end.

(* the heap after q_release_element of the cell c *)
Definition released (c : cell) (s : state) : state :=
  State (delete (c_node c) (links s)) (delete (c_node c) (values s))
        (delete (c_val c) (strs s)) (bytes s) (stray s) (oracle s).

(* the common shape of q_insert_head and q_insert_tail *)
Definition insert_with (add : Z -> Z -> M unit) (head s : Z) : M bool :=
  if head =? 0 then ret false
  else
    let! node := malloc_element in
    if node =? 0 then ret false
    else
      let! v := strdup s in
      do! store_value node v in
      if v =? 0 then
        do! free_element node in
        ret false
      else
        do! add node head in
        ret true.

(* the heap once an element a with the string b has been allocated *)
Definition allocated (a b : Z) (str : string) (s : state) : state :=
  State (<[a := Link 0 0]> (links s)) (<[a := b]> (values s))
        (<[b := str]> (strs s)) (bytes s) (stray s) (tail (tail (oracle s))).

(* what the allocator owes its caller: a block that is not in use, and,
   for a string, one that is aligned *)
Definition fresh_node (s : state) (a : Z) : Prop :=
  links s !! a = None /\ values s !! a = None.
Definition fresh_str (s : state) (b : Z) : Prop :=
  strs s !! b = None /\ ptr_ok b.

(* the copy length computed by q_remove_head and q_remove_tail, for a string
   of n bytes and the address term y, where both calls of min are defined *)
Definition copy_len (bufsize n y : Z) : option Z :=
  match min (to_int32 (to_size_t (bufsize - 1))) (to_int32 (to_size_t (n + 1))) with
  | Some m => min m y
  | None => None
  end.

(* the part of q_remove_head and q_remove_tail that follows list_del *)
Definition copy_out (fuel : nat) (y node sp bufsize : Z) : M Z :=
  let! v := load_value node in
  let! n := strlen v in
  let! len := defined (copy_len bufsize n y) in
  let i := to_size_t len in
  do! copy_loop fuel sp v i len in
  ret node.

(* the byte the copy loop stores at index k *)
Definition copy_byte (s : state) (v : Z) (str : string) (i k : Z) : Z :=
  to_char (Z.land
    (char_at str (Z.to_nat k)
       (fun j => stray s (v + Z.of_nat (String.length str) + 1 + Z.of_nat j)))
    (- Z.b2z (negb (Z.lxor (to_size_t k) i =? 0)))).

(* storing f k at sp + k for k = n - 1 down to 0 *)
Fixpoint write_down (n : nat) (sp : Z) (f : Z -> Z) (B : gmap Z Z) : gmap Z Z :=
  match n with
  | O => B
  | S k => write_down k sp f (<[sp + Z.of_nat k := f (Z.of_nat k)]> B)
  end.

(* the buffers after the copy loop has run from index len *)
Definition copied (s : state) (sp v : Z) (str : string) (len : Z) : gmap Z Z :=
  write_down (Z.to_nat (len + 1)) sp (copy_byte s v str (to_size_t len)) (bytes s).

(* the order the merge compares elements by: strcmp(a, b) <= 0 *)
Definition cell_le (c d : cell) : Prop := strcmp_str (c_str c) (c_str d) <= 0.

(* the elements whose string compares equal to k *)
Definition same_key (k : string) (c : cell) : Prop := strcmp_str (c_str c) k = 0.

#[global] Instance cell_le_dec : RelDecision cell_le.
Proof. intros c d. unfold cell_le. apply _. Defined.

#[global] Instance same_key_dec k c : Decision (same_key k c).
Proof. unfold same_key. apply _. Defined.

(* q' holds the elements of q in ascending order, those that compare equal
   in the order they have in q *)
Definition stable_sort_of (q q' : list cell) : Prop :=
  StronglySorted cell_le q' /\ q' ≡ₚ q /\
  forall k, filter (same_key k) q' = filter (same_key k) q.

(** ** Models of the loops, observers and concrete heaps *)

(* what q_delete_dup leaves of the elements from the cursor on, when the
   strings are aligned: an element goes when the next one compares equal,
   the last one when del_patten (dp) is set as the loop ends *)
Fixpoint dup_model (q : list cell) (dp : bool) : list cell :=
  match q with
  | [] => []
  | c :: q' =>
      match q' with
      | [] => if dp then [] else [c]
      | d :: _ =>
          if strcmp_str (c_str c) (c_str d) =? 0
          then dup_model q' true
          else c :: dup_model q' false
      end
  end.

(* the loop of q_delete_dup from a cursor on, with the test that follows it *)
Definition dup_rest (fuel : nat) (head node safe del_patten : Z) : M unit :=
  let! r := q_delete_dup_loop fuel head node safe del_patten in
  q_delete_dup_step (snd r) (fst r).

(* the nodes met walking the next fields from x until head *)
Fixpoint walk (fuel : nat) (L : gmap Z link) (head x : Z) : option (list Z) :=
  match fuel with
  | O => None
  | S f =>
      if x =? head then Some []
      else match nxt L x with
           | Some y => match walk f L head y with
                       | Some l => Some (x :: l)
                       | None => None
                       end
           | None => None
           end
  end.

(* the string of the element at node x *)
Definition payload (s : state) (x : Z) : option string :=
  match values s !! x with Some v => strs s !! v | None => None end.

(* the strings of the queue, head to tail, as a traversal reads them *)
Definition contents (fuel : nat) (s : state) (head : Z) : option (list (option string)) :=
  match nxt (links s) head with
  | Some x => match walk fuel (links s) head x with
              | Some l => Some (map (payload s) l)
              | None => None
              end
  | None => None
  end.

(* the links of the ring head, l *)
Fixpoint ring_entries (p : Z) (l : list Z) (q : Z) : list (Z * link) :=
  match l with
  | [] => []
  | x :: l' => (x, Link (hd_or q l') p) :: ring_entries x l' q
  end.

Definition ring (head : Z) (l : list Z) : gmap Z link :=
  list_to_map ((head, Link (hd_or head l) (last_or head l)) :: ring_entries head l head).

(* a heap that holds the queue q at head, the caller's strings cs, the
   buffers B and the allocator's future o *)
Definition mk_state (head : Z) (q : list cell) (cs : list (Z * string))
    (B : gmap Z Z) (o : list Z) : state :=
  State (ring head (map c_node q))
        (list_to_map (map (fun c => (c_node c, c_val c)) q))
        (list_to_map (map (fun c => (c_val c, c_str c)) q ++ cs))
        B (fun _ => 170) o.

(* elements at the nodes 32, 64, ... with their strings at 48, 80, ... *)
Definition cells_from (strs : list string) : list cell :=
  imap (fun i str => Cell (32 + 32 * Z.of_nat i) (48 + 32 * Z.of_nat i) str) strs.

(* a buffer of n bytes at sp, filled with 255 *)
Definition buffer (sp : Z) (n : nat) : gmap Z Z :=
  list_to_map (map (fun k => (sp + Z.of_nat k, 255)) (seq 0 n)).

Definition sample (strs : list string) : state :=
  mk_state 16 (cells_from strs) [] ∅ [].

#[global] Instance nchain_dec L l q : Decision (nchain L l q).
Proof. induction l as [|x l IH]; simpl; apply _. Defined.

#[global] Instance pchain_dec L p l : Decision (pchain L p l).
Proof. revert p. induction l as [|x l IH]; intros p; simpl; apply _. Defined.

#[global] Instance dll_dec L head l : Decision (dll L head l).
Proof. unfold dll, cdll. apply _. Defined.

#[global] Instance cell_ok_dec s c : Decision (cell_ok s c).
Proof. unfold cell_ok, ptr_ok. apply _. Defined.

#[global] Instance queue_dec s head q : Decision (queue s head q).
Proof. unfold queue. apply _. Defined.

(* the allocator keeps its contract for the two allocations of an insertion *)
Definition alloc_ok (s : state) : Prop :=
  let a := hd_or 0 (oracle s) in
  let b := hd_or 0 (tail (oracle s)) in
  (a ≠ 0 -> fresh_node s a) /\ (a ≠ 0 -> b ≠ 0 -> fresh_str s b).

(* the caller's buffer sp has bufsize bytes *)
Definition writable (s : state) (sp bufsize : Z) : Prop :=
  Forall (fun k => is_Some (bytes s !! (sp + Z.of_nat k))) (seq 0 (Z.to_nat bufsize)).

(* strlen + 1 of every string fits the int32_t the code computes with *)
Definition short_strings (q : list cell) : Prop :=
  Forall (fun c => Z.of_nat (String.length (c_str c)) + 1 < 2 ^ 31) q.





(* a buffer whose address has the low 32 bits 0x00000002 *)
Definition low_sp : Z := 4294967298.

Definition hello_state : state :=
  mk_state 16 (cells_from ["hello"%string]) [] (buffer low_sp 10) [].

Definition abc_state : state :=
  mk_state 16 (cells_from ["b"%string; "a"%string; "a"%string])
    [(8000, "x"%string)] (buffer 4096 8) [320; 336].

#[global] Instance fresh_node_dec s a : Decision (fresh_node s a).
Proof. unfold fresh_node. apply _. Defined.

#[global] Instance fresh_str_dec s b : Decision (fresh_str s b).
Proof. unfold fresh_str, ptr_ok. apply _. Defined.

#[global] Instance alloc_ok_dec s : Decision (alloc_ok s).
Proof. unfold alloc_ok. apply _. Defined.

#[global] Instance writable_dec s sp bufsize : Decision (writable s sp bufsize).
Proof. unfold writable. apply _. Defined.

#[global] Instance short_strings_dec q : Decision (short_strings q).
Proof. unfold short_strings. apply _. Defined.

(** * Properties *)

(* machine arithmetic is reasoned about through its lemmas, never unfolded
   by simplification *)
#[global] Arguments to_int32 : simpl never.
#[global] Arguments to_size_t : simpl never.
#[global] Arguments to_char : simpl never.
#[global] Arguments min : simpl never.
#[global] Arguments abs_branchless : simpl never.
#[global] Arguments c_abs : simpl never.
#[global] Arguments copy_len : simpl never.
#[global] Arguments copied : simpl never.
#[global] Arguments Z.pow : simpl never.

(** ** Lists with a default end *)

Lemma last_or_app d l1 l2 : last_or d (l1 ++ l2) = last_or (last_or d l1) l2.
Proof. revert d. induction l1 as [|x l1 IH]; intros d; simpl; [done | apply IH]. Qed.

Lemma hd_or_app d l1 l2 : hd_or d (l1 ++ l2) = hd_or (hd_or d l2) l1.
Proof. by destruct l1. Qed.

Lemma last_or_nonempty d d' l : l ≠ [] -> last_or d l = last_or d' l.
Proof. by destruct l. Qed.

Lemma hd_or_nonempty d d' l : l ≠ [] -> hd_or d l = hd_or d' l.
Proof. by destruct l. Qed.

Lemma last_or_in d l : l ≠ [] -> last_or d l ∈ l.
Proof.
  revert d. induction l as [|x l IH]; intros d Hl; [done |].
  simpl. destruct l as [|y l'].
  - simpl. set_solver.
  - apply elem_of_cons. right. apply IH. done.
Qed.

Lemma snoc_last d (l : list Z) : l ≠ [] -> exists l', l = l' ++ [last_or d l].
Proof.
  revert d. induction l as [|x l IH]; intros d Hl; [done |].
  destruct l as [|y l'].
  - by exists [].
  - destruct (IH x) as [l'' Hl'']; [done |].
    exists (x :: l''). simpl in *. by rewrite <- Hl''.
Qed.

Lemma NoDup_mid (l1 l2 : list Z) x :
  NoDup (l1 ++ x :: l2) <-> (x ∉ l1 ++ l2) /\ NoDup (l1 ++ l2).
Proof. rewrite <- Permutation_middle. apply NoDup_cons. Qed.

Lemma last_or_rev d l : last_or d (rev l) = hd_or d l.
Proof. destruct l as [|x l]; [done |]. simpl. by rewrite last_or_app. Qed.

Lemma hd_or_rev d l : hd_or d (rev l) = last_or d l.
Proof. by rewrite <- (rev_involutive l) at 2; rewrite last_or_rev. Qed.

(** ** Field views under updates *)

Lemma nxt_set_next_eq L x v : is_Some (L !! x) -> nxt (alter (set_next v) x L) x = Some v.
Proof. intros [r Hr]. unfold nxt. by rewrite lookup_alter_eq, Hr. Qed.

Lemma nxt_alter_ne (f : link -> link) L x y : x ≠ y -> nxt (alter f y L) x = nxt L x.
Proof. intros. unfold nxt. by rewrite lookup_alter_ne. Qed.

Lemma nxt_set_prev L x y v : nxt (alter (set_prev v) y L) x = nxt L x.
Proof.
  unfold nxt. destruct (decide (y = x)) as [->|].
  - rewrite lookup_alter_eq. by destruct (L !! x).
  - by rewrite lookup_alter_ne.
Qed.

Lemma prv_set_prev_eq L x v : is_Some (L !! x) -> prv (alter (set_prev v) x L) x = Some v.
Proof. intros [r Hr]. unfold prv. by rewrite lookup_alter_eq, Hr. Qed.

Lemma prv_alter_ne (f : link -> link) L x y : x ≠ y -> prv (alter f y L) x = prv L x.
Proof. intros. unfold prv. by rewrite lookup_alter_ne. Qed.

Lemma prv_set_next L x y v : prv (alter (set_next v) y L) x = prv L x.
Proof.
  unfold prv. destruct (decide (y = x)) as [->|].
  - rewrite lookup_alter_eq. by destruct (L !! x).
  - by rewrite lookup_alter_ne.
Qed.

Lemma is_Some_alter (f : link -> link) (L : gmap Z link) x y :
  is_Some (alter f y L !! x) <-> is_Some (L !! x).
Proof.
  destruct (decide (y = x)) as [->|].
  - rewrite lookup_alter_eq. by rewrite fmap_is_Some.
  - by rewrite lookup_alter_ne.
Qed.

Lemma nxt_is_Some L x v : nxt L x = Some v -> is_Some (L !! x).
Proof. unfold nxt. destruct (L !! x); naive_solver. Qed.

Lemma prv_is_Some L x v : prv L x = Some v -> is_Some (L !! x).
Proof. unfold prv. destruct (L !! x); naive_solver. Qed.

(** ** Chains *)

Lemma nchain_ext L L' l q :
  (forall x, x ∈ l -> nxt L' x = nxt L x) -> nchain L l q -> nchain L' l q.
Proof.
  induction l as [|x l IH]; simpl; [done |].
  intros H [H1 H2]. split.
  - rewrite H; [done | set_solver].
  - apply IH; [|done]. intros y Hy. apply H. set_solver.
Qed.

Lemma pchain_ext L L' p l :
  (forall x, x ∈ l -> prv L' x = prv L x) -> pchain L p l -> pchain L' p l.
Proof.
  revert p. induction l as [|x l IH]; simpl; [done |].
  intros p H [H1 H2]. split.
  - rewrite H; [done | set_solver].
  - apply IH; [|done]. intros y Hy. apply H. set_solver.
Qed.

Lemma nchain_app L l1 l2 q :
  nchain L (l1 ++ l2) q <-> nchain L l1 (hd_or q l2) /\ nchain L l2 q.
Proof.
  induction l1 as [|x l1 IH]; simpl; [tauto |].
  rewrite IH, hd_or_app. tauto.
Qed.

Lemma pchain_app L p l1 l2 :
  pchain L p (l1 ++ l2) <-> pchain L p l1 /\ pchain L (last_or p l1) l2.
Proof.
  revert p. induction l1 as [|x l1 IH]; intros p; simpl; [tauto |].
  rewrite IH. tauto.
Qed.

Lemma nchain_alloc L l q x : nchain L l q -> x ∈ l -> is_Some (L !! x).
Proof.
  induction l as [|y l IH]; simpl; [set_solver |].
  intros [H1 H2] [->|Hx]%elem_of_cons; eauto using nxt_is_Some.
Qed.

Lemma cdll_rotate L c1 c2 : cdll L (c1 ++ c2) -> cdll L (c2 ++ c1).
Proof.
  destruct c1 as [|x1 c1]; [by rewrite app_nil_r |].
  destruct c2 as [|x2 c2]; [by rewrite app_nil_r |].
  unfold cdll. rewrite !nchain_app, !pchain_app, !last_or_app.
  simpl. tauto.
Qed.

Lemma cdll_alloc L c x : cdll L c -> x ∈ c -> is_Some (L !! x).
Proof. intros [H _]. eauto using nchain_alloc. Qed.

(** ** Rings: neighbours, unlinking and linking *)

Ltac nodup :=
  repeat match goal with
  | H : NoDup (_ :: _) |- _ => rewrite NoDup_cons in H; destruct H as [? ?]
  | H : NoDup (_ ++ _) |- _ => rewrite NoDup_app in H; destruct H as (? & ? & ?)
  | H : _ ∉ _ :: _ |- _ => rewrite not_elem_of_cons in H; destruct H as [? ?]
  | H : _ ∉ _ ++ _ |- _ => rewrite not_elem_of_app in H; destruct H as [? ?]
  end.

Ltac neq := first [ done | congruence | set_solver ].

(* equations between lists that differ in the grouping of appends *)
Ltac lnorm := repeat (progress (simpl; rewrite <- ?app_assoc)); done.

Ltac alloc :=
  repeat (apply is_Some_alter);
  solve [ done | eauto using nxt_is_Some, prv_is_Some, nchain_alloc, cdll_alloc ].

(* evaluate the next and prev views of a stack of field updates *)
Ltac fields :=
  repeat first
    [ rewrite nxt_set_prev
    | rewrite prv_set_next
    | rewrite nxt_set_next_eq by alloc
    | rewrite prv_set_prev_eq by alloc
    | rewrite nxt_alter_ne by neq
    | rewrite prv_alter_ne by neq ].

Lemma cdll_front L x c :
  cdll L (x :: c) -> nxt L x = Some (hd_or x c) /\ prv L x = Some (last_or x c).
Proof. intros [[H1 _] [H2 _]]. done. Qed.

Lemma dll_at L head l1 x l2 :
  dll L head (l1 ++ x :: l2) ->
  nxt L x = Some (hd_or head l2) /\ prv L x = Some (last_or head l1).
Proof.
  intros (Hc & _ & _).
  apply (cdll_rotate L (head :: l1) (x :: l2)) in Hc.
  apply cdll_front in Hc. by rewrite hd_or_app, last_or_app in Hc.
Qed.

Lemma dll_head L head l :
  dll L head l -> nxt L head = Some (hd_or head l) /\ prv L head = Some (last_or head l).
Proof. intros (Hc & _ & _). by apply cdll_front in Hc. Qed.

Lemma dll_alloc L head l x : dll L head l -> x ∈ head :: l -> is_Some (L !! x).
Proof. intros (Hc & _ & _). eauto using cdll_alloc. Qed.

Lemma dll_nonnull L head l x : dll L head l -> x ∈ head :: l -> x ≠ 0.
Proof. intros (_ & _ & H0) Hx ->. done. Qed.

Lemma hd_or_in d l : hd_or d l ∈ d :: l.
Proof. destruct l; set_solver. Qed.

Lemma last_or_in' d l : last_or d l ∈ d :: l.
Proof.
  destruct l as [|x l]; [set_solver |].
  apply elem_of_cons. right. by apply last_or_in.
Qed.

(* the successor of the node a forward cursor stands on *)
Lemma dll_cursor L head l1 l2 :
  dll L head (l1 ++ l2) ->
  nxt L (hd_or head l2) =
    Some (match l2 with [] => hd_or head l1 | _ :: l2' => hd_or head l2' end).
Proof.
  intros Hd. destruct l2 as [|y l2']; simpl.
  - rewrite app_nil_r in Hd. by destruct (dll_head _ _ _ Hd) as [-> _].
  - by destruct (dll_at _ _ _ _ _ Hd) as [-> _].
Qed.

Lemma cdll_unlink L x c :
  cdll L (x :: c) -> NoDup (x :: c) -> c ≠ [] ->
  cdll (unlink (hd_or x c) (last_or x c) L) c.
Proof.
  intros Hc Hnd Hne. destruct c as [|nx m]; [done |]. clear Hne.
  pose proof (cdll_alloc _ _ nx Hc ltac:(set_solver)) as Hanx.
  pose proof (cdll_alloc _ _ (last_or x (nx :: m)) Hc
                ltac:(apply elem_of_cons; right; by apply last_or_in)) as Hapv.
  destruct Hc as [[Hn1 Hn2] [Hp1 [Hp2 Hp3]]].
  simpl hd_or. unfold cdll, unlink.
  destruct (snoc_last x (nx :: m)) as [m' Hm']; [done |].
  remember (last_or x (nx :: m)) as pv eqn:Hpv.
  split.
  - simpl hd_or. rewrite Hm' in *. clear Hm' Hpv Hp1 Hp2 Hp3.
    apply nchain_app in Hn2 as [Hn2 [Hn3 _]]. simpl in Hn2, Hn3.
    nodup. apply nchain_app. simpl. split; [|split; [|done]].
    + eapply nchain_ext; [|exact Hn2]. intros y Hy. fields. done.
    + fields. done.
  - assert (last_or 0 (nx :: m) = pv) as -> by (by rewrite Hpv).
    simpl. nodup. split.
    + fields. done.
    + eapply pchain_ext; [|exact Hp3]. intros y Hy. fields. done.
Qed.

Lemma unlink_alloc nx pv L x : is_Some (unlink nx pv L !! x) <-> is_Some (L !! x).
Proof. unfold unlink. by rewrite !is_Some_alter. Qed.

Lemma unlink_other nx pv L x : x ≠ nx -> x ≠ pv -> unlink nx pv L !! x = L !! x.
Proof. intros. unfold unlink. by rewrite !lookup_alter_ne. Qed.

Lemma dll_unlink L head l1 x l2 :
  dll L head (l1 ++ x :: l2) ->
  dll (unlink (hd_or head l2) (last_or head l1) L) head (l1 ++ l2).
Proof.
  intros (Hc & Hnd & H0).
  apply (cdll_rotate L (head :: l1) (x :: l2)) in Hc. simpl in Hc.
  apply cdll_unlink in Hc.
  - rewrite hd_or_app, last_or_app in Hc. simpl in Hc.
    apply (cdll_rotate _ l2 (head :: l1)) in Hc.
    split; [done |]. split.
    + rewrite app_comm_cons in *. by apply NoDup_mid in Hnd as [_ ?].
    + set_solver.
  - change (x :: l2 ++ head :: l1) with ((x :: l2) ++ (head :: l1)).
    by rewrite Permutation_app_comm.
  - by destruct l2.
Qed.

Lemma cdll_link_after L h c node :
  cdll L (h :: c) -> NoDup (node :: h :: c) -> is_Some (L !! node) ->
  cdll (link_after node h (hd_or h c) L) (h :: node :: c).
Proof.
  intros Hc Hnd Hn.
  pose proof (cdll_alloc _ _ h Hc ltac:(set_solver)) as Hah.
  pose proof (cdll_alloc _ _ (hd_or h c) Hc ltac:(destruct c; set_solver)) as Hanx.
  destruct Hc as [[Hn1 Hn2] [Hp1 Hp2]].
  unfold cdll, link_after. nodup. destruct c as [|nx m]; simpl in *.
  - repeat split; fields; done.
  - nodup. destruct Hn2 as [Hn2 Hn3]. destruct Hp2 as [Hp2 Hp3].
    repeat split; fields; try done.
    + eapply nchain_ext; [|exact Hn3]. intros y Hy. fields. done.
    + eapply pchain_ext; [|exact Hp3]. intros y Hy. fields. done.
Qed.

Lemma link_before_after node h pv L :
  node ≠ h -> node ≠ pv -> link_before node h pv L = link_after node pv h L.
Proof.
  intros. unfold link_before, link_after. apply map_eq. intros k.
  rewrite !lookup_alter.
  repeat case_decide; subst; try done; by destruct (L !! _).
Qed.

Lemma cdll_link_before L h c node :
  cdll L (h :: c) -> NoDup (node :: h :: c) -> is_Some (L !! node) ->
  cdll (link_before node h (last_or h c) L) (h :: c ++ [node]).
Proof.
  intros Hc Hnd Hn.
  assert (node ≠ h) by (nodup; neq).
  assert (node ≠ last_or h c).
  { destruct c as [|y c']; [done |].
    pose proof (last_or_in h (y :: c') ltac:(done)). nodup. set_solver. }
  rewrite link_before_after by done.
  destruct (decide (c = [])) as [->|Hne].
  - by apply (cdll_link_after L h []).
  - destruct (snoc_last h c) as [m' Hm']; [done |].
    remember (last_or h c) as pv eqn:Hpv. clear Hpv. subst c.
    apply (cdll_rotate L (h :: m') [pv]) in Hc. simpl in Hc.
    apply (cdll_link_after _ _ _ node) in Hc; [|  |done].
    + simpl in Hc. apply (cdll_rotate _ [pv; node] (h :: m')) in Hc.
      by rewrite <- app_assoc.
    + rewrite (Permutation_app_comm [pv] (h :: m')). done.
Qed.

(* linking node after the member h of the ring c1 ++ h :: c2 *)
Lemma cdll_link_mid L c1 h c2 node :
  cdll L (c1 ++ h :: c2) -> NoDup (node :: c1 ++ h :: c2) -> is_Some (L !! node) ->
  cdll (link_after node h (hd_or (hd_or h c1) c2) L) (c1 ++ h :: node :: c2).
Proof.
  intros Hc Hnd Hn.
  apply (cdll_rotate L c1 (h :: c2)) in Hc. simpl in Hc.
  apply (cdll_link_after _ _ _ node) in Hc; [| |done].
  - rewrite hd_or_app in Hc.
    by apply (cdll_rotate _ (h :: node :: c2) c1) in Hc.
  - by rewrite (Permutation_app_comm (h :: c2) c1).
Qed.

Lemma dll_link_head L head l node :
  dll L head l -> node ∉ head :: l -> node ≠ 0 -> is_Some (L !! node) ->
  dll (link_after node head (hd_or head l) L) head (node :: l).
Proof.
  intros (Hc & Hnd & H0) Hni Hn0 Hn. split; [|split].
  - apply cdll_link_after; [done | by apply NoDup_cons | done].
  - nodup. rewrite !NoDup_cons. set_solver.
  - set_solver.
Qed.

Lemma dll_link_tail L head l node :
  dll L head l -> node ∉ head :: l -> node ≠ 0 -> is_Some (L !! node) ->
  dll (link_before node head (last_or head l) L) head (l ++ [node]).
Proof.
  intros (Hc & Hnd & H0) Hni Hn0 Hn. split; [|split].
  - apply cdll_link_before; [done | by apply NoDup_cons | done].
  - rewrite app_comm_cons, <- Permutation_cons_append. by apply NoDup_cons.
  - set_solver.
Qed.

Lemma dll_link_mid L head l1 h l2 node :
  dll L head (l1 ++ h :: l2) -> node ∉ head :: l1 ++ h :: l2 -> node ≠ 0 ->
  is_Some (L !! node) ->
  dll (link_after node h (hd_or head l2) L) head (l1 ++ h :: node :: l2).
Proof.
  intros (Hc & Hnd & H0) Hni Hn0 Hn. split; [|split].
  - apply (cdll_link_mid L (head :: l1) h l2 node) in Hc; [| by apply NoDup_cons | done].
    by destruct l2.
  - replace (head :: l1 ++ h :: node :: l2) with ((head :: l1 ++ [h]) ++ node :: l2)
      by (simpl; by rewrite <- app_assoc).
    apply NoDup_mid. simpl. rewrite <- app_assoc. simpl. done.
  - set_solver.
Qed.

Lemma link_after_alloc node h nx L x :
  is_Some (link_after node h nx L !! x) <-> is_Some (L !! x).
Proof. unfold link_after. by rewrite !is_Some_alter. Qed.

Lemma link_before_alloc node h pv L x :
  is_Some (link_before node h pv L !! x) <-> is_Some (L !! x).
Proof. unfold link_before. by rewrite !is_Some_alter. Qed.

(** ** Running the primitives *)

Lemma bind_run {A B} (c : M A) (k : A -> M B) s a s' :
  c s = Some (a, s') -> bind c k s = k a s'.
Proof. intros H. unfold bind. by rewrite H. Qed.

Lemma load_next_run s x v : nxt (links s) x = Some v -> load_next x s = Some (v, s).
Proof. intros H. unfold load_next. by rewrite H. Qed.

Lemma load_prev_run s x v : prv (links s) x = Some v -> load_prev x s = Some (v, s).
Proof. intros H. unfold load_prev. by rewrite H. Qed.

Lemma store_next_run s x v :
  is_Some (links s !! x) ->
  store_next x v s = Some (tt, with_links (alter (set_next v) x (links s)) s).
Proof. intros [r H]. unfold store_next. by rewrite H. Qed.

Lemma store_prev_run s x v :
  is_Some (links s !! x) ->
  store_prev x v s = Some (tt, with_links (alter (set_prev v) x (links s)) s).
Proof. intros [r H]. unfold store_prev. by rewrite H. Qed.

Lemma load_value_run s x v : values s !! x = Some v -> load_value x s = Some (v, s).
Proof. intros H. unfold load_value. by rewrite H. Qed.

Tactic Notation "run_with" constr(lem) :=
  erewrite bind_run; [| apply lem; simpl; alloc].
Tactic Notation "run_with" constr(lem) "by" tactic3(t) :=
  erewrite bind_run; [| apply lem; simpl; solve [t]].

Lemma list_del_run s x nx pv :
  nxt (links s) x = Some nx -> prv (links s) x = Some pv ->
  is_Some (links s !! nx) -> is_Some (links s !! pv) ->
  list_del x s = Some (tt, with_links (unlink nx pv (links s)) s).
Proof.
  intros Hn Hp Hanx Hapv. unfold list_del.
  run_with load_next_run. run_with load_prev_run. run_with store_prev_run.
  rewrite store_next_run by (simpl; alloc). done.
Qed.

Lemma list_add_run s node h nx :
  nxt (links s) h = Some nx -> node ≠ h ->
  is_Some (links s !! nx) -> is_Some (links s !! node) ->
  list_add node h s = Some (tt, with_links (link_after node h nx (links s)) s).
Proof.
  intros Hn Hne Hanx Han. pose proof (nxt_is_Some _ _ _ Hn). unfold list_add.
  run_with load_next_run. run_with store_prev_run. run_with store_next_run.
  run_with store_prev_run. rewrite store_next_run by (simpl; alloc). done.
Qed.

Lemma list_add_tail_run s node h pv :
  prv (links s) h = Some pv -> node ≠ h ->
  is_Some (links s !! pv) -> is_Some (links s !! node) ->
  list_add_tail node h s = Some (tt, with_links (link_before node h pv (links s)) s).
Proof.
  intros Hp Hne Hapv Han. pose proof (prv_is_Some _ _ _ Hp). unfold list_add_tail.
  run_with load_prev_run. run_with store_next_run. run_with store_next_run.
  run_with store_prev_run. rewrite store_prev_run by (simpl; alloc). done.
Qed.

Lemma list_empty_run s head l :
  dll (links s) head l ->
  list_empty head s = Some (match l with [] => true | _ => false end, s).
Proof.
  intros Hd. destruct (dll_head _ _ _ Hd) as [Hn _]. unfold list_empty.
  run_with load_next_run. unfold ret. f_equal. f_equal.
  destruct l as [|x l]; simpl.
  - by rewrite Z.eqb_refl.
  - destruct Hd as (_ & Hnd & _). nodup. apply Z.eqb_neq. neq.
Qed.

(** ** q_reverse *)

Lemma flip_all_snoc c x L : flip_all (c ++ [x]) L = alter flip_link x (flip_all c L).
Proof. unfold flip_all. by rewrite foldl_app. Qed.

Lemma lookup_flip_all c L y :
  NoDup c ->
  flip_all c L !! y = if decide (y ∈ c) then flip_link <$> L !! y else L !! y.
Proof.
  induction c as [|x c IH] using rev_ind; intros Hnd.
  - rewrite decide_False; [done | apply not_elem_of_nil].
  - rewrite flip_all_snoc. apply NoDup_app in Hnd as (Hc & Hx & _).
    rewrite lookup_alter.
    destruct (decide (x = y)) as [->|Hxy]; rewrite IH by done.
    + rewrite decide_False by (intros ?; eapply Hx; [done | set_solver]).
      rewrite decide_True by set_solver. done.
    + destruct (decide (y ∈ c)).
      * rewrite decide_True by set_solver. done.
      * rewrite decide_False by set_solver. done.
Qed.

Lemma dom_flip_all c L : dom (flip_all c L) = dom L.
Proof.
  induction c as [|x c IH] using rev_ind; [done |].
  by rewrite flip_all_snoc, dom_alter_L.
Qed.

Lemma nxt_flip_all c L y : NoDup c -> y ∈ c -> nxt (flip_all c L) y = prv L y.
Proof.
  intros Hnd Hy. unfold nxt, prv. rewrite lookup_flip_all by done.
  rewrite decide_True by done. by destruct (L !! y).
Qed.

Lemma prv_flip_all c L y : NoDup c -> y ∈ c -> prv (flip_all c L) y = nxt L y.
Proof.
  intros Hnd Hy. unfold nxt, prv. rewrite lookup_flip_all by done.
  rewrite decide_True by done. by destruct (L !! y).
Qed.

Lemma flip_all_other c L y : NoDup c -> y ∉ c -> flip_all c L !! y = L !! y.
Proof. intros Hnd Hy. rewrite lookup_flip_all by done. by rewrite decide_False. Qed.

Lemma pchain_rev L L' p l :
  (forall y, y ∈ l -> nxt L' y = prv L y) -> pchain L p l -> nchain L' (rev l) p.
Proof.
  revert p. induction l as [|x l IH]; intros p H; simpl; [done |].
  intros [H1 H2]. apply nchain_app. simpl. split; [|split; [|done]].
  - apply IH; [|done]. intros y Hy. apply H. set_solver.
  - rewrite H by set_solver. done.
Qed.

Lemma nchain_rev L L' q l :
  (forall y, y ∈ l -> prv L' y = nxt L y) -> nchain L l q -> pchain L' q (rev l).
Proof.
  induction l as [|x l IH]; intros H; simpl; [done |].
  intros [H1 H2]. apply pchain_app. simpl. split; [|split; [|done]].
  - apply IH; [|done]. intros y Hy. apply H. set_solver.
  - rewrite H by set_solver. by rewrite last_or_rev.
Qed.

Lemma dll_flip_all L head l :
  dll L head l -> dll (flip_all (l ++ [head]) L) head (rev l).
Proof.
  intros (Hc & Hnd & H0).
  assert (NoDup (l ++ [head])) as Hnd'
    by (by rewrite <- Permutation_cons_append).
  split; [|split].
  - destruct Hc as [Hn Hp].
    apply (pchain_rev _ (flip_all (l ++ [head]) L)) in Hp.
    2:{ intros y Hy. apply nxt_flip_all; [done | set_solver]. }
    apply (nchain_rev _ (flip_all (l ++ [head]) L)) in Hn.
    2:{ intros y Hy. apply prv_flip_all; [done | set_solver]. }
    simpl in Hn, Hp. apply nchain_app in Hp as [Hp1 [Hp2 _]].
    apply pchain_app in Hn as [Hn1 [Hn2 _]]. simpl in *.
    unfold cdll. simpl. rewrite hd_or_rev. done.
  - by rewrite <- Permutation_rev.
  - by rewrite <- Permutation_rev.
Qed.

Lemma flip_step (L : gmap Z link) x a b :
  nxt L x = Some a -> prv L x = Some b ->
  alter (set_prev a) x (alter (set_next b) x L) = alter flip_link x L.
Proof.
  unfold nxt, prv. intros Ha Hb. apply map_eq. intros k.
  rewrite !lookup_alter. repeat case_decide; subst; try done.
  destruct (L !! k) as [[n p]|]; simplify_eq/=. done.
Qed.

Lemma q_reverse_loop_run s L head l1 l2 fuel :
  dll L head (l1 ++ l2) -> (length l2 < fuel)%nat ->
  q_reverse_loop fuel head (hd_or head l2)
      (match l2 with [] => hd_or head l1 | _ :: l2' => hd_or head l2' end)
      (with_links (flip_all l1 L) s)
  = Some ((head, hd_or head (l1 ++ l2)), with_links (flip_all (l1 ++ l2) L) s).
Proof.
  revert l1 fuel. induction l2 as [|x l2 IH]; intros l1 fuel Hd Hf.
  - destruct fuel as [|f]; [simpl in Hf; lia |]. simpl.
    rewrite Z.eqb_refl, !app_nil_r. done.
  - destruct fuel as [|f]; [simpl in Hf; lia |].
    pose proof Hd as (Hc & Hnd & H0).
    destruct (dll_at _ _ _ _ _ Hd) as [Hxn Hxp].
    assert (NoDup l1 /\ (x ∉ l1) /\ x ≠ head) as (Hnd1 & Hx1 & Hxh).
    { nodup. repeat split; [done | set_solver | neq]. }
    simpl q_reverse_loop. simpl hd_or.
    rewrite (proj2 (Z.eqb_neq x head)) by done.
    assert (flip_all l1 L !! x = L !! x) as Hx by (by apply flip_all_other).
    assert (nxt (flip_all l1 L) x = Some (hd_or head l2)) as Hxn'
      by (unfold nxt; by rewrite Hx).
    assert (prv (flip_all l1 L) x = Some (last_or head l1)) as Hxp'
      by (unfold prv; by rewrite Hx).
    run_with load_prev_run. run_with store_next_run. run_with store_prev_run.
    simpl. rewrite flip_step by done. rewrite <- flip_all_snoc.
    replace (l1 ++ x :: l2) with ((l1 ++ [x]) ++ l2) in * by (by rewrite <- app_assoc).
    assert (NoDup (l1 ++ [x])) as Hnd2.
    { nodup. apply NoDup_app. repeat split; [done | set_solver | apply NoDup_singleton ]. }
    assert (nxt L (hd_or head l2) =
            Some (match l2 with [] => hd_or head (l1 ++ [x]) | _ :: l2' => hd_or head l2' end))
      as Hs.
    { destruct l2 as [|y l2']; simpl.
      - rewrite app_nil_r in Hd. by destruct (dll_head _ _ _ Hd) as [-> _].
      - by destruct (dll_at _ _ _ _ _ Hd) as [-> _]. }
    assert (hd_or head l2 ∉ l1 ++ [x]) as Hni.
    { rewrite <- app_assoc in Hnd. simpl in Hnd.
      destruct l2 as [|y l2']; simpl; nodup; set_solver. }
    erewrite bind_run.
    2:{ apply load_next_run. simpl. unfold nxt.
        rewrite flip_all_other by done. exact Hs. }
    apply IH; [done | simpl in Hf; lia].
Qed.

Lemma queue_links_only s head q L' q' :
  queue s head q -> dll L' head (map c_node q') -> q' ≡ₚ q ->
  queue (with_links L' s) head q'.
Proof.
  intros (Hd & Hv & Hc) Hd' Hp. split; [done |]. split.
  - by rewrite Hp.
  - rewrite Hp. done.
Qed.

Lemma q_reverse_run s head q fuel :
  queue s head q -> (length q < fuel)%nat ->
  exists L', q_reverse fuel head s = Some (tt, with_links L' s) /\
             queue (with_links L' s) head (rev q) /\
             dom L' = dom (links s).
Proof.
  intros Hq Hf. pose proof Hq as (Hd & _ & _).
  set (l := map c_node q) in *.
  exists (flip_all (l ++ [head]) (links s)).
  pose proof (dll_nonnull _ _ _ head Hd ltac:(set_solver)) as Hh0.
  destruct (dll_head _ _ _ Hd) as [Hhn Hhp].
  pose proof Hd as (_ & Hnd & _).
  split; [|split].
  - unfold q_reverse. rewrite (proj2 (Z.eqb_neq head 0)) by done.
    run_with load_next_run.
    erewrite bind_run.
    2:{ apply load_next_run.
        instantiate (1 := match l with [] => hd_or head [] | _ :: l2' => hd_or head l2' end).
        destruct l as [|x l'] eqn:El; simpl; [done |].
        by destruct (dll_at _ head [] x l' Hd) as [-> _]. }
    erewrite bind_run.
    2:{ replace s with (with_links (flip_all [] (links s)) s) at 1 by (by destruct s).
        apply (q_reverse_loop_run s (links s) head [] l); [done |].
        unfold l. by rewrite length_map. }
    simpl fst. simpl snd. simpl app.
    assert (flip_all l (links s) !! head = links s !! head) as Hx.
    { apply flip_all_other; nodup; done. }
    run_with load_prev_run by (unfold prv; rewrite Hx; exact Hhp).
    run_with store_next_run by (rewrite Hx; alloc).
    rewrite store_prev_run.
    2:{ simpl. apply is_Some_alter. rewrite Hx. alloc. }
    simpl. rewrite flip_step.
    + by rewrite flip_all_snoc.
    + unfold nxt. rewrite Hx. exact Hhn.
    + unfold prv. rewrite Hx. exact Hhp.
  - eapply queue_links_only; [done | | by rewrite <- Permutation_rev].
    rewrite map_rev. by apply dll_flip_all.
  - apply dom_flip_all.
Qed.

(** ** q_swap *)

Lemma pair_ind {A} (P : list A -> Prop) :
  P [] -> (forall a, P [a]) -> (forall a b l, P l -> P (a :: b :: l)) ->
  forall l, P l.
Proof.
  intros H0 H1 H2 l.
  assert (P l /\ forall a, P (a :: l)) as [? _]; [|done].
  induction l as [|b l [IH1 IH2]]; split; auto.
Qed.

Lemma swap_pairs_perm {A} (l : list A) : swap_pairs l ≡ₚ l.
Proof.
  induction l as [|a|a b l IH] using pair_ind; [done | done |].
  simpl. rewrite perm_swap. by do 2 f_equiv.
Qed.

Lemma swap_pairs_map {A B} (f : A -> B) (l : list A) :
  map f (swap_pairs l) = swap_pairs (map f l).
Proof.
  induction l as [|a|a b l IH] using pair_ind; [done | done |].
  simpl. by do 2 f_equal.
Qed.

Lemma q_swap_loop_run s fuel : forall L head l1 l2,
  dll L head (l1 ++ l2) -> (length l2 < fuel)%nat ->
  exists L',
    q_swap_loop fuel head (hd_or head l2)
      (match l2 with [] => hd_or head l1 | _ :: l2' => hd_or head l2' end)
      (with_links L s) = Some (tt, with_links L' s) /\
    dll L' head (l1 ++ swap_pairs l2) /\ dom L' = dom L.
Proof.
  induction fuel as [|f IH]; intros L head l1 l2 Hd Hf; [lia |].
  pose proof Hd as (Hc & Hnd & H0).
  destruct l2 as [|x [|y l2']].
  - exists L. simpl. by rewrite Z.eqb_refl.
  - exists L. simpl. nodup.
    rewrite (proj2 (Z.eqb_neq x head)) by set_solver. by rewrite Z.eqb_refl.
  - simpl q_swap_loop. simpl hd_or.
    assert (x ≠ head /\ y ≠ head /\ x ≠ y) as (Hxh & Hyh & Hxy).
    { nodup. set_solver. }
    rewrite (proj2 (Z.eqb_neq x head)), (proj2 (Z.eqb_neq y head)) by done.
    destruct (dll_at _ _ _ _ _ Hd) as [Hxn Hxp]. simpl in Hxn.
    pose proof (dll_unlink _ _ _ _ _ Hd) as Hd1. simpl hd_or in Hd1.
    set (L1 := unlink y (last_or head l1) L) in *.
    assert (is_Some (L !! x)) as Hax by (eapply dll_alloc; [done | set_solver]).
    assert (is_Some (L !! y)) as Hay by (eapply dll_alloc; [done | set_solver]).
    assert (is_Some (L !! last_or head l1)) as Hap.
    { eapply dll_alloc; [done |]. pose proof (last_or_in' head l1). set_solver. }
    run_with list_del_run.
    destruct (dll_at _ _ _ _ _ Hd1) as [Hyn Hyp].
    assert (is_Some (L !! hd_or head l2')) as Haz.
    { eapply dll_alloc; [done |]. pose proof (hd_or_in head l2'). set_solver. }
    pose proof (dll_link_mid L1 head l1 y l2' x Hd1) as Hd2.
    set (L2 := link_after x y (hd_or head l2') L1) in *.
    assert (dll L2 head ((l1 ++ [y; x]) ++ l2')) as Hd3.
    { rewrite <- app_assoc. apply Hd2.
      - rewrite app_comm_cons in Hnd. apply NoDup_mid in Hnd as [Hnd _].
        by rewrite <- app_comm_cons in Hnd.
      - set_solver.
      - by apply unlink_alloc. }
    run_with list_add_run by (first [ done | by apply unlink_alloc ]).
    destruct (dll_at L2 head (l1 ++ [y]) x l2') as [Hxn2 _].
    { by rewrite <- !app_assoc in *. }
    run_with load_next_run.
    run_with load_next_run by (simpl; by apply dll_cursor).
    destruct (IH L2 head (l1 ++ [y; x]) l2' Hd3) as (L' & Hrun & Hd' & Hdom);
      [simpl in Hf; lia |].
    exists L'. split; [exact Hrun |]. split.
    + by rewrite <- app_assoc in Hd'.
    + rewrite Hdom. unfold L2, L1, link_after, unlink. by rewrite !dom_alter_L.
Qed.

Lemma q_swap_run s head q fuel :
  queue s head q -> (length q < fuel)%nat ->
  exists L', q_swap fuel head s = Some (tt, with_links L' s) /\
             queue (with_links L' s) head (swap_pairs q) /\
             dom L' = dom (links s).
Proof.
  intros Hq Hf. pose proof Hq as (Hd & _ & _).
  pose proof (dll_nonnull _ _ _ head Hd ltac:(set_solver)) as Hh0.
  destruct (dll_head _ _ _ Hd) as [Hhn _].
  destruct (q_swap_loop_run s fuel (links s) head [] (map c_node q)) as (L' & Hrun & Hd' & Hdom);
    [done | by rewrite length_map |].
  exists L'. split; [|split; [|done]].
  - unfold q_swap. rewrite (proj2 (Z.eqb_neq head 0)) by done.
    run_with load_next_run.
    run_with load_next_run by (by apply (dll_cursor _ head [])).
    replace s with (with_links (links s) s) at 1 by (by destruct s).
    exact Hrun.
  - eapply queue_links_only; [done | | apply swap_pairs_perm].
    by rewrite swap_pairs_map.
Qed.

(** ** Unlinking and releasing an element *)

Lemma dll_ext L L' head l :
  (forall y, y ∈ head :: l -> L' !! y = L !! y) -> dll L head l -> dll L' head l.
Proof.
  intros H ([Hn Hp] & Hnd & H0). split; [|done]. split.
  - eapply nchain_ext; [|exact Hn]. intros y Hy. unfold nxt. by rewrite H.
  - eapply pchain_ext; [|exact Hp]. intros y Hy. unfold prv. by rewrite H.
Qed.

Lemma queue_nodes_NoDup s head q : queue s head q -> NoDup (head :: map c_node q).
Proof. by intros ((_ & ? & _) & _). Qed.

Lemma queue_middle s head q1 c q2 :
  queue s head (q1 ++ c :: q2) ->
  cell_ok s c /\ c_node c ≠ head /\ c_node c ≠ 0 /\
  (c_node c ∉ map c_node (q1 ++ q2)) /\ (c_val c ∉ map c_val (q1 ++ q2)) /\
  is_Some (links s !! c_node c).
Proof.
  intros (Hd & Hv & Hc). pose proof Hd as (_ & Hnd & H0).
  rewrite map_app in *. simpl in *.
  rewrite app_comm_cons in Hnd. apply NoDup_mid in Hnd as [Hn1 _].
  apply NoDup_mid in Hv as [Hv1 _].
  apply Forall_app in Hc as [_ [Hc _]%Forall_cons].
  split; [done |]. split; [set_solver |]. split; [set_solver |].
  split; [set_solver |]. split; [by rewrite map_app |].
  eapply dll_alloc; [done |]. set_solver.
Qed.

Lemma q_release_element_run s c :
  cell_ok s c -> is_Some (links s !! c_node c) -> c_node c ≠ 0 ->
  q_release_element (c_node c) s = Some (tt, released c s).
Proof.
  intros (Hv & Hs & [Hr _]) [r Hl] H0. unfold q_release_element.
  run_with load_value_run.
  unfold free_str, free_element.
  rewrite (proj2 (Z.eqb_neq (c_val c) 0)) by lia.
  rewrite (proj2 (Z.eqb_neq (c_node c) 0)) by done.
  unfold bind. rewrite Hs. simpl. rewrite Hl, Hv. done.
Qed.

Lemma queue_released s head q1 c q2 L' :
  queue s head (q1 ++ c :: q2) ->
  dll L' head (map c_node (q1 ++ q2)) ->
  queue (released c (with_links L' s)) head (q1 ++ q2).
Proof.
  intros Hq Hd'. destruct (queue_middle _ _ _ _ _ Hq) as (_ & Hh & _ & Hn & Hv & _).
  destruct Hq as (Hd & Hvs & Hc). split; [|split].
  - simpl. eapply dll_ext; [|exact Hd']. intros y Hy.
    apply lookup_delete_ne. set_solver.
  - rewrite map_app in *. simpl in Hvs. by apply NoDup_mid in Hvs as [_ ?].
  - rewrite Forall_app, Forall_cons in Hc. destruct Hc as (Hc1 & _ & Hc2).
    assert (Forall (cell_ok s) (q1 ++ q2)) as Hc by (by apply Forall_app).
    rewrite Forall_forall in *. intros d Hdin.
    destruct (Hc d Hdin) as (Hdv & Hds & Hdp).
    assert (c_node d ≠ c_node c).
    { intros E. apply Hn. rewrite <- E. by apply list_elem_of_fmap_2. }
    assert (c_val d ≠ c_val c).
    { intros E. apply Hv. rewrite <- E. by apply list_elem_of_fmap_2. }
    split; [|split; [|done]]; simpl.
    + by rewrite lookup_delete_ne.
    + by rewrite lookup_delete_ne.
Qed.

(* list_del followed by q_release_element, on a member of the queue *)
Lemma queue_delete_run s head q1 c q2 :
  queue s head (q1 ++ c :: q2) ->
  exists s',
    (do! list_del (c_node c) in q_release_element (c_node c)) s = Some (tt, s') /\
    queue s' head (q1 ++ q2) /\
    links s' !! c_node c = None /\ values s' !! c_node c = None /\
    strs s' !! c_val c = None /\
    bytes s' = bytes s /\ oracle s' = oracle s /\ stray s' = stray s /\
    dom (links s') = dom (links s) ∖ {[c_node c]}.
Proof.
  intros Hq. destruct (queue_middle _ _ _ _ _ Hq) as (Hok & Hh & H0 & Hn & Hv & Ha).
  pose proof Hq as (Hd & _ & _). rewrite map_app in Hd. simpl in Hd.
  destruct (dll_at _ _ _ _ _ Hd) as [Hxn Hxp].
  pose proof (dll_unlink _ _ _ _ _ Hd) as Hd1.
  set (nx := hd_or head (map c_node q2)) in *.
  set (pv := last_or head (map c_node q1)) in *.
  exists (released c (with_links (unlink nx pv (links s)) s)).
  split; [|split].
  - assert (is_Some (links s !! nx)).
    { eapply dll_alloc; [done |]. pose proof (hd_or_in head (map c_node q2)). set_solver. }
    assert (is_Some (links s !! pv)).
    { eapply dll_alloc; [done |]. pose proof (last_or_in' head (map c_node q1)). set_solver. }
    run_with list_del_run.
    apply q_release_element_run; [done | | done]. simpl. by apply unlink_alloc.
  - apply queue_released; [done |]. by rewrite map_app.
  - simpl. rewrite !lookup_delete_eq. repeat split; try done.
    unfold unlink. rewrite dom_delete_L, !dom_alter_L. done.
Qed.

(** ** q_delete_mid *)

Lemma q_delete_mid_loop_run s head fuel : forall a m b,
  dll (links s) head (a ++ m ++ b) -> length a = length b -> m ≠ [] ->
  (length m < fuel)%nat ->
  exists l1 x l2,
    a ++ m ++ b = l1 ++ x :: l2 /\
    length l1 = (length (a ++ m ++ b) / 2)%nat /\
    q_delete_mid_loop fuel 0 (hd_or head m) (last_or head m) s = Some (x, s).
Proof.
  induction fuel as [|f IH]; intros a m b Hd Hab Hm Hf; [lia |].
  pose proof Hd as (_ & Hnd & H0).
  destruct m as [|x m1]; [done |]. clear Hm.
  destruct (decide (m1 = [])) as [->|Hm1].
  - (* one node between the cursors *)
    exists a, x, b. split; [done |]. split.
    { rewrite !length_app. cbn [length app].
      apply (Nat.div_unique _ 2 _ 1); lia. }
    simpl in Hd. destruct (dll_at _ _ _ _ _ Hd) as [Hxn Hxp].
    assert (x ≠ 0) by set_solver.
    simpl. rewrite Z.eqb_refl.
    run_with load_next_run.
    assert (hd_or head b ≠ x) as Hne.
    { pose proof (hd_or_in head b). nodup. set_solver. }
    rewrite (proj2 (Z.eqb_neq _ _) Hne).
    run_with load_prev_run.
    destruct f as [|f]; [simpl in Hf; lia |]. simpl.
    by rewrite (proj2 (Z.eqb_neq x 0)).
  - destruct (snoc_last x m1) as [m' Hm']; [done |].
    remember (last_or x m1) as y eqn:Hy. simpl last_or. rewrite <- Hy.
    clear Hy. subst m1. simpl hd_or.
    assert (x ≠ y) as Hxy.
    { rewrite app_comm_cons in Hnd. nodup. set_solver. }
    assert (a ++ (x :: m' ++ [y]) ++ b = a ++ x :: (m' ++ [y] ++ b)) as E1 by lnorm.
    assert (a ++ (x :: m' ++ [y]) ++ b = (a ++ x :: m') ++ y :: b) as E2 by lnorm.
    assert (a ++ (x :: m' ++ [y]) ++ b = (a ++ [x]) ++ m' ++ y :: b) as E3 by lnorm.
    pose proof Hd as Hdx. rewrite E1 in Hdx.
    pose proof Hd as Hdy. rewrite E2 in Hdy.
    destruct (dll_at _ _ _ _ _ Hdx) as [Hxn _].
    destruct (dll_at _ _ _ _ _ Hdy) as [_ Hyp].
    assert (y ≠ 0) by set_solver.
    simpl q_delete_mid_loop. rewrite (proj2 (Z.eqb_neq x y)) by done.
    run_with load_next_run. run_with load_prev_run.
    destruct (decide (m' = [])) as [->|Hm''].
    + (* two nodes between the cursors *)
      exists (a ++ [x]), y, b. split; [lnorm |]. split.
      { rewrite !length_app. cbn [length app].
        apply (Nat.div_unique _ 2 _ 0); lia. }
      simpl. rewrite Z.eqb_refl.
      destruct f as [|f]; [simpl in Hf; lia |]. simpl.
      by rewrite (proj2 (Z.eqb_neq y 0)).
    + assert (hd_or head (m' ++ [y] ++ b) = hd_or head m') as -> by (by destruct m').
      assert (last_or head (a ++ x :: m') = last_or head m') as ->
        by (rewrite last_or_app; by destruct m').
      assert (hd_or head m' ≠ y) as Hne.
      { pose proof (hd_or_in head m'). rewrite app_comm_cons in Hnd.
        destruct m' as [|z m'']; [done |]. simpl. nodup. set_solver. }
      rewrite (proj2 (Z.eqb_neq _ _) Hne).
      destruct (IH (a ++ [x]) m' (y :: b)) as (l1 & z & l2 & Hl & Hlen & Hrun).
      * by rewrite <- E3.
      * rewrite length_app. simpl. lia.
      * done.
      * simpl in Hf. rewrite length_app in Hf. simpl in Hf. lia.
      * exists l1, z, l2. by rewrite E3.
Qed.

Lemma q_delete_mid_run s head q fuel :
  queue s head q -> q ≠ [] -> (length q < fuel)%nat ->
  exists s' q1 c q2,
    q = q1 ++ c :: q2 /\ length q1 = (length q / 2)%nat /\
    q_delete_mid fuel head s = Some (true, s') /\
    queue s' head (q1 ++ q2) /\
    links s' !! c_node c = None /\ values s' !! c_node c = None /\
    strs s' !! c_val c = None /\
    bytes s' = bytes s /\ oracle s' = oracle s.
Proof.
  intros Hq Hne Hf. pose proof Hq as (Hd & _ & _).
  pose proof (dll_nonnull _ _ _ head Hd ltac:(set_solver)) as Hh0.
  destruct (dll_head _ _ _ Hd) as [Hhn Hhp].
  destruct (q_delete_mid_loop_run s head fuel [] (map c_node q) [])
    as (l1 & x & l2 & Hl & Hlen & Hrun).
  { by rewrite app_nil_r. } { done. } { by destruct q. } { by rewrite length_map. }
  cbn [app] in Hl, Hlen. rewrite app_nil_r in Hl, Hlen. rewrite length_map in Hlen.
  apply map_eq_app in Hl as (q1 & q2' & -> & <- & Hq2).
  destruct q2' as [|c q2]; [done |]. simpl in Hq2. injection Hq2 as <- <-.
  destruct (queue_delete_run _ _ _ _ _ Hq) as (s' & Hdel & Hq' & ? & ? & ? & ? & ? & _).
  exists s', q1, c, q2. rewrite length_map in Hlen.
  split; [done |]. split; [done |]. split; [|by repeat (split; [done |])].
  unfold q_delete_mid. rewrite (proj2 (Z.eqb_neq head 0)) by done.
  erewrite bind_run by (by apply list_empty_run).
  assert (match map c_node (q1 ++ c :: q2) with [] => true | _ => false end = false)
    as -> by (by destruct q1).
  run_with load_next_run. run_with load_prev_run.
  erewrite bind_run by exact Hrun.
  unfold bind in Hdel |- *.
  destruct (list_del (c_node c) s) as [[[] s1]|]; [|done]. by rewrite Hdel.
Qed.

Lemma q_delete_mid_none s head fuel :
  (head = 0 -> q_delete_mid fuel head s = Some (false, s)) /\
  (queue s head [] -> q_delete_mid fuel head s = Some (false, s)).
Proof.
  split.
  - by intros ->.
  - intros Hq. pose proof Hq as (Hd & _ & _).
    pose proof (dll_nonnull _ _ _ head Hd ltac:(set_solver)) as Hh0.
    unfold q_delete_mid. rewrite (proj2 (Z.eqb_neq head 0)) by done.
    erewrite bind_run by (by apply list_empty_run). done.
Qed.

(** ** q_insert_head and q_insert_tail *)

Lemma next_alloc_run s :
  next_alloc s = Some (hd_or 0 (oracle s), with_oracle (tail (oracle s)) s).
Proof. unfold next_alloc. destruct s as [? ? ? ? ? [|a o]]; done. Qed.

Lemma malloc_element_run s :
  malloc_element s =
    Some (if hd_or 0 (oracle s) =? 0
          then (0, with_oracle (tail (oracle s)) s)
          else (hd_or 0 (oracle s),
                with_values (<[hd_or 0 (oracle s) := 0]> (values s))
                  (with_links (<[hd_or 0 (oracle s) := Link 0 0]> (links s))
                     (with_oracle (tail (oracle s)) s)))).
Proof.
  unfold malloc_element, bind. rewrite next_alloc_run.
  by destruct (hd_or 0 (oracle s) =? 0).
Qed.

Lemma strdup_run s p str :
  strs s !! p = Some str ->
  strdup p s =
    Some (if hd_or 0 (oracle s) =? 0
          then (0, with_oracle (tail (oracle s)) s)
          else (hd_or 0 (oracle s),
                with_strs (<[hd_or 0 (oracle s) := str]> (strs s))
                  (with_oracle (tail (oracle s)) s))).
Proof.
  intros Hp. unfold strdup, bind. rewrite Hp, next_alloc_run.
  by destruct (hd_or 0 (oracle s) =? 0).
Qed.

Lemma insert_with_null add p s : insert_with add 0 p s = Some (false, s).
Proof. done. Qed.

Lemma insert_with_no_node add head p s :
  head ≠ 0 -> hd_or 0 (oracle s) = 0 ->
  insert_with add head p s = Some (false, with_oracle (tail (oracle s)) s).
Proof.
  intros Hh Ha. unfold insert_with.
  rewrite (proj2 (Z.eqb_neq head 0)) by done.
  unfold bind at 1. rewrite malloc_element_run. by rewrite Ha.
Qed.

Lemma insert_with_no_string add head p str s :
  head ≠ 0 -> hd_or 0 (oracle s) ≠ 0 -> fresh_node s (hd_or 0 (oracle s)) ->
  strs s !! p = Some str -> hd_or 0 (tail (oracle s)) = 0 ->
  insert_with add head p s = Some (false, with_oracle (tail (tail (oracle s))) s).
Proof.
  intros Hh Ha [Hf1 Hf2] Hp Hb. unfold insert_with.
  rewrite (proj2 (Z.eqb_neq head 0)) by done.
  unfold bind at 1. rewrite malloc_element_run.
  rewrite (proj2 (Z.eqb_neq _ 0) Ha). cbv beta iota.
  rewrite (proj2 (Z.eqb_neq _ 0) Ha).
  unfold bind at 1. rewrite (strdup_run _ _ str) by done.
  simpl oracle. rewrite Hb. simpl (0 =? 0). cbv beta iota.
  unfold bind, store_value, free_element. simpl.
  rewrite (proj2 (Z.eqb_neq _ 0) Ha). rewrite !lookup_insert_eq. simpl.
  rewrite !lookup_insert_eq. unfold ret, with_oracle. simpl. f_equal. f_equal.
  rewrite insert_insert_eq, !delete_insert_id by done. by destruct s.
Qed.

Lemma insert_with_ok add head p str s :
  head ≠ 0 -> hd_or 0 (oracle s) ≠ 0 -> fresh_node s (hd_or 0 (oracle s)) ->
  strs s !! p = Some str -> hd_or 0 (tail (oracle s)) ≠ 0 ->
  insert_with add head p s =
    (do! add (hd_or 0 (oracle s)) head in ret true)
      (allocated (hd_or 0 (oracle s)) (hd_or 0 (tail (oracle s))) str s).
Proof.
  intros Hh Ha [Hf1 Hf2] Hp Hb. unfold insert_with.
  rewrite (proj2 (Z.eqb_neq head 0)) by done.
  unfold bind at 1. rewrite malloc_element_run.
  rewrite (proj2 (Z.eqb_neq _ 0) Ha). cbv beta iota.
  rewrite (proj2 (Z.eqb_neq _ 0) Ha).
  unfold bind at 1. rewrite (strdup_run _ _ str) by done.
  simpl oracle. rewrite (proj2 (Z.eqb_neq _ 0) Hb). cbv beta iota.
  unfold bind at 1. unfold store_value. simpl. rewrite !lookup_insert_eq.
  rewrite (proj2 (Z.eqb_neq _ 0) Hb).
  unfold with_values, allocated. simpl. rewrite insert_insert_eq. done.
Qed.

Lemma queue_allocated s head q a b str :
  queue s head q -> a ≠ 0 -> fresh_node s a -> fresh_str s b ->
  dll (links (allocated a b str s)) head (map c_node q) /\
  (a ∉ head :: map c_node q) /\
  NoDup (map c_val (Cell a b str :: q)) /\
  Forall (cell_ok (allocated a b str s)) (Cell a b str :: q).
Proof.
  intros (Hd & Hv & Hc) Ha0 [Hf1 Hf2] [Hf3 Hf4].
  assert (a ∉ head :: map c_node q) as Hni.
  { intros Hin. destruct (dll_alloc _ _ _ _ Hd Hin) as [r Hr]. congruence. }
  assert (forall c, c ∈ q -> c_node c ≠ a /\ c_val c ≠ b) as Hne.
  { intros c Hin. rewrite Forall_forall in Hc. destruct (Hc c Hin) as (H1 & H2 & _).
    split; congruence. }
  split; [|split; [done |]; split].
  - simpl. eapply dll_ext; [|exact Hd]. intros y Hy.
    apply lookup_insert_ne. set_solver.
  - simpl. apply NoDup_cons. split; [|done].
    intros (c & Hcb & Hin)%list_elem_of_fmap. destruct (Hne c Hin). done.
  - apply Forall_cons. split.
    + split; [|split; [|done]]; simpl; by rewrite lookup_insert_eq.
    + rewrite Forall_forall in *. intros c Hin.
      destruct (Hc c Hin) as (H1 & H2 & H3). destruct (Hne c Hin).
      split; [|split; [|done]]; simpl; by rewrite lookup_insert_ne.
Qed.

Lemma q_insert_head_ok s head q p str :
  let a := hd_or 0 (oracle s) in
  let b := hd_or 0 (tail (oracle s)) in
  queue s head q -> strs s !! p = Some str ->
  a ≠ 0 -> b ≠ 0 -> fresh_node s a -> fresh_str s b ->
  exists s', q_insert_head head p s = Some (true, s') /\
             queue s' head (Cell a b str :: q) /\
             oracle s' = tail (tail (oracle s)) /\ bytes s' = bytes s.
Proof.
  intros a b Hq Hp Ha Hb Hfa Hfb. pose proof Hq as (Hd & _ & _).
  pose proof (dll_nonnull _ _ _ head Hd ltac:(set_solver)) as Hh0.
  destruct (queue_allocated s head q a b str) as (Hd1 & Hni & Hv1 & Hc1); try done.
  destruct (dll_head _ _ _ Hd1) as [Hhn _].
  set (s1 := allocated a b str s) in *.
  exists (with_links (link_after a head (hd_or head (map c_node q)) (links s1)) s1).
  split; [|split; [|done]].
  - change (q_insert_head head p s) with (insert_with list_add head p s).
    rewrite (insert_with_ok _ _ _ str) by done. fold a b s1.
    assert (is_Some (links s1 !! hd_or head (map c_node q)))
      by (eapply dll_alloc; [done |]; apply hd_or_in).
    assert (is_Some (links s1 !! a)) by (simpl; by rewrite lookup_insert_eq).
    assert (a ≠ head) by set_solver.
    run_with list_add_run. done.
  - split; [|done]. simpl map. apply dll_link_head; try done.
    simpl. by rewrite lookup_insert_eq.
Qed.

Lemma q_insert_tail_ok s head q p str :
  let a := hd_or 0 (oracle s) in
  let b := hd_or 0 (tail (oracle s)) in
  queue s head q -> strs s !! p = Some str ->
  a ≠ 0 -> b ≠ 0 -> fresh_node s a -> fresh_str s b ->
  exists s', q_insert_tail head p s = Some (true, s') /\
             queue s' head (q ++ [Cell a b str]) /\
             oracle s' = tail (tail (oracle s)) /\ bytes s' = bytes s.
Proof.
  intros a b Hq Hp Ha Hb Hfa Hfb. pose proof Hq as (Hd & _ & _).
  pose proof (dll_nonnull _ _ _ head Hd ltac:(set_solver)) as Hh0.
  destruct (queue_allocated s head q a b str) as (Hd1 & Hni & Hv1 & Hc1); try done.
  destruct (dll_head _ _ _ Hd1) as [_ Hhp].
  set (s1 := allocated a b str s) in *.
  exists (with_links (link_before a head (last_or head (map c_node q)) (links s1)) s1).
  split; [|split; [|done]].
  - change (q_insert_tail head p s) with (insert_with list_add_tail head p s).
    rewrite (insert_with_ok _ _ _ str) by done. fold a b s1.
    assert (is_Some (links s1 !! last_or head (map c_node q)))
      by (eapply dll_alloc; [done |]; apply last_or_in').
    assert (is_Some (links s1 !! a)) by (simpl; by rewrite lookup_insert_eq).
    assert (a ≠ head) by set_solver.
    run_with list_add_tail_run. done.
  - split; [|split].
    + rewrite map_app. simpl map. apply dll_link_tail; try done.
      simpl. by rewrite lookup_insert_eq.
    + rewrite map_app. simpl map. rewrite <- Permutation_cons_append. done.
    + rewrite <- Permutation_cons_append. done.
Qed.

(** ** q_remove_head and q_remove_tail *)

Lemma to_int32_range z : - 2 ^ 31 <= to_int32 z < 2 ^ 31.
Proof. unfold to_int32. pose proof (Z.mod_pos_bound (z + 2 ^ 31) (2 ^ 32)). lia. Qed.

Lemma to_int32_id z : - 2 ^ 31 <= z < 2 ^ 31 -> to_int32 z = z.
Proof. intros H. unfold to_int32. rewrite Z.mod_small by lia. lia. Qed.

Lemma min_cases a b r : min a b = Some r -> r = a \/ r = b.
Proof.
  unfold min. destruct (_ && _); [|discriminate].
  intros [= <-]. destruct (_ >? _); auto.
Qed.

(* inside the range of int, min is the minimum *)
Lemma min_defined a b :
  - 2 ^ 31 <= a - b < 2 ^ 31 -> min a b = Some (Z.min a b).
Proof.
  intros H. unfold min.
  rewrite (proj2 (Z.leb_le _ _)), (proj2 (Z.ltb_lt _ _)) by lia. cbn [andb].
  f_equal. destruct (Z.gtb_spec (a - b) 0); lia.
Qed.

(* outside it, min has no result *)
Lemma min_undefined a b :
  ~ - 2 ^ 31 <= a - b < 2 ^ 31 -> min a b = None.
Proof.
  intros H. unfold min.
  destruct (Z.leb_spec (- 2 ^ 31) (a - b)); [|done].
  destruct (Z.ltb_spec (a - b) (2 ^ 31)); [lia | done].
Qed.

Lemma copy_len_range bufsize n y len :
  copy_len bufsize n y = Some len ->
  - 2 ^ 31 <= y < 2 ^ 31 -> - 2 ^ 31 <= len < 2 ^ 31.
Proof.
  unfold copy_len. intros H Hy.
  pose proof (to_int32_range (to_size_t (bufsize - 1))).
  pose proof (to_int32_range (to_size_t (n + 1))).
  destruct (min (to_int32 (to_size_t (bufsize - 1))) (to_int32 (to_size_t (n + 1))))
    as [m|] eqn:Em; [|discriminate].
  apply min_cases in Em. apply min_cases in H. lia.
Qed.

Lemma lookup_write_down n sp f B a :
  write_down n sp f B !! a =
    if decide (sp <= a < sp + Z.of_nat n) then Some (f (a - sp)) else B !! a.
Proof.
  revert B. induction n as [|k IH]; intros B.
  - simpl. rewrite decide_False by lia. done.
  - simpl write_down. rewrite IH. rewrite lookup_insert.
    destruct (decide (sp + Z.of_nat k = a)) as [<-|].
    + rewrite decide_False by lia. rewrite decide_True by lia.
      f_equal. f_equal. lia.
    + destruct (decide (sp <= a < sp + Z.of_nat k)).
      * rewrite decide_True by lia. done.
      * rewrite decide_False by lia. done.
Qed.

Lemma copy_loop_run s sp v str i n : forall fuel B,
  strs s !! v = Some str -> (n < fuel)%nat -> Z.of_nat n <= 2 ^ 31 ->
  (forall k, 0 <= k < Z.of_nat n -> is_Some (B !! (sp + k))) ->
  copy_loop fuel sp v i (Z.of_nat n - 1) (with_bytes B s) =
    Some (tt, with_bytes (write_down n sp (copy_byte s v str i) B) s).
Proof.
  induction n as [|k IH]; intros fuel B Hv Hf Hn HB.
  - destruct fuel as [|f]; [lia |]. done.
  - destruct fuel as [|f]; [lia |].
    replace (Z.of_nat (S k) - 1) with (Z.of_nat k) by lia.
    simpl copy_loop. rewrite (proj2 (Z.geb_le _ _)) by lia.
    unfold bind at 1. unfold load_char. simpl strs. rewrite Hv.
    rewrite (proj2 (Z.leb_le _ _)) by lia.
    unfold bind at 1. unfold store_byte. simpl bytes.
    destruct (HB (Z.of_nat k) ltac:(lia)) as [b0 Hb0]. rewrite Hb0.
    rewrite to_int32_id by lia.
    change (with_bytes ?B' (with_bytes B s)) with (with_bytes B' s).
    rewrite IH; [| done | lia | lia |].
    + simpl write_down. unfold copy_byte. rewrite Nat2Z.id. done.
    + intros j Hj. rewrite lookup_insert. case_decide; [done |]. apply HB. lia.
Qed.

Lemma copy_out_run s c fuel y sp bufsize len :
  cell_ok s c -> - 2 ^ 31 <= y < 2 ^ 31 ->
  copy_len bufsize (Z.of_nat (String.length (c_str c))) y = Some len ->
  (forall k, 0 <= k <= len -> is_Some (bytes s !! (sp + k))) ->
  (Z.to_nat (len + 1) < fuel)%nat ->
  copy_out fuel y (c_node c) sp bufsize s =
    Some (c_node c, with_bytes (copied s sp (c_val c) (c_str c) len) s).
Proof.
  intros (Hv & Hs & _) Hy Hlen HB Hf.
  pose proof (copy_len_range bufsize _ y len Hlen Hy) as Hr. unfold copy_out.
  run_with load_value_run.
  unfold bind at 1. unfold strlen. rewrite Hs.
  unfold bind at 1. unfold defined. rewrite Hlen. clear Hlen.
  destruct (decide (len < 0)) as [Hneg|Hpos].
  - destruct fuel as [|f]; [lia |]. unfold bind, copied. cbn [copy_loop].
    rewrite Z.geb_leb, (proj2 (Z.leb_gt _ _)) by lia.
    replace (Z.to_nat (len + 1)) with O by lia. cbn [write_down]. by destruct s.
  - replace s with (with_bytes (bytes s) s) at 1 by (by destruct s).
    replace len with (Z.of_nat (Z.to_nat (len + 1)) - 1) at 2 by lia.
    erewrite bind_run; [done |].
    apply copy_loop_run; [done | done | lia |].
    intros k Hk. apply HB. lia.
Qed.

Lemma copied_with_links L s sp v str len :
  copied (with_links L s) sp v str len = copied s sp v str len.
Proof. reflexivity. Qed.

Lemma queue_unlinked s head q1 c q2 :
  queue s head (q1 ++ c :: q2) ->
  queue (with_links (unlink (hd_or head (map c_node q2))
                            (last_or head (map c_node q1)) (links s)) s)
        head (q1 ++ q2).
Proof.
  intros (Hd & Hv & Hc). rewrite map_app in *. simpl in *.
  split; [|split].
  - rewrite map_app. by apply dll_unlink in Hd.
  - rewrite map_app. by apply NoDup_mid in Hv as [_ ?].
  - rewrite Forall_app, Forall_cons in Hc. destruct Hc as (? & _ & ?).
    by apply Forall_app.
Qed.

Lemma q_remove_head_unfold fuel head sp bufsize s :
  q_remove_head fuel head sp bufsize s =
    (if head =? 0 then ret 0
     else
       let! e := list_empty head in
       if e then ret 0
       else
         let! node := load_next head in
         do! list_del node in
         copy_out fuel (to_int32 (abs_branchless (to_int32 sp) - 1)) node sp bufsize) s.
Proof.
  unfold q_remove_head, copy_out, copy_len.
  destruct (head =? 0); [reflexivity |]. unfold bind.
  destruct (list_empty head s) as [[[] s1]|]; [reflexivity | | reflexivity].
  destruct (load_next head s1) as [[node s2]|]; [|reflexivity].
  destruct (list_del node s2) as [[[] s3]|]; [|reflexivity].
  destruct (load_value node s3) as [[v s4]|]; [|reflexivity].
  destruct (strlen v s4) as [[n s5]|]; [|reflexivity].
  unfold defined. destruct (min _ _); reflexivity.
Qed.

Lemma q_remove_tail_unfold fuel head sp bufsize s :
  q_remove_tail fuel head sp bufsize s =
    (if head =? 0 then ret 0
     else
       let! e := list_empty head in
       if e then ret 0
       else
         let! node := load_prev head in
         do! list_del node in
         copy_out fuel (to_int32 (c_abs (to_int32 sp) - 1)) node sp bufsize) s.
Proof.
  unfold q_remove_tail, copy_out, copy_len.
  destruct (head =? 0); [reflexivity |]. unfold bind.
  destruct (list_empty head s) as [[[] s1]|]; [reflexivity | | reflexivity].
  destruct (load_prev head s1) as [[node s2]|]; [|reflexivity].
  destruct (list_del node s2) as [[[] s3]|]; [|reflexivity].
  destruct (load_value node s3) as [[v s4]|]; [|reflexivity].
  destruct (strlen v s4) as [[n s5]|]; [|reflexivity].
  unfold defined. destruct (min _ _); reflexivity.
Qed.

Lemma q_remove_head_run s head c q sp bufsize fuel len :
  queue s head (c :: q) ->
  copy_len bufsize (Z.of_nat (String.length (c_str c)))
    (to_int32 (abs_branchless (to_int32 sp) - 1)) = Some len ->
  (forall k, 0 <= k <= len -> is_Some (bytes s !! (sp + k))) ->
  (Z.to_nat (len + 1) < fuel)%nat ->
  exists s',
    q_remove_head fuel head sp bufsize s = Some (c_node c, s') /\
    queue s' head q /\ cell_ok s' c /\ is_Some (links s' !! c_node c) /\
    bytes s' = copied s sp (c_val c) (c_str c) len /\
    values s' = values s /\ strs s' = strs s /\ oracle s' = oracle s /\
    dom (links s') = dom (links s).
Proof.
  intros Hq.
  remember (to_int32 (abs_branchless (to_int32 sp) - 1)) as y eqn:Hy.
  intros Hlen HB Hf. pose proof Hq as (Hd & _ & _).
  pose proof (dll_nonnull _ _ _ head Hd ltac:(set_solver)) as Hh0.
  destruct (dll_head _ _ _ Hd) as [Hhn _]. cbn [map hd_or] in Hhn.
  destruct (queue_middle s head [] c q Hq) as (Hok & _ & _ & _ & _ & Ha).
  destruct (dll_at _ head [] _ _ Hd) as [Hxn Hxp]. cbn [last_or] in Hxp.
  pose proof (queue_unlinked s head [] c q Hq) as Hq1. cbn [app map last_or] in Hq1.
  assert (is_Some (links s !! hd_or head (map c_node q))) as Han.
  { eapply dll_alloc; [exact Hd |]. pose proof (hd_or_in head (map c_node q)).
    cbn [map]. set_solver. }
  assert (is_Some (links s !! head)) as Hah
    by (eapply dll_alloc; [exact Hd | apply elem_of_cons; by left]).
  set (s1 := with_links (unlink (hd_or head (map c_node q)) head (links s)) s) in *.
  exists (with_bytes (copied s sp (c_val c) (c_str c) len) s1).
  split; [|split; [|split; [|split]]].
  - rewrite q_remove_head_unfold. rewrite (proj2 (Z.eqb_neq head 0)) by exact Hh0.
    erewrite bind_run by (apply list_empty_run; exact Hd). cbn [map].
    erewrite bind_run by (apply load_next_run; exact Hhn).
    erewrite bind_run by (apply list_del_run; [exact Hxn | exact Hxp | exact Han | exact Hah]).
    fold s1. rewrite <- Hy. rewrite <- (copied_with_links (links s1) s).
    apply (copy_out_run s1 c fuel y sp bufsize len);
      [exact Hok | rewrite Hy; apply to_int32_range | exact Hlen | exact HB | exact Hf].
  - exact Hq1.
  - exact Hok.
  - cbn [links with_bytes]. apply unlink_alloc. exact Ha.
  - split; [reflexivity |]. split; [reflexivity |]. split; [reflexivity |].
    split; [reflexivity |]. cbn [links with_bytes]. unfold s1, unlink. cbn [links with_links].
    by rewrite !dom_alter_L.
Qed.

Lemma q_remove_tail_run s head c q sp bufsize fuel len :
  queue s head (q ++ [c]) ->
  copy_len bufsize (Z.of_nat (String.length (c_str c)))
    (to_int32 (c_abs (to_int32 sp) - 1)) = Some len ->
  (forall k, 0 <= k <= len -> is_Some (bytes s !! (sp + k))) ->
  (Z.to_nat (len + 1) < fuel)%nat ->
  exists s',
    q_remove_tail fuel head sp bufsize s = Some (c_node c, s') /\
    queue s' head q /\ cell_ok s' c /\ is_Some (links s' !! c_node c) /\
    bytes s' = copied s sp (c_val c) (c_str c) len /\
    values s' = values s /\ strs s' = strs s /\ oracle s' = oracle s /\
    dom (links s') = dom (links s).
Proof.
  intros Hq.
  remember (to_int32 (c_abs (to_int32 sp) - 1)) as y eqn:Hy.
  intros Hlen HB Hf. pose proof Hq as (Hd & _ & _).
  pose proof (dll_nonnull _ _ _ head Hd ltac:(set_solver)) as Hh0.
  destruct (dll_head _ _ _ Hd) as [_ Hhp].
  rewrite map_app, last_or_app in Hhp. cbn [map last_or] in Hhp.
  destruct (queue_middle s head q c [] Hq) as (Hok & _ & _ & _ & _ & Ha).
  pose proof Hd as Hd'. rewrite map_app in Hd'. cbn [map] in Hd'.
  destruct (dll_at _ head _ _ _ Hd') as [Hxn Hxp]. cbn [hd_or] in Hxn.
  pose proof (queue_unlinked s head q c [] Hq) as Hq1. cbn [map hd_or] in Hq1.
  rewrite app_nil_r in Hq1.
  assert (is_Some (links s !! last_or head (map c_node q))) as Hap.
  { eapply dll_alloc; [exact Hd' |]. pose proof (last_or_in' head (map c_node q)).
    set_solver. }
  assert (is_Some (links s !! head)) as Hah
    by (eapply dll_alloc; [exact Hd | apply elem_of_cons; by left]).
  set (s1 := with_links (unlink head (last_or head (map c_node q)) (links s)) s) in *.
  exists (with_bytes (copied s sp (c_val c) (c_str c) len) s1).
  split; [|split; [|split; [|split]]].
  - rewrite q_remove_tail_unfold. rewrite (proj2 (Z.eqb_neq head 0)) by exact Hh0.
    erewrite bind_run by (apply list_empty_run; exact Hd').
    assert (match map c_node q ++ [c_node c] with [] => true | _ => false end = false)
      as -> by (by destruct (map c_node q)).
    erewrite bind_run by (apply load_prev_run; exact Hhp).
    erewrite bind_run by (apply list_del_run; [exact Hxn | exact Hxp | exact Hah | exact Hap]).
    fold s1. rewrite <- Hy. rewrite <- (copied_with_links (links s1) s).
    apply (copy_out_run s1 c fuel y sp bufsize len);
      [exact Hok | rewrite Hy; apply to_int32_range | exact Hlen | exact HB | exact Hf].
  - exact Hq1.
  - exact Hok.
  - cbn [links with_bytes]. apply unlink_alloc. exact Ha.
  - split; [reflexivity |]. split; [reflexivity |]. split; [reflexivity |].
    split; [reflexivity |]. cbn [links with_bytes]. unfold s1, unlink. cbn [links with_links].
    by rewrite !dom_alter_L.
Qed.




Lemma q_remove_none s head fuel sp bufsize :
  (head = 0 \/ queue s head []) ->
  q_remove_head fuel head sp bufsize s = Some (0, s) /\
  q_remove_tail fuel head sp bufsize s = Some (0, s).
Proof.
  intros [-> | Hq]; [done |]. pose proof Hq as (Hd & _ & _).
  pose proof (dll_nonnull _ _ _ head Hd ltac:(set_solver)) as Hh0.
  unfold q_remove_head, q_remove_tail. rewrite (proj2 (Z.eqb_neq head 0)) by done.
  erewrite !bind_run by (by apply list_empty_run). done.
Qed.

(** ** The order of strcmp *)

Lemma byte_of_nonneg c : 0 <= byte_of c.
Proof. unfold byte_of. lia. Qed.

Lemma strcmp_refl a : strcmp_str a a = 0.
Proof.
  induction a as [|c a IH]; simpl; [done |].
  rewrite Z.eqb_refl. by destruct (byte_of c =? 0).
Qed.

Lemma strcmp_antisym a b : strcmp_str b a = - strcmp_str a b.
Proof.
  revert b. induction a as [|c a IH]; intros [|d b]; simpl; try lia.
  rewrite (Z.eqb_sym (byte_of d) (byte_of c)).
  destruct (byte_of c =? byte_of d) eqn:E.
  - apply Z.eqb_eq in E. rewrite E. destruct (byte_of d =? 0); [done | apply IH].
  - lia.
Qed.

Lemma strcmp_le_trans a b c :
  strcmp_str a b <= 0 -> strcmp_str b c <= 0 -> strcmp_str a c <= 0.
Proof.
  revert b c. induction a as [|x a IH]; intros [|y b] [|z c]; simpl;
    repeat match goal with
           | c : ascii |- _ =>
               lazymatch goal with
               | _ : 0 <= byte_of c |- _ => fail
               | _ => pose proof (byte_of_nonneg c)
               end
           end; try lia.
  - destruct (byte_of x =? byte_of z) eqn:E1; [|lia].
    destruct (byte_of x =? 0) eqn:E2; [done |].
    apply Z.eqb_neq in E2. lia.
  - destruct (byte_of x =? byte_of y) eqn:E1; [|lia].
    apply Z.eqb_eq in E1. destruct (byte_of x =? 0) eqn:E2; [|lia].
    apply Z.eqb_eq in E2. lia.
  - destruct (byte_of x =? byte_of y) eqn:E1;
      destruct (byte_of y =? byte_of z) eqn:E2;
      destruct (byte_of x =? byte_of z) eqn:E3;
      rewrite ?Z.eqb_eq, ?Z.eqb_neq in *; try lia.
    destruct (byte_of x =? 0) eqn:E4; destruct (byte_of y =? 0) eqn:E5;
      rewrite ?Z.eqb_eq, ?Z.eqb_neq in *; try lia.
    apply IH.
Qed.

#[global] Instance cell_le_trans : Transitive cell_le.
Proof. intros c d e. unfold cell_le. apply strcmp_le_trans. Qed.

#[global] Instance cell_le_total : Total cell_le.
Proof.
  intros c d. unfold cell_le.
  rewrite (strcmp_antisym (c_str c) (c_str d)). lia.
Qed.

Lemma same_key_le k c d : same_key k c -> same_key k d -> cell_le c d.
Proof.
  unfold same_key, cell_le. intros Hc Hd.
  apply (strcmp_le_trans _ k); [lia |].
  rewrite strcmp_antisym. lia.
Qed.

(** ** The merge is stable *)

Lemma filter_none {A} (P : A -> Prop) `{forall x, Decision (P x)} (l : list A) :
  Forall (fun x => ~ P x) l -> filter P l = [].
Proof.
  induction 1 as [|x l Hx _ IH]; [done |].
  by rewrite filter_cons_False.
Qed.

Lemma list_merge_filter k (a b : list cell) :
  StronglySorted cell_le a ->
  filter (same_key k) (list_merge cell_le a b) =
    filter (same_key k) a ++ filter (same_key k) b.
Proof.
  revert b. induction a as [|x a IHa]; intros b Ha.
  - by rewrite list_merge_nil_l.
  - apply StronglySorted_cons in Ha as [Hx Ha].
    induction b as [|y b IHb].
    + by rewrite list_merge_nil_r, app_nil_r.
    + rewrite list_merge_cons. destruct (decide (cell_le x y)) as [Hle|Hle].
      * rewrite !filter_cons, IHa by done. by destruct (decide (same_key k x)).
      * rewrite (filter_cons _ y), IHb.
        rewrite (filter_cons _ y b).
        destruct (decide (same_key k y)) as [Hy|Hy]; [|done].
        assert (filter (same_key k) (x :: a) = []) as ->; [|done].
        apply filter_none. apply Forall_cons. split.
        -- intros Hk. apply Hle. by apply (same_key_le k).
        -- rewrite Forall_forall in *. intros z Hz Hk. apply Hle.
           transitivity z; [by apply Hx | by apply (same_key_le k)].
Qed.

Lemma stable_sort_merge a a' b b' :
  stable_sort_of a a' -> stable_sort_of b b' ->
  stable_sort_of (a ++ b) (list_merge cell_le a' b').
Proof.
  intros (Hsa & Hpa & Hfa) (Hsb & Hpb & Hfb). split; [|split].
  - apply Sorted_StronglySorted; [apply _ |].
    apply Sorted_list_merge; [apply _ | |]; by apply StronglySorted_Sorted.
  - by rewrite merge_Permutation, Hpa, Hpb.
  - intros k. rewrite list_merge_filter by done.
    by rewrite filter_app, Hfa, Hfb.
Qed.

Lemma stable_sort_short q : (length q <= 1)%nat -> stable_sort_of q q.
Proof.
  intros Hq. split; [|done].
  destruct q as [|c [|d q]]; [constructor | | simpl in Hq; lia].
  constructor; constructor.
Qed.

(** ** Forward chains *)

Lemma nchain_nonempty_alloc L l q x : nchain L l q -> x ∈ l -> is_Some (L !! x).
Proof. apply nchain_alloc. Qed.

Lemma nchain_relast L l x q q' :
  nchain L (l ++ [x]) q -> x ∉ l ->
  nchain (alter (set_next q') x L) (l ++ [x]) q'.
Proof.
  intros [H1 [H2 _]]%nchain_app Hx. simpl in *. apply nchain_app. simpl.
  split; [|split; [|done]].
  - eapply nchain_ext; [|exact H1]. intros y Hy. fields. done.
  - fields. done.
Qed.

Lemma nchain_frame L L' l q :
  (forall y, y ∈ l -> L' !! y = L !! y) -> nchain L l q -> nchain L' l q.
Proof. intros H. apply nchain_ext. intros y Hy. unfold nxt. by rewrite H. Qed.

Lemma nchain_drop_next L l q i :
  nchain L l q -> (i < length l)%nat ->
  nxt L (hd_or q (drop i l)) = Some (hd_or q (drop (S i) l)).
Proof.
  revert i. induction l as [|x l IH]; intros i Hc Hi; [simpl in Hi; lia |].
  destruct Hc as [H1 H2]. destruct i as [|i]; [done |].
  simpl. apply IH; [done | simpl in Hi; lia].
Qed.

Lemma hd_drop_in (l : list Z) d i : (i < length l)%nat -> hd_or d (drop i l) ∈ l.
Proof.
  revert i. induction l as [|x l IH]; intros i Hi; [simpl in Hi; lia |].
  destruct i as [|i]; [set_solver |].
  simpl. apply elem_of_cons. right. apply IH. simpl in Hi. lia.
Qed.

Lemma hd_drop_ge (l : list Z) d i : (length l <= i)%nat -> hd_or d (drop i l) = d.
Proof. intros Hi. by rewrite drop_ge. Qed.

(** ** merge *)

Lemma strcmp_run s p q a b :
  strs s !! p = Some a -> strs s !! q = Some b ->
  strcmp p q s = Some (strcmp_str a b, s).
Proof. intros Ha Hb. unfold strcmp. by rewrite Ha, Hb. Qed.

Lemma store_slot_next_run s t v sorted :
  is_Some (links s !! t) ->
  store_slot (NextOf t) v sorted s =
    Some (sorted, with_links (alter (set_next v) t (links s)) s).
Proof. intros H. unfold store_slot. run_with store_next_run. done. Qed.

(* membership in lists built from appends and conses *)
Ltac mem :=
  rewrite ?map_app in *; cbn [map app] in *;
  repeat first [ rewrite elem_of_app in *
               | rewrite elem_of_cons in *
               | rewrite elem_of_nil in * ];
  intuition congruence.

(* one step of the merge loop: what the heap and the lists give the
   recursive call, when the node taken is the first of la *)
Lemma merge_step_facts (L : gmap Z link) t x (la lb : list Z) :
  nchain L (x :: la) 0 -> nchain L lb 0 ->
  NoDup (t :: (x :: la) ++ lb) -> 0 ∉ (x :: la) ++ lb -> is_Some (L !! t) ->
  let L1 := alter (set_next x) t L in
  nxt L1 x = Some (hd_or 0 la) /\
  nchain L1 la 0 /\ nchain L1 lb 0 /\
  NoDup (x :: la ++ lb) /\ (0 ∉ la ++ lb) /\ is_Some (L1 !! x) /\
  nxt L1 t = Some x /\ (t ∉ x :: la ++ lb).
Proof.
  intros [Hxn Ha] Hb Hnd H0 Ht L1.
  apply NoDup_cons in Hnd as [Htn Hnd]. cbn [app] in Htn, Hnd, H0.
  assert (x ≠ t) by mem.
  split; [unfold L1; by fields |]. split; [|split; [|split; [|split; [|split; [|split]]]]].
  - eapply nchain_ext; [|exact Ha]. intros z Hz.
    assert (z ≠ t) by mem. unfold L1. by fields.
  - eapply nchain_ext; [|exact Hb]. intros z Hz.
    assert (z ≠ t) by mem. unfold L1. by fields.
  - done.
  - mem.
  - apply is_Some_alter. by eapply nxt_is_Some.
  - unfold L1. by fields.
  - done.
Qed.

Lemma merge_loop_run s fuel : forall qa qb L t sorted,
  Forall (cell_ok s) (qa ++ qb) ->
  nchain L (map c_node qa) 0 -> nchain L (map c_node qb) 0 ->
  NoDup (t :: map c_node (qa ++ qb)) -> 0 ∉ map c_node (qa ++ qb) ->
  is_Some (L !! t) -> (length qa + length qb < fuel)%nat ->
  exists L',
    merge_loop fuel sorted (NextOf t)
      (hd_or 0 (map c_node qa)) (hd_or 0 (map c_node qb)) (with_links L s)
      = Some (sorted, with_links L' s) /\
    nchain L' (t :: map c_node (list_merge cell_le qa qb)) 0 /\
    (forall y, y ∉ t :: map c_node (qa ++ qb) -> L' !! y = L !! y) /\
    dom L' = dom L.
Proof.
  induction fuel as [|f IH]; intros qa qb L t sorted Hok Ha Hb Hnd H0 Ht Hf; [lia |].
  destruct qa as [|x qa'].
  - (* a is NULL *)
    clear IH. exists (alter (set_next (hd_or 0 (map c_node qb))) t L).
    cbn [merge_loop hd_or map]. rewrite Z.eqb_refl. cbn [negb andb].
    rewrite Z.lor_0_l.
    rewrite store_slot_next_run by done. rewrite list_merge_nil_l.
    cbn [app] in *. apply NoDup_cons in Hnd as [Htn Hnd].
    split; [done |]. split; [|split].
    + split; [by fields |].
      eapply nchain_ext; [|exact Hb]. intros y Hy.
      assert (y ≠ t) by congruence. by fields.
    + intros y Hy. apply lookup_alter_ne. mem.
    + apply dom_alter_L.
  - destruct qb as [|y qb'].
    + (* b is NULL *)
      clear IH. exists (alter (set_next (c_node x)) t L).
      cbn [merge_loop hd_or map]. rewrite Z.eqb_refl, andb_false_r.
      rewrite Z.lor_0_r.
      rewrite store_slot_next_run by done. rewrite list_merge_nil_r.
      rewrite app_nil_r in *. apply NoDup_cons in Hnd as [Htn Hnd].
      split; [done |]. split; [|split].
      * split; [by fields |].
        eapply nchain_ext; [|exact Ha]. intros z Hz.
        assert (z ≠ t) by congruence. by fields.
      * intros z Hz. apply lookup_alter_ne. mem.
      * apply dom_alter_L.
    + (* both chains have a node *)
      assert (cell_ok s x /\ cell_ok s y) as [(Hxv & Hxs & _) (Hyv & Hys & _)].
      { rewrite Forall_forall in Hok. split; apply Hok; mem. }
      rewrite map_app in Hnd, H0. cbn [map] in Ha, Hb, Hnd, H0.
      assert (c_node x ≠ 0 /\ c_node y ≠ 0) as [Hx0 Hy0] by (clear IH; mem).
      cbn [merge_loop hd_or map].
      rewrite (proj2 (Z.eqb_neq (c_node x) 0)), (proj2 (Z.eqb_neq (c_node y) 0)) by done.
      cbn [negb andb].
      run_with load_value_run. run_with load_value_run.
      erewrite bind_run by (by apply strcmp_run).
      rewrite list_merge_cons.
      destruct (decide (cell_le x y)) as [Hle|Hle]; unfold cell_le in Hle.
      * rewrite (proj2 (Z.leb_le _ _)) by done.
        destruct (merge_step_facts L t (c_node x) (map c_node qa')
                    (c_node y :: map c_node qb') Ha Hb Hnd H0 Ht)
          as (Hn1 & Ha1 & Hb1 & Hnd1 & H01 & Hx1 & Ht1 & Htn).
        run_with store_slot_next_run. run_with load_next_run.
        destruct (IH qa' (y :: qb') (alter (set_next (c_node x)) t L) (c_node x) sorted)
          as (L' & Hrun & Hch & Hfr & Hdom).
        all: clear IH.
        { by apply Forall_cons in Hok as [_ ?]. }
        { done. } { done. }
        { by rewrite map_app. }
        { by rewrite map_app. }
        { done. }
        { cbn [length] in Hf |- *. lia. }
        exists L'. split; [exact Hrun |]. split; [|split].
        -- cbn [map]. split; [|exact Hch]. cbn [hd_or]. unfold nxt.
           rewrite Hfr; [exact Ht1 | by rewrite map_app].
        -- intros z Hz. rewrite Hfr.
           ++ apply lookup_alter_ne. mem.
           ++ mem.
        -- by rewrite Hdom, dom_alter_L.
      * rewrite (proj2 (Z.leb_gt _ _)) by lia.
        assert (NoDup (t :: (c_node y :: map c_node qb') ++ c_node x :: map c_node qa'))
          as Hnd' by (clear IH; by rewrite (Permutation_app_comm (c_node y :: _))).
        assert (0 ∉ (c_node y :: map c_node qb') ++ c_node x :: map c_node qa')
          as H0' by (clear IH; mem).
        destruct (merge_step_facts L t (c_node y) (map c_node qb')
                    (c_node x :: map c_node qa') Hb Ha Hnd' H0' Ht)
          as (Hn1 & Hb1 & Ha1 & Hnd1 & H01 & Hy1 & Ht1 & Htn).
        run_with store_slot_next_run. run_with load_next_run.
        destruct (IH (x :: qa') qb' (alter (set_next (c_node y)) t L) (c_node y) sorted)
          as (L' & Hrun & Hch & Hfr & Hdom).
        all: clear IH.
        { apply Forall_app in Hok as [Hok1 [_ Hok2]%Forall_cons]. by apply Forall_app. }
        { done. } { done. }
        { rewrite map_app. cbn [map].
          rewrite (Permutation_app_comm (c_node x :: _)). done. }
        { mem. }
        { done. }
        { cbn [length] in Hf |- *. lia. }
        exists L'. split; [exact Hrun |]. split; [|split].
        -- cbn [map]. split; [|exact Hch]. cbn [hd_or]. unfold nxt.
           rewrite Hfr; [exact Ht1 | mem].
        -- intros z Hz. rewrite Hfr.
           ++ apply lookup_alter_ne. mem.
           ++ mem.
        -- by rewrite Hdom, dom_alter_L.
Qed.

Lemma merge_run s fuel qa qb L :
  qa ≠ [] -> qb ≠ [] -> Forall (cell_ok s) (qa ++ qb) ->
  nchain L (map c_node qa) 0 -> nchain L (map c_node qb) 0 ->
  NoDup (map c_node (qa ++ qb)) -> 0 ∉ map c_node (qa ++ qb) ->
  (length qa + length qb < fuel)%nat ->
  exists L',
    merge fuel (hd_or 0 (map c_node qa)) (hd_or 0 (map c_node qb)) (with_links L s)
      = Some (hd_or 0 (map c_node (list_merge cell_le qa qb)), with_links L' s) /\
    nchain L' (map c_node (list_merge cell_le qa qb)) 0 /\
    (forall y, y ∉ map c_node (qa ++ qb) -> L' !! y = L !! y) /\
    dom L' = dom L.
Proof.
  intros Hqa Hqb Hok Ha Hb Hnd H0 Hf.
  destruct qa as [|x qa']; [done |]. destruct qb as [|y qb']; [done |].
  destruct fuel as [|f]; [lia |].
  assert (cell_ok s x /\ cell_ok s y) as [(Hxv & Hxs & _) (Hyv & Hys & _)].
  { rewrite Forall_forall in Hok. split; apply Hok; mem. }
  rewrite map_app in Hnd, H0. cbn [map] in Ha, Hb, Hnd, H0.
  assert (c_node x ≠ 0 /\ c_node y ≠ 0) as [Hx0 Hy0] by mem.
  unfold merge. cbn [merge_loop hd_or map].
  rewrite (proj2 (Z.eqb_neq (c_node x) 0)), (proj2 (Z.eqb_neq (c_node y) 0)) by done.
  cbn [negb andb].
  run_with load_value_run. run_with load_value_run.
  erewrite bind_run by (by apply strcmp_run).
  rewrite list_merge_cons. unfold store_slot at 1.
  pose proof Ha as [Hxn Ha']. pose proof Hb as [Hyn Hb'].
  destruct (decide (cell_le x y)) as [Hle|Hle]; unfold cell_le in Hle.
  - rewrite (proj2 (Z.leb_le _ _)) by done.
    unfold bind at 1. unfold ret at 1. run_with load_next_run.
    destruct (merge_loop_run s f qa' (y :: qb') L (c_node x) (c_node x))
      as (L' & Hrun & Hch & Hfr & Hdom).
    { by apply Forall_cons in Hok as [_ ?]. }
    { done. } { done. }
    { by rewrite map_app. }
    { mem. }
    { by eapply nxt_is_Some. }
    { cbn [length] in Hf |- *. lia. }
    exists L'. split; [exact Hrun |]. split; [done |]. split; [|done].
    intros z Hz. apply Hfr. mem.
  - rewrite (proj2 (Z.leb_gt _ _)) by lia.
    unfold bind at 1. unfold ret at 1. run_with load_next_run.
    destruct (merge_loop_run s f (x :: qa') qb' L (c_node y) (c_node y))
      as (L' & Hrun & Hch & Hfr & Hdom).
    { apply Forall_app in Hok as [Hok1 [_ Hok2]%Forall_cons]. by apply Forall_app. }
    { done. } { done. }
    { rewrite map_app. cbn [map].
      by rewrite (Permutation_middle (c_node x :: map c_node qa') (map c_node qb') (c_node y)). }
    { mem. }
    { by eapply nxt_is_Some. }
    { cbn [length] in Hf |- *. lia. }
    exists L'. split; [exact Hrun |]. split; [done |]. split; [|done].
    intros z Hz. apply Hfr. mem.
Qed.

(** ** merge_sort *)

Lemma merge_sort_split_run s l fuel : forall m j,
  j = (2 * m + 1)%nat ->
  nchain (links s) l 0 -> 0 ∉ l -> (j <= length l)%nat ->
  (length l < fuel + j)%nat ->
  merge_sort_split fuel (hd_or 0 (drop m l)) (hd_or 0 (drop j l)) s =
    Some (hd_or 0 (drop ((length l - 1) / 2) l), s).
Proof.
  induction fuel as [|f IH]; intros m j Hj Hc H0 Hm Hf; [lia |].
  cbn [merge_sort_split].
  destruct (decide (length l <= j)%nat) as [Hle|Hgt].
  - rewrite (hd_drop_ge l 0 j) by lia. rewrite Z.eqb_refl.
    unfold ret. do 4 f_equal. apply (Nat.div_unique _ 2 _ 0); lia.
  - assert (hd_or 0 (drop j l) ≠ 0) as Hl0.
    { intros E. apply H0. rewrite <- E. apply hd_drop_in. lia. }
    rewrite (proj2 (Z.eqb_neq _ _) Hl0).
    erewrite bind_run by (apply load_next_run, nchain_drop_next; [done | lia]).
    destruct (decide (length l <= S j)%nat) as [Hle2|Hgt2].
    + rewrite (hd_drop_ge l 0 (S j)) by lia. rewrite Z.eqb_refl.
      unfold ret. do 4 f_equal. apply (Nat.div_unique _ 2 _ 1); lia.
    + assert (hd_or 0 (drop (S j) l) ≠ 0) as Hl1.
      { intros E. apply H0. rewrite <- E. apply hd_drop_in. lia. }
      rewrite (proj2 (Z.eqb_neq _ _) Hl1).
      erewrite bind_run by (apply load_next_run, nchain_drop_next; [done | lia]).
      erewrite bind_run by (apply load_next_run, nchain_drop_next; [done | lia]).
      apply IH; [lia | done | done | lia | lia].
Qed.

Lemma nchain_take L l q i :
  nchain L l q -> nchain L (take i l) (hd_or q (drop i l)).
Proof.
  intros H. rewrite <- (take_drop i l) in H at 1.
  by apply nchain_app in H as [? _].
Qed.

Lemma nchain_drop L l q i : nchain L l q -> nchain L (drop i l) q.
Proof.
  intros H. rewrite <- (take_drop i l) in H.
  by apply nchain_app in H as [_ ?].
Qed.

Lemma merge_sort_run s fuel : forall q L,
  q ≠ [] -> Forall (cell_ok s) q -> nchain L (map c_node q) 0 ->
  NoDup (map c_node q) -> 0 ∉ map c_node q -> (length q < fuel)%nat ->
  exists L' q',
    merge_sort fuel (hd_or 0 (map c_node q)) (with_links L s)
      = Some (hd_or 0 (map c_node q'), with_links L' s) /\
    nchain L' (map c_node q') 0 /\ stable_sort_of q q' /\
    (forall y, y ∉ map c_node q -> L' !! y = L !! y) /\
    dom L' = dom L.
Proof.
  induction fuel as [|f IH]; intros q L Hq Hok Hc Hnd H0 Hf; [lia |].
  destruct q as [|c1 q1]; [done |]. clear Hq.
  cbn [merge_sort hd_or map].
  pose proof Hc as [Hn1 _]. cbn [map] in Hn1.
  run_with load_next_run.
  destruct q1 as [|c2 q2].
  - (* a single node *)
    exists L, [c1]. simpl. split; [done |]. split; [done |].
    split; [by apply stable_sort_short |]. done.
  - set (q := c1 :: c2 :: q2) in *. set (l := map c_node q) in *.
    assert (length l = length q) as Hlen by apply length_map.
    assert (hd_or 0 (map c_node (c2 :: q2)) ≠ 0) as Hn0.
    { cbn [map hd_or]. intros E. apply H0. rewrite <- E. set_solver. }
    rewrite (proj2 (Z.eqb_neq _ _) Hn0).
    set (h := ((length l - 1) / 2)%nat).
    assert (S h < length l)%nat as Hh.
    { assert (2 <= length l)%nat by (rewrite Hlen; unfold q; cbn [length]; lia).
      assert (h < length l - 1)%nat by (apply Nat.div_lt; lia).
      lia. }
    pose proof (merge_sort_split_run (with_links L s) l (S f) 0%nat 1%nat) as Hsplit.
    cbn [drop] in Hsplit. fold h in Hsplit. fold merge_sort.
    erewrite bind_run.
    2:{ change (c_node c1) with (hd_or 0 l).
        change (hd_or 0 (map c_node (c2 :: q2))) with (hd_or 0 (drop 1 l)).
        apply Hsplit; [done | done | done | lia | lia]. }
    clear Hsplit. clearbody h.
    set (k := S h). assert (1 <= k < length l)%nat as Hk by (unfold k; lia).
    set (mid := hd_or 0 (drop h l)).
    assert (mid ∈ l) as Hmid by (apply hd_drop_in; lia).
    erewrite bind_run by (apply load_next_run, nchain_drop_next; [done | lia]).
    fold k.
    assert (is_Some (L !! mid)) as Hamid by (eapply nchain_alloc; done).
    run_with store_next_run. simpl links.
    set (L1 := alter (set_next 0) mid L).
    set (qa := take k q). set (qb := drop k q).
    assert (q = qa ++ qb) as Hqab by (symmetry; apply take_drop).
    assert (map c_node qa = take k l) as Hla by (symmetry; apply firstn_map).
    assert (map c_node qb = drop k l) as Hlb by (symmetry; apply skipn_map).
    assert (l = map c_node qa ++ map c_node qb) as Hlab
      by (rewrite Hla, Hlb; symmetry; apply take_drop).
    assert (length qa = k) as Hka by (unfold qa; rewrite length_take; lia).
    assert (length qb = (length q - k)%nat) as Hkb by (unfold qb; apply length_drop).
    assert (qa ≠ [] /\ qb ≠ []) as [Hqa Hqb].
    { split; intros E; rewrite E in *; simpl in *; lia. }
    assert (exists la', map c_node qa = la' ++ [mid]) as [la' Hla'].
    { rewrite Hla. unfold k, mid. exists (take h l).
      apply take_S_r.
      destruct (drop h l) as [|z l'] eqn:E.
      - apply (f_equal length) in E. rewrite length_drop in E. cbn [length] in E. lia.
      - cbn [hd_or]. apply (f_equal (fun x => x !! 0%nat)) in E.
        rewrite lookup_drop in E. rewrite Nat.add_0_r in E. done. }
    assert (NoDup (map c_node qa) /\ NoDup (map c_node qb) /\
            forall z, z ∈ map c_node qa -> z ∉ map c_node qb) as (Hnda & Hndb & Hdisj).
    { fold l in Hnd. rewrite Hlab in Hnd. apply NoDup_app in Hnd as (? & ? & ?). done. }
    assert (nchain L1 (map c_node qa) 0) as Hca.
    { rewrite Hla'. unfold L1. eapply nchain_relast.
      - rewrite <- Hla', Hla. apply nchain_take. exact Hc.
      - rewrite Hla' in Hnda. apply NoDup_app in Hnda as (_ & Hd & _).
        intros Hin. eapply Hd; [done | apply elem_of_cons; by left]. }
    assert (nchain L1 (map c_node qb) 0) as Hcb.
    { rewrite Hlb. apply (nchain_drop _ _ _ k) in Hc.
      eapply nchain_ext; [|exact Hc]. intros z Hz. unfold L1.
      assert (z ≠ mid).
      { intros ->. eapply Hdisj; [|by rewrite Hlb]. rewrite Hla'.
        apply elem_of_app. right. apply elem_of_cons. by left. }
      by fields. }
    assert (Forall (cell_ok s) qa /\ Forall (cell_ok s) qb) as [Hoka Hokb].
    { rewrite Hqab in Hok. by apply Forall_app in Hok. }
    assert ((0 ∉ map c_node qa) /\ (0 ∉ map c_node qb)) as [H0a H0b].
    { fold l in H0. rewrite Hlab in H0. by apply not_elem_of_app in H0. }
    assert (hd_or 0 l = hd_or 0 (map c_node qa)) as Hhd.
    { rewrite Hlab. destruct (map c_node qa) eqn:E; [|done].
      destruct qa; [done | discriminate]. }
    change (c_node c1) with (hd_or 0 l). rewrite Hhd.
    assert (length q <= f)%nat as Hf' by (unfold q in *; cbn [length] in *; lia).
    destruct (IH qa L1 Hqa Hoka Hca Hnda H0a ltac:(lia))
      as (L2 & qa' & Hrun2 & Hc2 & Hs2 & Hfr2 & Hdom2).
    erewrite bind_run by exact Hrun2.
    assert (nchain L2 (map c_node qb) 0) as Hcb2.
    { eapply nchain_frame; [|exact Hcb]. intros z Hz. apply Hfr2.
      intros Hin. by eapply Hdisj. }
    rewrite <- Hlb.
    destruct (IH qb L2 Hqb Hokb Hcb2 Hndb H0b ltac:(lia))
      as (L3 & qb' & Hrun3 & Hc3 & Hs3 & Hfr3 & Hdom3).
    clear IH.
    erewrite bind_run by exact Hrun3.
    pose proof Hs2 as (_ & Hpa & _). pose proof Hs3 as (_ & Hpb & _).
    assert (nchain L3 (map c_node qa') 0) as Hca3.
    { eapply nchain_frame; [|exact Hc2]. intros z Hz. apply Hfr3.
      intros Hin. eapply Hdisj; [|done]. by rewrite <- Hpa. }
    destruct (merge_run s (S f) qa' qb' L3) as (L4 & Hrun4 & Hc4 & Hfr4 & Hdom4).
    { intros E. rewrite E in Hpa. apply Permutation_nil in Hpa. done. }
    { intros E. rewrite E in Hpb. apply Permutation_nil in Hpb. done. }
    { rewrite Hpa, Hpb, <- Hqab. done. }
    { done. } { done. }
    { rewrite Hpa, Hpb, <- Hqab. done. }
    { rewrite Hpa, Hpb, <- Hqab. done. }
    { rewrite Hpa, Hpb, <- length_app, <- Hqab. lia. }
    exists L4, (list_merge cell_le qa' qb').
    split; [exact Hrun4 |]. split; [done |]. split; [|split].
    + rewrite Hqab. by apply stable_sort_merge.
    + intros z Hz. rewrite <- Hhd in Hz. change (z ∉ l) in Hz.
      assert (z ≠ mid) by (intros ->; done).
      rewrite Hlab in Hz. apply not_elem_of_app in Hz as [Hza Hzb].
      assert (z ∉ map c_node (qa' ++ qb')) by (by rewrite Hpa, Hpb, map_app, not_elem_of_app).
      rewrite Hfr4, Hfr3, Hfr2 by done.
      unfold L1. by apply lookup_alter_ne.
    + rewrite Hdom4, Hdom3, Hdom2. apply dom_alter_L.
Qed.

(** ** q_sort *)

Lemma q_sort_relink_run s : forall l x p L fuel,
  nchain L (x :: l) 0 -> NoDup (x :: l) -> 0 ∉ x :: l -> prv L x = Some p ->
  (length l < fuel)%nat ->
  exists L',
    q_sort_relink fuel x (with_links L s) = Some (last_or x l, with_links L' s) /\
    nchain L' (x :: l) 0 /\ pchain L' p (x :: l) /\
    (forall y, y ∉ x :: l -> L' !! y = L !! y) /\ dom L' = dom L.
Proof.
  induction l as [|y l IH]; intros x p L fuel Hc Hnd H0 Hp Hf.
  - destruct fuel as [|f]; [cbn [length] in Hf; lia |].
    exists L. cbn [q_sort_relink]. destruct Hc as [Hn _]. cbn [hd_or] in Hn.
    run_with load_next_run. rewrite Z.eqb_refl.
    split; [done |]. split; [done |]. split; [done |]. done.
  - destruct fuel as [|f]; [cbn [length] in Hf; lia |].
    pose proof Hc as [Hn Hc']. cbn [hd_or] in Hn.
    apply NoDup_cons in Hnd as [Hx Hnd].
    assert (y ≠ 0 /\ x ≠ y) as [Hy0 Hxy] by (clear IH; mem).
    assert (is_Some (L !! y)) as Hay by (eapply nchain_alloc; [exact Hc' | by left]).
    cbn [q_sort_relink].
    run_with load_next_run. rewrite (proj2 (Z.eqb_neq y 0)) by done.
    run_with store_prev_run.
    destruct (IH y x (alter (set_prev x) y L) f) as (L' & Hrun & Hn' & Hp' & Hfr & Hdom).
    { eapply nchain_ext; [|exact Hc']. intros z Hz. by fields. }
    { done. }
    { clear IH. mem. }
    { by fields. }
    { cbn [length] in Hf. lia. }
    clear IH. exists L'. split; [exact Hrun |].
    assert (L' !! x = L !! x) as Hxx.
    { rewrite Hfr by done. by apply lookup_alter_ne. }
    split; [|split; [|split]].
    + split; [|done]. unfold nxt. by rewrite Hxx.
    + split; [|done]. unfold prv. by rewrite Hxx.
    + intros z Hz. rewrite Hfr by mem. apply lookup_alter_ne. mem.
    + by rewrite Hdom, dom_alter_L.
Qed.

Lemma q_sort_short s head q fuel :
  queue s head q -> (length q <= 1)%nat -> q_sort fuel head s = Some (tt, s).
Proof.
  intros Hq Hlen. pose proof Hq as (Hd & _ & _).
  pose proof (dll_nonnull _ _ _ head Hd ltac:(by left)) as Hh0.
  destruct (dll_head _ _ _ Hd) as [Hhn Hhp].
  unfold q_sort. rewrite (proj2 (Z.eqb_neq head 0)) by done.
  run_with load_next_run. run_with load_prev_run.
  destruct q as [|c [|d q]]; cbn [map hd_or last_or];
    [| | cbn [length] in Hlen; lia]; by rewrite Z.eqb_refl.
Qed.

Lemma q_sort_long s head q fuel :
  queue s head q -> (2 <= length q)%nat -> (length q < fuel)%nat ->
  exists L' q',
    q_sort fuel head s = Some (tt, with_links L' s) /\
    queue (with_links L' s) head q' /\ stable_sort_of q q' /\
    dom L' = dom (links s).
Proof.
  intros Hq Hlen Hf. pose proof Hq as (Hd & Hvs & Hok).
  pose proof (dll_nonnull _ _ _ head Hd ltac:(by left)) as Hh0.
  destruct (dll_head _ _ _ Hd) as [Hhn Hhp].
  destruct Hd as ([Hn Hp] & Hnd & H0).
  set (l := map c_node q) in *. set (L := links s) in *.
  assert (length l = length q) as Hll by apply length_map.
  assert (l ≠ []) as Hlne by (intros E; rewrite E in Hll; cbn [length] in Hll; lia).
  assert (q ≠ []) as Hqne by (intros E; rewrite E in Hlen; cbn [length] in Hlen; lia).
  destruct (snoc_last head l Hlne) as [m Hm].
  set (hp := last_or head l) in *.
  destruct Hn as [_ Hn]. cbn [hd_or] in Hn.
  apply NoDup_cons in Hnd as [Hhl Hnd].
  assert (head ≠ hp) as Hhhp.
  { intros E. apply Hhl. rewrite E. by apply last_or_in. }
  assert (hd_or head l ≠ hp) as Hne.
  { rewrite Hm in Hnd, Hll |- *. destruct m as [|z m'].
    - rewrite length_app in Hll. cbn [length] in Hll. lia.
    - cbn [app hd_or]. cbn [app] in Hnd. apply NoDup_cons in Hnd as [Hz _].
      intros ->. apply Hz. apply elem_of_app. right. by left. }
  assert (is_Some (L !! hp)) as Hahp
    by (eapply nchain_alloc; [exact Hn | by apply last_or_in]).
  assert (is_Some (L !! head)) as Hah by (by eapply nxt_is_Some).
  assert (hd_or head l = hd_or 0 l) as Hhd by (by apply hd_or_nonempty).
  (* the ring is opened into a chain *)
  set (L1 := alter (set_next 0) hp L).
  assert (nchain L1 l 0) as Hc1.
  { rewrite Hm. unfold L1. eapply nchain_relast.
    - rewrite <- Hm. exact Hn.
    - rewrite Hm in Hnd. apply NoDup_app in Hnd as (_ & Hd & _).
      intros Hin. eapply Hd; [exact Hin | by left]. }
  assert (0 ∉ l) as H0l by (intros ?; apply H0; by right).
  destruct (merge_sort_run s fuel q L1 Hqne Hok Hc1 Hnd H0l Hf)
    as (L2 & q' & Hrun2 & Hc2 & Hst & Hfr2 & Hdom2).
  pose proof Hst as (_ & Hperm & _).
  set (l' := map c_node q') in *.
  assert (l' ≡ₚ l) as Hpl by (unfold l', l; by rewrite Hperm).
  assert (l' ≠ []) as Hl'ne.
  { intros E. rewrite E in Hpl. by apply Permutation_nil in Hpl. }
  destruct l' as [|x r] eqn:El'; [done |]. clear Hl'ne.
  assert (NoDup (x :: r)) as Hnd' by (by rewrite Hpl).
  assert (0 ∉ x :: r) as H0' by (by rewrite Hpl).
  assert (head ∉ x :: r) as Hh' by (by rewrite Hpl).
  assert (L2 !! head = L !! head) as Hh2.
  { rewrite Hfr2 by done. unfold L1. by apply lookup_alter_ne. }
  assert (is_Some (L2 !! x)) as Hax by (eapply nchain_alloc; [exact Hc2 | by left]).
  assert (x ≠ head) as Hxh by (intros ->; apply Hh'; by left).
  (* the first node is linked to the sentinel, then the prev fields are rebuilt *)
  set (L3 := alter (set_next x) head L2).
  set (L4 := alter (set_prev head) x L3).
  assert (nchain L4 (x :: r) 0) as Hc4.
  { eapply nchain_ext; [|exact Hc2]. intros z Hz.
    assert (z ≠ head) by (intros ->; done). unfold L4, L3. by fields. }
  assert (prv L4 x = Some head) as Hp4.
  { unfold L4, L3. by fields. }
  destruct (q_sort_relink_run s r x head L4 fuel Hc4 Hnd' H0' Hp4)
    as (L5 & Hrun5 & Hn5 & Hp5 & Hfr5 & Hdom5).
  { apply Permutation_length in Hpl. cbn [length] in Hpl. lia. }
  set (tl := last_or x r) in *.
  assert (tl ∈ x :: r) as Htl by apply last_or_in'.
  assert (tl ≠ head) as Htlh by (intros E; apply Hh'; by rewrite <- E).
  assert (L5 !! head = L3 !! head) as Hh5.
  { rewrite Hfr5 by done. unfold L4. by apply lookup_alter_ne. }
  assert (is_Some (L5 !! head)) as Hah5.
  { rewrite Hh5. unfold L3. apply is_Some_alter. by rewrite Hh2. }
  assert (is_Some (L5 !! tl)) as Hatl by (eapply nchain_alloc; [exact Hn5 | done]).
  set (L6 := alter (set_prev tl) head L5).
  set (L7 := alter (set_next head) tl L6).
  exists L7, q'. split; [|split; [|split]].
  - unfold q_sort. rewrite (proj2 (Z.eqb_neq head 0)) by done.
    run_with load_next_run. run_with load_prev_run.
    fold l hp. rewrite (proj2 (Z.eqb_neq _ _) Hne).
    run_with store_next_run. fold L L1.
    erewrite bind_run.
    2:{ apply load_next_run. cbn [links with_links]. unfold L1. fields. exact Hhn. }
    fold l. rewrite Hhd.
    erewrite bind_run by exact Hrun2. cbn [hd_or].
    erewrite bind_run by (apply store_next_run; cbn [links with_links]; by rewrite Hh2).
    cbn [links with_links]. fold L3.
    erewrite bind_run.
    2:{ apply store_prev_run. cbn [links with_links]. unfold L3. by apply is_Some_alter. }
    cbn [links with_links]. fold L4.
    change (with_links L4 (with_links L3 (with_links L2 s))) with (with_links L4 s).
    erewrite bind_run by exact Hrun5. fold tl.
    erewrite bind_run by (apply store_prev_run; exact Hah5).
    cbn [links with_links]. fold L6.
    rewrite store_next_run by (cbn [links with_links]; unfold L6; by apply is_Some_alter).
    done.
  - split; [|split].
    + cbn [links with_links]. fold l'. rewrite El'. split; [|split].
      * split.
        -- (* next fields *)
           split.
           ++ cbn [hd_or]. unfold L7, L6. fields.
              unfold nxt. rewrite Hh5. fold (nxt L3 head). unfold L3.
              apply nxt_set_next_eq. by rewrite Hh2.
           ++ destruct (snoc_last x (x :: r) ltac:(done)) as [m' Hm'].
              cbn [last_or] in Hm'. fold tl in Hm'. rewrite Hm'. unfold L7.
              eapply nchain_relast.
              ** rewrite <- Hm'. eapply nchain_ext; [|exact Hn5].
                 intros z Hz. unfold L6. by fields.
              ** rewrite Hm' in Hnd'. apply NoDup_app in Hnd' as (_ & Hd & _).
                 intros Hin. eapply Hd; [exact Hin | by left].
        -- (* prev fields *)
           cbn [last_or]. fold tl. split.
           ++ unfold L7, L6. by fields.
           ++ eapply pchain_ext; [|exact Hp5]. intros z Hz.
              assert (z ≠ head) by (intros ->; done). unfold L7, L6. by fields.
      * by apply NoDup_cons.
      * intros [E|Hin]%elem_of_cons; [by apply Hh0 | by apply H0'].
    + by rewrite Hperm.
    + cbn [values strs with_links]. by rewrite Hperm.
  - done.
  - unfold L7, L6. rewrite !dom_alter_L, Hdom5. unfold L4, L3.
    rewrite !dom_alter_L, Hdom2. unfold L1. by rewrite dom_alter_L.
Qed.

(** ** q_delete_dup *)

Lemma dup_rest_step f head node safe dp s :
  dup_rest (S f) head node safe dp s =
    (if safe =? head then q_delete_dup_step dp node
     else
       let! nv := load_value node in
       let! sv := load_value safe in
       let! c := strcmp nv sv in
       let mask := Z.lor (- Z.b2z (c =? 0)) (Z.b2z (nv =? dp)) in
       let dp' := Z.land (to_size_t sv) (to_size_t mask) in
       do! q_delete_dup_step dp' node in
       let! safe' := load_next safe in
       dup_rest f head safe safe' dp') s.
Proof.
  unfold dup_rest. cbn [q_delete_dup_loop].
  destruct (safe =? head); [reflexivity |].
  unfold bind.
  destruct (load_value node s) as [[nv s1]|]; [|reflexivity].
  destruct (load_value safe s1) as [[sv s2]|]; [|reflexivity].
  destruct (strcmp nv sv s2) as [[c s3]|]; [|reflexivity].
  destruct (q_delete_dup_step _ node s3) as [[[] s4]|]; [|reflexivity].
  destruct (load_next safe s4) as [[safe' s5]|]; reflexivity.
Qed.

Lemma q_delete_dup_unfold fuel head s :
  head ≠ 0 ->
  q_delete_dup fuel head s =
    (let! node := load_next head in
     let! safe := load_next node in
     do! dup_rest fuel head node safe 0 in
     ret true) s.
Proof.
  intros Hh. unfold q_delete_dup, dup_rest.
  rewrite (proj2 (Z.eqb_neq head 0)) by done. unfold bind.
  destruct (load_next head s) as [[node s1]|]; [|reflexivity].
  destruct (load_next node s1) as [[safe s2]|]; [|reflexivity].
  destruct (q_delete_dup_loop fuel head node safe 0 s2) as [[r s3]|]; reflexivity.
Qed.

Lemma to_size_t_id z : 0 <= z < 2 ^ 64 -> to_size_t z = z.
Proof. intros H. unfold to_size_t. by apply Z.mod_small. Qed.

Lemma del_patten_equal sv b :
  0 <= sv < 2 ^ 64 ->
  Z.land (to_size_t sv) (to_size_t (Z.lor (- Z.b2z true) (Z.b2z b))) = sv.
Proof.
  intros Hsv. cbn [Z.b2z]. rewrite Z.lor_m1_l, to_size_t_id by done.
  change (to_size_t (- (1))) with (Z.ones 64).
  rewrite Z.land_ones by lia. by apply Z.mod_small.
Qed.

Lemma del_patten_differ sv b :
  0 <= sv < 2 ^ 64 -> Z.land sv 1 = 0 ->
  Z.land (to_size_t sv) (to_size_t (Z.lor (- Z.b2z false) (Z.b2z b))) = 0.
Proof.
  intros Hsv Hal. cbn [Z.b2z]. rewrite Z.lor_0_l, to_size_t_id by done.
  destruct b; cbn [Z.b2z].
  - by change (to_size_t 1) with 1.
  - change (to_size_t 0) with 0. apply Z.land_0_r.
Qed.

Lemma q_delete_dup_step_null node s : q_delete_dup_step 0 node s = Some (tt, s).
Proof. done. Qed.

Lemma q_delete_dup_step_hit s head q1 c q2 dp k :
  queue s head (q1 ++ c :: q2) -> dp ≠ 0 ->
  strs s !! dp = Some k -> strcmp_str k (c_str c) = 0 ->
  exists s',
    q_delete_dup_step dp (c_node c) s = Some (tt, s') /\
    queue s' head (q1 ++ q2) /\ bytes s' = bytes s /\ oracle s' = oracle s /\
    dom (links s') = dom (links s) ∖ {[c_node c]}.
Proof.
  intros Hq Hdp Hk Hc.
  destruct (queue_middle _ _ _ _ _ Hq) as ((Hv & Hs & _) & _).
  destruct (queue_delete_run _ _ _ _ _ Hq) as (s' & Hrun & Hq' & _ & _ & _ & Hb & Ho & _ & Hdom).
  exists s'. split; [|done].
  unfold q_delete_dup_step. rewrite (proj2 (Z.eqb_neq dp 0)) by done.
  run_with load_value_run.
  erewrite bind_run by (by apply strcmp_run).
  rewrite Hc. exact Hrun.
Qed.

Lemma dup_rest_run head : forall q2 c q1 s dp fuel,
  queue s head (q1 ++ c :: q2) -> dp = 0 \/ dp = c_val c ->
  (length q2 < fuel)%nat ->
  exists s',
    dup_rest fuel head (c_node c) (hd_or head (map c_node q2)) dp s = Some (tt, s') /\
    queue s' head (q1 ++ dup_model (c :: q2) (negb (dp =? 0))) /\
    bytes s' = bytes s /\ oracle s' = oracle s /\
    dom (links s') ⊆ dom (links s).
Proof.
  induction q2 as [|d q2 IH]; intros c q1 s dp fuel Hq Hdp Hf.
  - destruct fuel as [|f]; [cbn [length] in Hf; lia |].
    rewrite dup_rest_step. cbn [map hd_or]. rewrite Z.eqb_refl.
    destruct (queue_middle _ _ _ _ _ Hq) as ((Hv & Hs & [Hr _]) & _).
    destruct Hdp as [-> | ->].
    + exists s. by rewrite q_delete_dup_step_null.
    + destruct (q_delete_dup_step_hit s head q1 c [] (c_val c) (c_str c))
        as (s' & Hrun & Hq' & Hb & Ho & Hdom); [done | lia | done | apply strcmp_refl |].
      exists s'. rewrite (proj2 (Z.eqb_neq (c_val c) 0)) by lia. cbn [negb dup_model].
      split; [done |]. split; [done |]. split; [done |]. split; [done |].
      rewrite Hdom. set_solver.
  - destruct fuel as [|f]; [cbn [length] in Hf; lia |].
    rewrite dup_rest_step. cbn [map hd_or].
    destruct (queue_middle _ _ _ _ _ Hq) as ((Hcv & Hcs & [Hcr _]) & _).
    assert (queue s head ((q1 ++ [c]) ++ d :: q2)) as Hq2 by (by rewrite <- app_assoc).
    destruct (queue_middle _ _ _ _ _ Hq2) as ((Hdv & Hds & [Hdr Hdal]) & Hdh & _).
    rewrite (proj2 (Z.eqb_neq (c_node d) head)) by done.
    run_with load_value_run. run_with load_value_run.
    erewrite bind_run by (by apply strcmp_run). cbv zeta.
    destruct (strcmp_str (c_str c) (c_str d) =? 0) eqn:E.
    + (* the two strings are equal: node is deleted *)
      apply Z.eqb_eq in E. rewrite del_patten_equal by lia.
      destruct (q_delete_dup_step_hit s head q1 c (d :: q2) (c_val d) (c_str d))
        as (s1 & Hrun1 & Hq1 & Hb1 & Ho1 & Hdom1);
        [done | lia | done | rewrite strcmp_antisym; lia |].
      erewrite bind_run by exact Hrun1.
      pose proof Hq1 as (Hd1 & _ & _). rewrite map_app in Hd1. cbn [map] in Hd1.
      destruct (dll_at _ _ _ _ _ Hd1) as [Hn1 _].
      run_with load_next_run.
      destruct (IH d q1 s1 (c_val d) f Hq1 ltac:(by right) ltac:(cbn [length] in Hf; lia))
        as (s' & Hrun & Hq' & Hb & Ho & Hdom).
      exists s'. split; [exact Hrun |].
      rewrite (proj2 (Z.eqb_neq (c_val d) 0)) in Hq' by lia. cbn [negb] in Hq'.
      cbn [dup_model]. rewrite (proj2 (Z.eqb_eq _ _) E).
      split; [exact Hq' |]. split; [congruence |]. split; [congruence |].
      rewrite Hdom1 in Hdom. set_solver.
    + (* they differ: node stays *)
      rewrite del_patten_differ by (done || lia).
      erewrite bind_run by apply q_delete_dup_step_null.
      pose proof Hq2 as (Hd2 & _ & _). rewrite map_app in Hd2. cbn [map] in Hd2.
      destruct (dll_at _ _ _ _ _ Hd2) as [Hn2 _].
      run_with load_next_run.
      destruct (IH d (q1 ++ [c]) s 0 f Hq2 ltac:(by left) ltac:(cbn [length] in Hf; lia))
        as (s' & Hrun & Hq' & Hb & Ho & Hdom).
      exists s'. split; [exact Hrun |].
      cbn [negb Z.eqb] in Hq'. rewrite <- app_assoc in Hq'.
      cbn [dup_model]. rewrite E.
      split; [exact Hq' |]. done.
Qed.

Lemma q_delete_dup_run s head q fuel :
  queue s head q -> (length q <= fuel)%nat -> (0 < fuel)%nat ->
  exists s',
    q_delete_dup fuel head s = Some (true, s') /\
    queue s' head (dup_model q false) /\
    bytes s' = bytes s /\ oracle s' = oracle s /\
    dom (links s') ⊆ dom (links s).
Proof.
  intros Hq Hf Hf0. pose proof Hq as (Hd & _ & _).
  pose proof (dll_nonnull _ _ _ head Hd ltac:(by left)) as Hh0.
  destruct (dll_head _ _ _ Hd) as [Hhn _].
  rewrite q_delete_dup_unfold by done.
  run_with load_next_run.
  erewrite bind_run by (apply load_next_run; by apply (dll_cursor _ head [])).
  destruct q as [|c q2].
  - exists s. cbn [map hd_or]. destruct fuel as [|f]; [lia |].
    unfold bind. rewrite dup_rest_step, Z.eqb_refl, q_delete_dup_step_null. done.
  - cbn [map hd_or].
    destruct (dup_rest_run head q2 c [] s 0 fuel Hq ltac:(by left)
                ltac:(cbn [length] in Hf; lia))
      as (s' & Hrun & Hq' & Hb & Ho & Hdom).
    exists s'. unfold bind. rewrite Hrun. done.
Qed.

Lemma dup_model_cons2 c d q dp :
  dup_model (c :: d :: q) dp =
    if strcmp_str (c_str c) (c_str d) =? 0
    then dup_model (d :: q) true else c :: dup_model (d :: q) false.
Proof. reflexivity. Qed.

Lemma dup_model_sublist q : forall dp, dup_model q dp `sublist_of` q.
Proof.
  induction q as [|c q IH]; intros dp; [done |].
  destruct q as [|d q].
  - cbn [dup_model]. destruct dp; [by apply sublist_nil_l | done].
  - rewrite dup_model_cons2. destruct (_ =? 0).
    + apply sublist_cons. apply IH.
    + apply sublist_skip. apply IH.
Qed.

(** ** Observing a queue, and concrete queues *)

Lemma walk_run L head : forall l1 l2 fuel,
  dll L head (l1 ++ l2) -> (length l2 < fuel)%nat ->
  walk fuel L head (hd_or head l2) = Some l2.
Proof.
  intros l1 l2. revert l1. induction l2 as [|x l2 IH]; intros l1 fuel Hd Hf.
  - destruct fuel as [|f]; [lia |]. cbn [walk hd_or]. by rewrite Z.eqb_refl.
  - destruct fuel as [|f]; [lia |]. cbn [walk hd_or].
    destruct (dll_at _ _ _ _ _ Hd) as [Hn _].
    assert (x ≠ head) as Hx.
    { destruct Hd as (_ & Hnd & _). apply NoDup_cons in Hnd as [Hh _].
      intros ->. apply Hh. apply elem_of_app. right. by left. }
    rewrite (proj2 (Z.eqb_neq x head)) by done. rewrite Hn.
    rewrite (IH (l1 ++ [x])); [done | by rewrite <- app_assoc | cbn [length] in Hf; lia].
Qed.

Lemma queue_contents s head q fuel :
  queue s head q -> (length q < fuel)%nat ->
  contents fuel s head = Some (map (fun c => Some (c_str c)) q).
Proof.
  intros (Hd & _ & Hok) Hf. unfold contents.
  destruct (dll_head _ _ _ Hd) as [-> _].
  rewrite (walk_run _ head [] (map c_node q)); [| done | by rewrite length_map].
  f_equal. rewrite map_map. apply map_ext_Forall.
  eapply Forall_impl; [exact Hok |].
  intros c (Hv & Hs & _). unfold payload. by rewrite Hv.
Qed.

(* a heap holds at most one sequence of strings at a given head *)
Lemma queue_strings_unique s head q q' :
  queue s head q -> queue s head q' -> map c_str q = map c_str q'.
Proof.
  intros H1 H2.
  pose proof (queue_contents s head q (S (length q + length q')) H1 ltac:(lia)) as E1.
  pose proof (queue_contents s head q' (S (length q + length q')) H2 ltac:(lia)) as E2.
  rewrite E1 in E2. injection E2 as E.
  apply (f_equal (map (default EmptyString))) in E.
  rewrite !map_map in E. exact E.
Qed.



(** ** The copy length *)

Lemma to_int32_cong z : exists k, to_int32 z = z + 2 ^ 32 * k.
Proof.
  exists (- ((z + 2 ^ 31) / 2 ^ 32)). unfold to_int32.
  pose proof (Z.div_mod (z + 2 ^ 31) (2 ^ 32)). lia.
Qed.

Lemma int32_of_size_pred b : 0 <= b <= 2 ^ 31 -> to_int32 (to_size_t (b - 1)) = b - 1.
Proof.
  intros Hb. destruct (decide (b = 0)) as [->|Hb0]; [reflexivity |].
  rewrite to_size_t_id by lia. apply to_int32_id. lia.
Qed.

Lemma int32_of_size_succ n : 0 <= n -> n + 1 < 2 ^ 31 -> to_int32 (to_size_t (n + 1)) = n + 1.
Proof. intros H0 Hn. rewrite to_size_t_id by lia. apply to_int32_id. lia. Qed.

Lemma abs_branchless_abs a : - 2 ^ 31 < a < 2 ^ 31 -> abs_branchless a = Z.abs a.
Proof.
  intros H. unfold abs_branchless. destruct (Z.gtb_spec a 0); [lia |].
  rewrite to_int32_id by lia. lia.
Qed.

Lemma c_abs_abs a : - 2 ^ 31 < a < 2 ^ 31 -> c_abs a = Z.abs a.
Proof.
  intros H. unfold c_abs. destruct (Z.ltb_spec a 0); [|lia].
  rewrite to_int32_id by lia. lia.
Qed.

Lemma to_int32_wrap_up z : - 2 ^ 32 <= z < - 2 ^ 31 -> to_int32 z = z + 2 ^ 32.
Proof.
  intros H. unfold to_int32.
  rewrite <- (Z.mod_add (z + 2 ^ 31) 1 (2 ^ 32)) by lia.
  rewrite Z.mod_small by lia. lia.
Qed.


(* the address term abs ((int32_t) sp) - 1 of the two removals *)
Lemma address_term a :
  Z.abs a < 2 ^ 31 ->
  to_int32 (abs_branchless a - 1) = Z.abs a - 1 /\
  to_int32 (c_abs a - 1) = Z.abs a - 1.
Proof.
  intros H. rewrite abs_branchless_abs, c_abs_abs by lia.
  rewrite to_int32_id by lia. done.
Qed.

Lemma address_term_range sp :
  - 1 <= to_int32 (abs_branchless (to_int32 sp) - 1) < 2 ^ 31 /\
  - 1 <= to_int32 (c_abs (to_int32 sp) - 1) < 2 ^ 31.
Proof.
  pose proof (to_int32_range sp) as Hx.
  destruct (decide (to_int32 sp = - 2 ^ 31)) as [->|Hne].
  - split; vm_compute; split; congruence.
  - destruct (address_term (to_int32 sp) ltac:(lia)) as [-> ->]. lia.
Qed.

(* inside the range of int the copy length is the least of bufsize - 1,
   strlen + 1 and the address term *)
Lemma copy_len_in_range bufsize n y :
  0 <= bufsize < 2 ^ 31 -> 0 <= n -> n + 1 < 2 ^ 31 -> - 1 <= y < 2 ^ 31 ->
  copy_len bufsize n y = Some (Z.min (Z.min (bufsize - 1) (n + 1)) y).
Proof.
  intros Hb Hn0 Hn Hy. unfold copy_len.
  rewrite int32_of_size_pred, int32_of_size_succ by lia.
  rewrite min_defined by lia. apply min_defined. lia.
Qed.

Lemma copied_negative s sp v str len : len < 0 -> copied s sp v str len = bytes s.
Proof. intros H. unfold copied. by replace (Z.to_nat (len + 1)) with O by lia. Qed.

(** ** The model of q_swap, position by position *)

Lemma swap_pairs_length {A} (l : list A) : length (swap_pairs l) = length l.
Proof. apply Permutation_length, swap_pairs_perm. Qed.

Lemma swap_pairs_lookup {A} (l : list A) i :
  (2 * i + 1 < length l)%nat ->
  swap_pairs l !! (2 * i)%nat = l !! (2 * i + 1)%nat /\
  swap_pairs l !! (2 * i + 1)%nat = l !! (2 * i)%nat.
Proof.
  revert i. induction l as [|a|a b l IH] using pair_ind; intros i Hi;
    [cbn [length] in Hi; lia | cbn [length] in Hi; lia |].
  destruct i as [|i]; [done |].
  replace (2 * S i)%nat with (S (S (2 * i))) by lia.
  replace (S (S (2 * i)) + 1)%nat with (S (S (2 * i + 1))) by lia.
  cbn [swap_pairs lookup list_lookup]. apply IH. cbn [length] in Hi. lia.
Qed.

Lemma swap_pairs_last_odd {A} (l : list A) i :
  length l = (2 * i + 1)%nat -> swap_pairs l !! (2 * i)%nat = l !! (2 * i)%nat.
Proof.
  revert i. induction l as [|a|a b l IH] using pair_ind; intros i Hi.
  - cbn [length] in Hi. lia.
  - cbn [length] in Hi. by replace i with O by lia.
  - destruct i as [|i]; [cbn [length] in Hi; lia |].
    replace (2 * S i)%nat with (S (S (2 * i))) by lia.
    cbn [swap_pairs lookup list_lookup]. apply IH. cbn [length] in Hi. lia.
Qed.

(** * The specification, statement by statement *)

Lemma writable_at s sp bufsize k :
  writable s sp bufsize -> 0 <= k < bufsize -> is_Some (bytes s !! (sp + k)).
Proof.
  intros Hw Hk. unfold writable in Hw. rewrite Forall_forall in Hw.
  replace k with (Z.of_nat (Z.to_nat k)) by lia. apply Hw.
  apply elem_of_seq. lia.
Qed.







Lemma short_string_of q c : short_strings q -> c ∈ q ->
  Z.of_nat (String.length (c_str c)) + 1 < 2 ^ 31.
Proof. unfold short_strings. rewrite Forall_forall. auto. Qed.

(* the two removals where the copy length is inside the range of int: it is
   the least of bufsize - 1, strlen + 1 and the address term *)
Lemma q_remove_head_len s head c q sp bufsize fuel len :
  queue s head (c :: q) -> 0 <= bufsize < 2 ^ 31 ->
  Z.of_nat (String.length (c_str c)) + 1 < 2 ^ 31 ->
  len = Z.min (Z.min (bufsize - 1) (Z.of_nat (String.length (c_str c)) + 1))
              (to_int32 (abs_branchless (to_int32 sp) - 1)) ->
  (forall k, 0 <= k <= len -> is_Some (bytes s !! (sp + k))) ->
  (Z.to_nat (len + 1) < fuel)%nat ->
  exists s',
    q_remove_head fuel head sp bufsize s = Some (c_node c, s') /\
    queue s' head q /\ cell_ok s' c /\ is_Some (links s' !! c_node c) /\
    bytes s' = copied s sp (c_val c) (c_str c) len /\
    values s' = values s /\ strs s' = strs s /\ oracle s' = oracle s.
Proof.
  intros Hq Hb Hn -> Hw Hf.
  destruct (address_term_range sp) as [Hy _].
  destruct (q_remove_head_run s head c q sp bufsize fuel _ Hq
              (copy_len_in_range bufsize _ _ Hb (Nat2Z.is_nonneg _) Hn Hy) Hw Hf)
    as (s' & R & Q & C & A & B & V & S & O & _).
  by exists s'.
Qed.

Lemma q_remove_tail_len s head c q sp bufsize fuel len :
  queue s head (q ++ [c]) -> 0 <= bufsize < 2 ^ 31 ->
  Z.of_nat (String.length (c_str c)) + 1 < 2 ^ 31 ->
  len = Z.min (Z.min (bufsize - 1) (Z.of_nat (String.length (c_str c)) + 1))
              (to_int32 (c_abs (to_int32 sp) - 1)) ->
  (forall k, 0 <= k <= len -> is_Some (bytes s !! (sp + k))) ->
  (Z.to_nat (len + 1) < fuel)%nat ->
  exists s',
    q_remove_tail fuel head sp bufsize s = Some (c_node c, s') /\
    queue s' head q /\ cell_ok s' c /\ is_Some (links s' !! c_node c) /\
    bytes s' = copied s sp (c_val c) (c_str c) len /\
    values s' = values s /\ strs s' = strs s /\ oracle s' = oracle s.
Proof.
  intros Hq Hb Hn -> Hw Hf.
  destruct (address_term_range sp) as [_ Hy].
  destruct (q_remove_tail_run s head c q sp bufsize fuel _ Hq
              (copy_len_in_range bufsize _ _ Hb (Nat2Z.is_nonneg _) Hn Hy) Hw Hf)
    as (s' & R & Q & C & A & B & V & S & O & _).
  by exists s'.
Qed.




Open Scope string_scope.
Open Scope list_scope.
Open Scope Z_scope.

(** C8: applying q_reverse twice restores the original order of the
    elements; one q_reverse yields the reversed order, with the same nodes
    allocated and every payload as it was. *)
Theorem q_reverse_involutive s head q fuel :
  queue s head q -> (length q < fuel)%nat ->
  exists s1 s2,
    q_reverse fuel head s = Some (tt, s1) /\ queue s1 head (rev q) /\
    values s1 = values s /\ strs s1 = strs s /\ dom (links s1) = dom (links s) /\
    q_reverse fuel head s1 = Some (tt, s2) /\ queue s2 head q.
Proof.
  intros Hq Hf.
  destruct (q_reverse_run s head q fuel Hq Hf) as (L1 & Hrun1 & Hq1 & Hdom1).
  destruct (q_reverse_run _ head (rev q) fuel Hq1) as (L2 & Hrun2 & Hq2 & _).
  { by rewrite length_rev. }
  rewrite rev_involutive in Hq2.
  exists (with_links L1 s), (with_links L2 (with_links L1 s)).
  split; [done |]. split; [done |]. split; [done |]. split; [done |].
  split; [done |]. split; [exact Hrun2 | exact Hq2].
Qed.

Lemma q_reverse_involutive_witness :
  exists s1 s2,
    q_reverse 4 16 (sample ["a"; "b"; "c"]) = Some (tt, s1) /\
    queue s1 16 (rev (cells_from ["a"; "b"; "c"])) /\
    values s1 = values (sample ["a"; "b"; "c"]) /\
    strs s1 = strs (sample ["a"; "b"; "c"]) /\
    dom (links s1) = dom (links (sample ["a"; "b"; "c"])) /\
    q_reverse 4 16 s1 = Some (tt, s2) /\ queue s2 16 (cells_from ["a"; "b"; "c"]).
Proof.
  apply (q_reverse_involutive (sample ["a"; "b"; "c"]) 16 (cells_from ["a"; "b"; "c"]) 4).
  - compute_done.
  - cbn. lia.
Defined.

(** C9: on a non-null queue q_swap exchanges the 1st and 2nd elements, the
    3rd and 4th, and so on, allocating and freeing nothing; with an odd count
    the last element stays where it is; a,b,c,d,e becomes b,a,d,c,e. *)
Theorem q_swap_pairs s head q fuel :
  queue s head q -> (length q < fuel)%nat ->
  exists s',
    q_swap fuel head s = Some (tt, s') /\ queue s' head (swap_pairs q) /\
    values s' = values s /\ strs s' = strs s /\ dom (links s') = dom (links s) /\
    (forall i, (2 * i + 1 < length q)%nat ->
       swap_pairs q !! (2 * i)%nat = q !! (2 * i + 1)%nat /\
       swap_pairs q !! (2 * i + 1)%nat = q !! (2 * i)%nat) /\
    (forall i, length q = (2 * i + 1)%nat ->
       swap_pairs q !! (2 * i)%nat = q !! (2 * i)%nat) /\
    (map c_str q = ["a"; "b"; "c"; "d"; "e"] ->
       map c_str (swap_pairs q) = ["b"; "a"; "d"; "c"; "e"]).
Proof.
  intros Hq Hf.
  destruct (q_swap_run s head q fuel Hq Hf) as (L' & Hrun & Hq' & Hdom).
  exists (with_links L' s).
  split; [done |]. split; [done |]. split; [done |]. split; [done |].
  split; [done |]. split; [apply swap_pairs_lookup |].
  split; [apply swap_pairs_last_odd |].
  intros E. by rewrite swap_pairs_map, E.
Qed.

Lemma q_swap_pairs_witness :
  exists s',
    q_swap 6 16 (sample ["a"; "b"; "c"; "d"; "e"]) = Some (tt, s') /\
    contents 6 s' 16 = Some [Some "b"; Some "a"; Some "d"; Some "c"; Some "e"].
Proof.
  destruct (q_swap_pairs (sample ["a"; "b"; "c"; "d"; "e"]) 16
              (cells_from ["a"; "b"; "c"; "d"; "e"]) 6)
    as (s' & Hrun & Hq & _); [compute_done | cbn; lia |].
  exists s'. split; [exact Hrun |].
  rewrite (queue_contents _ _ _ _ Hq); [reflexivity | cbn; lia].
Defined.

(** C4: on a queue of n >= 1 elements q_delete_mid removes and frees exactly
    the element at index n / 2 (rounded down), keeps the others in their order
    and returns true; on a null or an empty queue it returns false and changes
    nothing. *)
Theorem q_delete_mid_spec s head q fuel :
  queue s head q -> (length q < fuel)%nat ->
  q_delete_mid fuel 0 s = Some (false, s) /\
  match q with
  | [] => q_delete_mid fuel head s = Some (false, s)
  | _ :: _ =>
      exists s' q1 c q2,
        q = q1 ++ c :: q2 /\ length q1 = (length q / 2)%nat /\
        q_delete_mid fuel head s = Some (true, s') /\
        queue s' head (q1 ++ q2) /\
        links s' !! c_node c = None /\ values s' !! c_node c = None /\
        strs s' !! c_val c = None
  end.
Proof.
  intros Hq Hf. split; [done |]. destruct q as [|c0 q0].
  - by apply q_delete_mid_none.
  - destruct (q_delete_mid_run s head (c0 :: q0) fuel Hq ltac:(done) Hf)
      as (s' & q1 & c & q2 & E & Hlen & Hrun & Hq' & Hl & Hv & Hs & _).
    by exists s', q1, c, q2.
Qed.

Lemma q_delete_mid_spec_witness :
  q_delete_mid 6 0 (sample ["a"; "b"; "c"; "d"; "e"]) =
    Some (false, sample ["a"; "b"; "c"; "d"; "e"]) /\
  exists s' q1 c q2,
    cells_from ["a"; "b"; "c"; "d"; "e"] = q1 ++ c :: q2 /\
    length q1 = (length (cells_from ["a"; "b"; "c"; "d"; "e"]) / 2)%nat /\
    q_delete_mid 6 16 (sample ["a"; "b"; "c"; "d"; "e"]) = Some (true, s') /\
    queue s' 16 (q1 ++ q2) /\
    links s' !! c_node c = None /\ values s' !! c_node c = None /\
    strs s' !! c_val c = None.
Proof.
  apply (q_delete_mid_spec (sample ["a"; "b"; "c"; "d"; "e"]) 16
           (cells_from ["a"; "b"; "c"; "d"; "e"]) 6).
  - compute_done.
  - cbn. lia.
Defined.

(** C3 (as amended): q_delete_mid on the six elements a,b,c,d,e,f removes and
    frees the element d, at index 3, and leaves a,b,c,e,f. *)
Theorem q_delete_mid_six s head q fuel :
  queue s head q -> map c_str q = ["a"; "b"; "c"; "d"; "e"; "f"] ->
  (6 < fuel)%nat ->
  exists s' q' c,
    q_delete_mid fuel head s = Some (true, s') /\ queue s' head q' /\
    map c_str q' = ["a"; "b"; "c"; "e"; "f"] /\
    q !! 3%nat = Some c /\ c_str c = "d" /\
    links s' !! c_node c = None /\ values s' !! c_node c = None /\
    strs s' !! c_val c = None.
Proof.
  intros Hq Hstr Hf.
  destruct q as [|c1 [|c2 [|c3 [|c4 [|c5 [|c6 [|c7 q]]]]]]]; try discriminate.
  destruct (q_delete_mid_run s head _ fuel Hq ltac:(done) ltac:(cbn [length]; lia))
    as (s' & q1 & c & q2 & E & Hlen & Hrun & Hq' & Hl & Hv & Hs & _).
  change (length q1 = 3%nat) in Hlen.
  destruct q1 as [|d1 [|d2 [|d3 [|d4 q1]]]]; try discriminate.
  cbn [app] in E. injection E as <- <- <- <- <-.
  cbn [map] in Hstr. injection Hstr as E1 E2 E3 E4 E5 E6.
  exists s', ([c1; c2; c3] ++ [c5; c6]), c4.
  split; [done |]. split; [done |]. split; [cbn; congruence |]. done.
Qed.

Lemma q_delete_mid_six_witness :
  exists s' q' c,
    q_delete_mid 7 16 (sample ["a"; "b"; "c"; "d"; "e"; "f"]) = Some (true, s') /\
    queue s' 16 q' /\ map c_str q' = ["a"; "b"; "c"; "e"; "f"] /\
    cells_from ["a"; "b"; "c"; "d"; "e"; "f"] !! 3%nat = Some c /\ c_str c = "d" /\
    links s' !! c_node c = None /\ values s' !! c_node c = None /\
    strs s' !! c_val c = None.
Proof.
  apply (q_delete_mid_six (sample ["a"; "b"; "c"; "d"; "e"; "f"]) 16
           (cells_from ["a"; "b"; "c"; "d"; "e"; "f"]) 7).
  - compute_done.
  - reflexivity.
  - lia.
Defined.

(** C3 (as stated) fails: after q_delete_mid on a,b,c,d,e,f the queue does
    not hold a,b,d,e,f. *)
Lemma q_delete_mid_six_keeps_c :
  ~ exists s' q',
      q_delete_mid 7 16 (sample ["a"; "b"; "c"; "d"; "e"; "f"]) = Some (true, s') /\
      queue s' 16 q' /\ map c_str q' = ["a"; "b"; "d"; "e"; "f"].
Proof.
  intros (s' & q' & Hrun & Hq & Hstr).
  assert (length q' = 5%nat) as Hlen.
  { apply (f_equal (@length string)) in Hstr. by rewrite length_map in Hstr. }
  pose proof (queue_contents s' 16 q' 7 Hq ltac:(lia)) as Hc.
  vm_compute in Hrun. injection Hrun as <-.
  apply (f_equal (map Some)) in Hstr. rewrite map_map in Hstr.
  rewrite Hstr in Hc. vm_compute in Hc. discriminate Hc.
Qed.

(** C5: q_sort puts the elements in ascending order of their strings as
    strcmp compares them, keeping elements with equal strings in the order
    they had; a null, an empty and a one-element queue are left as they are. *)
Theorem q_sort_stable s head q fuel :
  queue s head q -> (length q < fuel)%nat ->
  q_sort fuel 0 s = Some (tt, s) /\
  exists s' q',
    q_sort fuel head s = Some (tt, s') /\ queue s' head q' /\
    stable_sort_of q q' /\
    values s' = values s /\ strs s' = strs s /\ dom (links s') = dom (links s) /\
    ((length q <= 1)%nat -> s' = s).
Proof.
  intros Hq Hf. split; [done |].
  destruct (decide (length q <= 1)%nat) as [Hshort|Hlong].
  - exists s, q. split; [by apply (q_sort_short s head q) |]. split; [done |].
    split; [by apply stable_sort_short |]. done.
  - destruct (q_sort_long s head q fuel Hq ltac:(lia) Hf)
      as (L' & q' & Hrun & Hq' & Hst & Hdom).
    exists (with_links L' s), q'.
    split; [done |]. split; [done |]. split; [done |]. split; [done |].
    split; [done |]. split; [done |]. lia.
Qed.

Lemma q_sort_stable_witness :
  q_sort 7 0 (sample ["d"; "b"; "a"; "d"; "c"; "a"]) =
    Some (tt, sample ["d"; "b"; "a"; "d"; "c"; "a"]) /\
  exists s' q',
    q_sort 7 16 (sample ["d"; "b"; "a"; "d"; "c"; "a"]) = Some (tt, s') /\
    queue s' 16 q' /\
    stable_sort_of (cells_from ["d"; "b"; "a"; "d"; "c"; "a"]) q' /\
    values s' = values (sample ["d"; "b"; "a"; "d"; "c"; "a"]) /\
    strs s' = strs (sample ["d"; "b"; "a"; "d"; "c"; "a"]) /\
    dom (links s') = dom (links (sample ["d"; "b"; "a"; "d"; "c"; "a"])) /\
    ((length (cells_from ["d"; "b"; "a"; "d"; "c"; "a"]) <= 1)%nat ->
     s' = sample ["d"; "b"; "a"; "d"; "c"; "a"]).
Proof.
  apply (q_sort_stable (sample ["d"; "b"; "a"; "d"; "c"; "a"]) 16
           (cells_from ["d"; "b"; "a"; "d"; "c"; "a"]) 7).
  - compute_done.
  - cbn. lia.
Defined.

(** C7: q_insert_head and q_insert_tail return false on a null queue and
    when the allocation of the element (a = 0) or the copy of the string
    (b = 0) fails; a failed call leaves the heap as it was, the element
    allocated before a failed strdup being freed again; a successful call
    adds one element, which owns a fresh copy of the string, at the head or
    at the tail. *)
Theorem q_insert_spec s head q p str :
  queue s head q -> strs s !! p = Some str -> alloc_ok s ->
  let a := hd_or 0 (oracle s) in
  let b := hd_or 0 (tail (oracle s)) in
  q_insert_head 0 p s = Some (false, s) /\
  q_insert_tail 0 p s = Some (false, s) /\
  if a =? 0 then
    q_insert_head head p s = Some (false, with_oracle (tail (oracle s)) s) /\
    q_insert_tail head p s = Some (false, with_oracle (tail (oracle s)) s)
  else if b =? 0 then
    q_insert_head head p s = Some (false, with_oracle (tail (tail (oracle s))) s) /\
    q_insert_tail head p s = Some (false, with_oracle (tail (tail (oracle s))) s)
  else
    strs s !! b = None /\
    exists s1 s2,
      q_insert_head head p s = Some (true, s1) /\
      queue s1 head (Cell a b str :: q) /\
      q_insert_tail head p s = Some (true, s2) /\
      queue s2 head (q ++ [Cell a b str]).
Proof.
  intros Hq Hp [Hfa Hfb] a b. fold a b in Hfa, Hfb.
  pose proof Hq as (Hd & _ & _).
  pose proof (dll_nonnull _ _ _ head Hd ltac:(by left)) as Hh0.
  split; [done |]. split; [done |].
  destruct (Z.eqb_spec a 0) as [Ha|Ha].
  - split; by apply insert_with_no_node.
  - destruct (Z.eqb_spec b 0) as [Hb|Hb].
    + split; by apply (insert_with_no_string _ head p str); auto.
    + destruct (Hfb Ha Hb) as [Hnone Hok]. split; [done |].
      destruct (q_insert_head_ok s head q p str Hq Hp Ha Hb (Hfa Ha) (Hfb Ha Hb))
        as (s1 & R1 & Q1 & _).
      destruct (q_insert_tail_ok s head q p str Hq Hp Ha Hb (Hfa Ha) (Hfb Ha Hb))
        as (s2 & R2 & Q2 & _).
      by exists s1, s2.
Qed.

Lemma q_insert_spec_witness :
  let s := abc_state in
  let q := cells_from ["b"; "a"; "a"] in
  let a := hd_or 0 (oracle s) in
  let b := hd_or 0 (tail (oracle s)) in
  q_insert_head 0 8000 s = Some (false, s) /\
  q_insert_tail 0 8000 s = Some (false, s) /\
  if a =? 0 then
    q_insert_head 16 8000 s = Some (false, with_oracle (tail (oracle s)) s) /\
    q_insert_tail 16 8000 s = Some (false, with_oracle (tail (oracle s)) s)
  else if b =? 0 then
    q_insert_head 16 8000 s = Some (false, with_oracle (tail (tail (oracle s))) s) /\
    q_insert_tail 16 8000 s = Some (false, with_oracle (tail (tail (oracle s))) s)
  else
    strs s !! b = None /\
    exists s1 s2,
      q_insert_head 16 8000 s = Some (true, s1) /\
      queue s1 16 (Cell a b "x" :: q) /\
      q_insert_tail 16 8000 s = Some (true, s2) /\
      queue s2 16 (q ++ [Cell a b "x"]).
Proof.
  apply (q_insert_spec abc_state 16 (cells_from ["b"; "a"; "a"]) 8000 "x").
  - compute_done.
  - reflexivity.
  - compute_done.
Defined.




(** C2: on the sorted queue a,a,b,c,c q_delete_dup returns true and leaves
    a,b, not b alone: the second a, the last element of its run of equal
    strings, stays in the queue. *)
Theorem q_delete_dup_keeps_last_of_run s head q fuel :
  queue s head q -> map c_str q = ["a"; "a"; "b"; "c"; "c"] ->
  (5 <= fuel)%nat ->
  exists s' c1 c2 c3 c4 c5,
    q = [c1; c2; c3; c4; c5] /\
    q_delete_dup fuel head s = Some (true, s') /\
    queue s' head [c2; c3] /\ map c_str [c2; c3] = ["a"; "b"].
Proof.
  intros Hq Hstr Hf.
  destruct q as [|c1 [|c2 [|c3 [|c4 [|c5 [|c6 q]]]]]]; try discriminate.
  destruct (q_delete_dup_run s head _ fuel Hq ltac:(cbn [length]; lia) ltac:(lia))
    as (s' & Hrun & Hq' & _).
  cbn [map] in Hstr. injection Hstr as E1 E2 E3 E4 E5.
  exists s', c1, c2, c3, c4, c5. split; [done |]. split; [done |].
  cbn [dup_model] in Hq'. rewrite E1, E2, E3, E4, E5 in Hq'.
  split; [exact Hq' |]. cbn [map]. by rewrite E2, E3.
Qed.

Lemma q_delete_dup_keeps_last_of_run_witness :
  exists s' c1 c2 c3 c4 c5,
    cells_from ["a"; "a"; "b"; "c"; "c"] = [c1; c2; c3; c4; c5] /\
    q_delete_dup 5 16 (sample ["a"; "a"; "b"; "c"; "c"]) = Some (true, s') /\
    queue s' 16 [c2; c3] /\ map c_str [c2; c3] = ["a"; "b"].
Proof.
  apply (q_delete_dup_keeps_last_of_run (sample ["a"; "a"; "b"; "c"; "c"]) 16
           (cells_from ["a"; "a"; "b"; "c"; "c"]) 5).
  - compute_done.
  - reflexivity.
  - lia.
Defined.

(** C1: the copy depends on the address of the buffer. With the string
    hello, bufsize 10 and a buffer at 0x100000002, q_remove_head and
    q_remove_tail return the element and store the byte h at index 0 and a
    zero at index 1; the indices 2 to 5, where e, l, l, o and the terminator
    were due, keep the 255 they held. *)
Theorem q_remove_copy_depends_on_address :
  queue hello_state 16 [Cell 32 48 "hello"] /\
  writable hello_state low_sp 10 /\
  exists s1 s2,
    q_remove_head 8 16 low_sp 10 hello_state = Some (32, s1) /\
    map (fun k => bytes s1 !! (low_sp + k)) [0; 1; 2; 3; 4; 5] =
      [Some 104; Some 0; Some 255; Some 255; Some 255; Some 255] /\
    q_remove_tail 8 16 low_sp 10 hello_state = Some (32, s2) /\
    map (fun k => bytes s2 !! (low_sp + k)) [0; 1; 2; 3; 4; 5] =
      [Some 104; Some 0; Some 255; Some 255; Some 255; Some 255].
Proof.
  split; [compute_done |]. split; [compute_done |].
  destruct (q_remove_head 8 16 low_sp 10 hello_state) as [[r1 s1]|] eqn:E1;
    [|vm_compute in E1; discriminate].
  destruct (q_remove_tail 8 16 low_sp 10 hello_state) as [[r2 s2]|] eqn:E2;
    [|vm_compute in E2; discriminate].
  exists s1, s2.
  assert (r1 = 32 /\ map (fun k => bytes s1 !! (low_sp + k)) [0; 1; 2; 3; 4; 5] =
      [Some 104; Some 0; Some 255; Some 255; Some 255; Some 255]) as [-> B1].
  { vm_compute in E1. injection E1 as <- <-. split; vm_compute; reflexivity. }
  assert (r2 = 32 /\ map (fun k => bytes s2 !! (low_sp + k)) [0; 1; 2; 3; 4; 5] =
      [Some 104; Some 0; Some 255; Some 255; Some 255; Some 255]) as [-> B2].
  { vm_compute in E2. injection E2 as <- <-. split; vm_compute; reflexivity. }
  split; [reflexivity |]. split; [exact B1 |]. split; [reflexivity | exact B2].
Qed.




(** * Further properties *)

(** ** q_size *)

Lemma q_size_loop_run s head : forall l1 l2 fuel len,
  dll (links s) head (l1 ++ l2) -> (length l2 < fuel)%nat ->
  0 <= len -> len + Z.of_nat (length l2) < 2 ^ 64 ->
  q_size_loop fuel head (hd_or head l2) len s = Some (len + Z.of_nat (length l2), s).
Proof.
  intros l1 l2. revert l1. induction l2 as [|x l2 IH]; intros l1 fuel len Hd Hf H0 Hlen.
  - destruct fuel as [|f]; [lia |]. cbn [q_size_loop hd_or length].
    rewrite Z.eqb_refl. unfold ret. do 2 f_equal. lia.
  - destruct fuel as [|f]; [lia |]. cbn [q_size_loop hd_or].
    destruct (dll_at _ _ _ _ _ Hd) as [Hn _].
    assert (x ≠ head) as Hx.
    { destruct Hd as (_ & Hnd & _). apply NoDup_cons in Hnd as [Hh _].
      intros ->. apply Hh. apply elem_of_app. right. by left. }
    rewrite (proj2 (Z.eqb_neq x head)) by done.
    cbn [length] in Hf, Hlen. erewrite bind_run by (apply load_next_run; exact Hn).
    rewrite to_size_t_id by lia.
    rewrite (IH (l1 ++ [x])); [| by rewrite <- app_assoc | lia | lia | lia].
    do 2 f_equal. cbn [length]. lia.
Qed.

Lemma q_size_run s head q fuel :
  queue s head q -> (length q < fuel)%nat -> Z.of_nat (length q) < 2 ^ 31 ->
  q_size fuel head s = Some (Z.of_nat (length q), s).
Proof.
  intros (Hd & _ & _) Hf Hlen.
  pose proof (dll_nonnull _ _ _ head Hd ltac:(by left)) as Hh0.
  unfold q_size. rewrite (proj2 (Z.eqb_neq head 0)) by done.
  erewrite bind_run by (apply list_empty_run; exact Hd).
  destruct q as [|c q]; [done |]. cbn [map].
  destruct (dll_head _ _ _ Hd) as [Hn _].
  erewrite bind_run by (apply load_next_run; exact Hn).
  rewrite <- (length_map c_node) in Hf, Hlen |- *.
  erewrite bind_run;
    [| apply (q_size_loop_run s head [] (map c_node (c :: q)));
       [exact Hd | exact Hf | lia | lia]].
  unfold ret. do 2 f_equal. apply to_int32_id. lia.
Qed.

(** X1: on a well-formed queue of fewer than 2^31 elements q_size returns the
    number of elements and changes nothing; on a null queue it returns 0. *)
Theorem q_size_counts s head q fuel :
  queue s head q -> (length q < fuel)%nat -> Z.of_nat (length q) < 2 ^ 31 ->
  q_size fuel head s = Some (Z.of_nat (length q), s) /\
  q_size fuel 0 s = Some (0, s).
Proof. intros Hq Hf Hlen. split; [by apply q_size_run | done]. Qed.

Lemma q_size_counts_witness :
  q_size 4 16 (sample ["a"; "b"; "c"]) = Some (3, sample ["a"; "b"; "c"]) /\
  q_size 4 0 (sample ["a"; "b"; "c"]) = Some (0, sample ["a"; "b"; "c"]).
Proof.
  apply (q_size_counts (sample ["a"; "b"; "c"]) 16 (cells_from ["a"; "b"; "c"]) 4).
  - compute_done.
  - cbn. lia.
  - cbn. lia.
Defined.

(** ** q_new *)

Lemma malloc_list_head_run s :
  malloc_list_head s =
    Some (if hd_or 0 (oracle s) =? 0
          then (0, with_oracle (tail (oracle s)) s)
          else (hd_or 0 (oracle s),
                with_links (<[hd_or 0 (oracle s) := Link 0 0]> (links s))
                  (with_oracle (tail (oracle s)) s))).
Proof.
  unfold malloc_list_head. erewrite bind_run by apply next_alloc_run.
  destruct (hd_or 0 (oracle s) =? 0); done.
Qed.

Lemma q_new_run s :
  q_new s =
    Some (hd_or 0 (oracle s),
          if hd_or 0 (oracle s) =? 0 then with_oracle (tail (oracle s)) s
          else with_links (<[hd_or 0 (oracle s) := Link (hd_or 0 (oracle s))
                                                        (hd_or 0 (oracle s))]> (links s))
                 (with_oracle (tail (oracle s)) s)).
Proof.
  unfold q_new. unfold bind at 1. rewrite malloc_list_head_run.
  destruct (hd_or 0 (oracle s) =? 0) eqn:E.
  - apply Z.eqb_eq in E. by rewrite E.
  - rewrite E.
    unfold INIT_LIST_HEAD, bind, store_next, store_prev, ret.
    cbn [links with_links with_oracle]. rewrite lookup_insert_eq.
    cbn [links with_links]. rewrite lookup_alter_eq, lookup_insert_eq.
    cbn [fmap option_fmap option_map].
    unfold with_links. cbn [links values strs bytes stray oracle].
    rewrite !alter_insert_eq. done.
Qed.

Lemma q_new_ok s a :
  hd_or 0 (oracle s) = a -> a ≠ 0 -> links s !! a = None ->
  exists s',
    q_new s = Some (a, s') /\ queue s' a [] /\
    links s' = <[a := Link a a]> (links s) /\
    values s' = values s /\ strs s' = strs s /\ bytes s' = bytes s.
Proof.
  intros Ha H0 Hfresh. rewrite q_new_run, Ha.
  rewrite (proj2 (Z.eqb_neq a 0)) by done.
  eexists. split; [reflexivity |]. split; [|done].
  split; [|split; [apply NoDup_nil_2 | apply Forall_nil_2]].
  cbn [links with_links map]. split; [|split].
  - split; cbn [nchain pchain hd_or last_or]; (split; [|done]); unfold nxt, prv;
      by rewrite lookup_insert_eq.
  - apply NoDup_singleton.
  - intros Hin. apply list_elem_of_singleton in Hin. congruence.
Qed.

(** X2: when the allocator has a block a that is not in use, q_new returns a
    and the heap holds an empty well-formed queue at a, whose next and prev
    both point to a itself; elements, strings and buffers are untouched. *)
Theorem q_new_empty_queue s a :
  hd_or 0 (oracle s) = a -> a ≠ 0 -> links s !! a = None ->
  exists s',
    q_new s = Some (a, s') /\ queue s' a [] /\
    links s' = <[a := Link a a]> (links s) /\
    values s' = values s /\ strs s' = strs s /\ bytes s' = bytes s.
Proof. apply q_new_ok. Qed.

Lemma q_new_empty_queue_witness :
  exists s',
    q_new abc_state = Some (320, s') /\ queue s' 320 [] /\
    links s' = <[320 := Link 320 320]> (links abc_state) /\
    values s' = values abc_state /\ strs s' = strs abc_state /\
    bytes s' = bytes abc_state.
Proof.
  apply (q_new_empty_queue abc_state 320).
  - reflexivity.
  - lia.
  - reflexivity.
Defined.

(** X3: when the allocation fails q_new returns NULL and no link, element,
    string or buffer of the heap has changed. *)
Theorem q_new_null_on_failure s :
  hd_or 0 (oracle s) = 0 ->
  exists s',
    q_new s = Some (0, s') /\ links s' = links s /\ values s' = values s /\
    strs s' = strs s /\ bytes s' = bytes s.
Proof. intros Ha. rewrite q_new_run, Ha. eexists. split; [reflexivity | done]. Qed.

Lemma q_new_null_on_failure_witness :
  exists s',
    q_new (sample ["a"]) = Some (0, s') /\ links s' = links (sample ["a"]) /\
    values s' = values (sample ["a"]) /\ strs s' = strs (sample ["a"]) /\
    bytes s' = bytes (sample ["a"]).
Proof. apply (q_new_null_on_failure (sample ["a"])). reflexivity. Defined.

(** ** q_free *)

(* list_del followed by q_release_element, on the first element *)
Lemma queue_delete_first s head c q :
  queue s head (c :: q) ->
  exists s',
    (do! list_del (c_node c) in q_release_element (c_node c)) s = Some (tt, s') /\
    queue s' head q /\
    dom (links s') = dom (links s) ∖ {[c_node c]} /\
    values s' = delete (c_node c) (values s) /\
    strs s' = delete (c_val c) (strs s) /\
    (forall x, x ∉ head :: map c_node (c :: q) -> links s' !! x = links s !! x) /\
    bytes s' = bytes s /\ oracle s' = oracle s.
Proof.
  intros Hq. destruct (queue_middle s head [] c q Hq) as (Hok & Hh & H0 & Hn & Hv & Ha).
  pose proof Hq as (Hd & _ & _). cbn [map] in Hd.
  destruct (dll_at _ head [] _ _ Hd) as [Hxn Hxp].
  pose proof (dll_unlink _ head [] _ _ Hd) as Hd1.
  cbn [last_or app] in Hxp, Hd1.
  set (nx := hd_or head (map c_node q)) in *.
  assert (nx ∈ head :: map c_node q) as Hnx by apply hd_or_in.
  assert (is_Some (links s !! nx)) as Hanx.
  { eapply dll_alloc; [exact Hd |]. cbn [map]. set_solver. }
  assert (is_Some (links s !! head)) as Hah.
  { eapply dll_alloc; [exact Hd |]. by left. }
  exists (released c (with_links (unlink nx head (links s)) s)).
  split; [|split].
  - erewrite bind_run by (by apply list_del_run).
    apply q_release_element_run; [done | | done]. simpl. by apply unlink_alloc.
  - by apply (queue_released s head [] c q).
  - cbn [released links values strs bytes oracle with_links].
    split; [unfold unlink; by rewrite dom_delete_L, !dom_alter_L |].
    split; [done |]. split; [done |]. split; [|done].
    intros x Hx. cbn [map] in Hx.
    rewrite lookup_delete_ne by set_solver. unfold unlink.
    rewrite !lookup_alter_ne; [done | set_solver | set_solver].
Qed.

Lemma q_free_loop_run head : forall q s safe fuel,
  queue s head q -> nxt (links s) (hd_or head (map c_node q)) = Some safe ->
  (length q < fuel)%nat ->
  exists s',
    q_free_loop fuel head (hd_or head (map c_node q)) safe s = Some (tt, s') /\
    queue s' head [] /\
    dom (links s') = dom (links s) ∖ list_to_set (map c_node q) /\
    dom (values s') = dom (values s) ∖ list_to_set (map c_node q) /\
    dom (strs s') = dom (strs s) ∖ list_to_set (map c_val q) /\
    values s' ⊆ values s /\ strs s' ⊆ strs s /\
    (forall x, x ∉ head :: map c_node q -> links s' !! x = links s !! x) /\
    bytes s' = bytes s /\ oracle s' = oracle s.
Proof.
  induction q as [|c q IH]; intros s safe fuel Hq Hsafe Hf.
  - destruct fuel as [|f]; [cbn in Hf; lia |].
    cbn [q_free_loop map hd_or]. rewrite Z.eqb_refl. exists s.
    cbn [map list_to_set]. split; [done |]. split; [done |].
    split; [set_solver |]. split; [set_solver |]. split; [set_solver |]. done.
  - destruct fuel as [|f]; [cbn in Hf; lia |]. cbn [length] in Hf.
    destruct (queue_middle s head [] c q Hq) as (_ & Hh & _).
    pose proof Hq as (Hd & _ & _). cbn [map] in Hd.
    destruct (dll_at _ head [] _ _ Hd) as [Hxn _].
    cbn [map hd_or] in Hsafe |- *. rewrite Hxn in Hsafe. injection Hsafe as <-.
    destruct (queue_delete_first s head c q Hq)
      as (s1 & R1 & Q1 & DL1 & V1 & S1 & F1 & B1 & O1).
    pose proof Q1 as (Hd1 & _ & _).
    pose proof (dll_cursor _ head [] _ Hd1) as Hnx1.
    cbn [q_free_loop]. rewrite (proj2 (Z.eqb_neq (c_node c) head)) by done.
    unfold bind in R1.
    destruct (list_del (c_node c) s) as [[[] sd]|] eqn:Ed; [|discriminate].
    erewrite bind_run by exact Ed. erewrite bind_run by exact R1.
    erewrite bind_run by (apply load_next_run; exact Hnx1).
    destruct (IH s1 _ f Q1 Hnx1 ltac:(lia))
      as (s' & R & Q & DL & DV & DS & SV & SS & F & B & O).
    clear IH. exists s'. split; [exact R |]. split; [exact Q |].
    cbn [map list_to_set].
    split; [rewrite DL, DL1; set_solver |].
    split; [rewrite DV, V1, dom_delete_L; set_solver |].
    split; [rewrite DS, S1, dom_delete_L; set_solver |].
    split; [etrans; [exact SV |]; rewrite V1; apply delete_subseteq |].
    split; [etrans; [exact SS |]; rewrite S1; apply delete_subseteq |].
    split; [|split; congruence].
    intros x Hx. rewrite F by set_solver. by apply F1.
Qed.

Lemma q_free_run s head q fuel :
  queue s head q -> (length q < fuel)%nat ->
  exists s',
    q_free fuel head s = Some (tt, s') /\
    dom (links s') = dom (links s) ∖ list_to_set (head :: map c_node q) /\
    dom (values s') = dom (values s) ∖ list_to_set (map c_node q) /\
    dom (strs s') = dom (strs s) ∖ list_to_set (map c_val q) /\
    values s' ⊆ values s /\ strs s' ⊆ strs s /\
    (forall x, x ∉ head :: map c_node q -> links s' !! x = links s !! x) /\
    bytes s' = bytes s /\ oracle s' = oracle s.
Proof.
  intros Hq Hf. pose proof Hq as (Hd & _ & _).
  pose proof (dll_nonnull _ _ _ head Hd ltac:(by left)) as Hh0.
  destruct (dll_head _ _ _ Hd) as [Hn _].
  pose proof (dll_cursor _ head [] _ Hd) as Hnn.
  destruct (q_free_loop_run head q s _ fuel Hq Hnn Hf)
    as (s1 & R & Q & DL & DV & DS & SV & SS & F & B & O).
  pose proof Q as (Hd1 & _ & _).
  destruct (dll_alloc _ _ _ head Hd1 ltac:(by left)) as [r Hr].
  unfold q_free. rewrite (proj2 (Z.eqb_neq head 0)) by done.
  erewrite bind_run by (apply load_next_run; exact Hn).
  erewrite bind_run by (apply load_next_run; exact Hnn).
  erewrite bind_run by exact R.
  unfold free_list_head. rewrite (proj2 (Z.eqb_neq head 0)) by done. rewrite Hr.
  eexists. split; [reflexivity |]. cbn [links values strs bytes oracle with_links].
  split; [rewrite dom_delete_L, DL; cbn [list_to_set]; set_solver |].
  do 4 (split; [done |]). split; [|done].
  intros x Hx. rewrite lookup_delete_ne by set_solver. by apply F.
Qed.

(** X4: q_free on a well-formed queue returns, and afterwards the sentinel,
    every element and every string of the queue are released; whatever else
    the heap holds is as before. On a null queue it does nothing. *)
Theorem q_free_releases_all s head q fuel :
  queue s head q -> (length q < fuel)%nat ->
  q_free fuel 0 s = Some (tt, s) /\
  exists s',
    q_free fuel head s = Some (tt, s') /\
    dom (links s') = dom (links s) ∖ list_to_set (head :: map c_node q) /\
    dom (values s') = dom (values s) ∖ list_to_set (map c_node q) /\
    dom (strs s') = dom (strs s) ∖ list_to_set (map c_val q) /\
    values s' ⊆ values s /\ strs s' ⊆ strs s /\
    (forall x, x ∉ head :: map c_node q -> links s' !! x = links s !! x) /\
    bytes s' = bytes s /\ oracle s' = oracle s.
Proof. intros Hq Hf. split; [done | by apply q_free_run]. Qed.

Lemma q_free_releases_all_witness :
  let s := abc_state in
  let q := cells_from ["b"; "a"; "a"] in
  q_free 4 0 s = Some (tt, s) /\
  exists s',
    q_free 4 16 s = Some (tt, s') /\
    dom (links s') = dom (links s) ∖ list_to_set (16 :: map c_node q) /\
    dom (values s') = dom (values s) ∖ list_to_set (map c_node q) /\
    dom (strs s') = dom (strs s) ∖ list_to_set (map c_val q) /\
    values s' ⊆ values s /\ strs s' ⊆ strs s /\
    (forall x, x ∉ 16 :: map c_node q -> links s' !! x = links s !! x) /\
    bytes s' = bytes s /\ oracle s' = oracle s.
Proof.
  apply (q_free_releases_all abc_state 16 (cells_from ["b"; "a"; "a"]) 4).
  - compute_done.
  - cbn. lia.
Defined.

Lemma submap_same_dom {A} (m1 m2 : gmap Z A) : m1 ⊆ m2 -> dom m1 = dom m2 -> m1 = m2.
Proof.
  intros Hsub Hdom. apply map_eq. intros i.
  destruct (m1 !! i) as [x|] eqn:E1.
  - symmetry. by eapply lookup_weaken.
  - symmetry. apply not_elem_of_dom. rewrite <- Hdom. by apply not_elem_of_dom.
Qed.

(** X5: a queue made by q_new and given to q_free at once leaves the heap as
    it was before the two calls: the sentinel is released and nothing else
    was touched. *)
Theorem q_new_then_q_free s a fuel :
  hd_or 0 (oracle s) = a -> a ≠ 0 -> links s !! a = None -> (0 < fuel)%nat ->
  exists s1 s2,
    q_new s = Some (a, s1) /\ q_free fuel a s1 = Some (tt, s2) /\
    links s2 = links s /\ values s2 = values s /\ strs s2 = strs s /\
    bytes s2 = bytes s.
Proof.
  intros Ha H0 Hfresh Hf.
  destruct (q_new_ok s a Ha H0 Hfresh) as (s1 & R1 & Q1 & L1 & V1 & S1 & B1).
  destruct (q_free_run s1 a [] fuel Q1 Hf)
    as (s2 & R2 & DL & DV & DS & SV & SS & F & B & _).
  cbn [map list_to_set] in DL, DV, DS, F.
  exists s1, s2. split; [done |]. split; [done |].
  split; [|split; [|split]].
  - apply map_eq. intros x. destruct (decide (x = a)) as [->|Hx].
    + rewrite Hfresh. apply not_elem_of_dom. rewrite DL. set_solver.
    + rewrite F by set_solver. rewrite L1. by rewrite lookup_insert_ne.
  - rewrite <- V1. apply submap_same_dom; [done |]. rewrite DV. set_solver.
  - rewrite <- S1. apply submap_same_dom; [done |]. rewrite DS. set_solver.
  - congruence.
Qed.

Lemma q_new_then_q_free_witness :
  exists s1 s2,
    q_new abc_state = Some (320, s1) /\ q_free 1 320 s1 = Some (tt, s2) /\
    links s2 = links abc_state /\ values s2 = values abc_state /\
    strs s2 = strs abc_state /\ bytes s2 = bytes abc_state.
Proof.
  apply (q_new_then_q_free abc_state 320 1).
  - reflexivity.
  - lia.
  - reflexivity.
  - lia.
Defined.

(** ** abs_branchless and min *)



(** X7: where the subtraction a - b does not overflow an int, min returns
    the smaller of a and b. *)
Theorem min_spec a b :
  - 2 ^ 31 <= a - b < 2 ^ 31 -> min a b = Some (Z.min a b).
Proof.
  intros H. unfold min.
  destruct (Z.leb_spec (- 2 ^ 31) (a - b)); [|lia].
  destruct (Z.ltb_spec (a - b) (2 ^ 31)); [|lia].
  cbn [andb]. f_equal. destruct (Z.gtb_spec (a - b) 0); lia.
Qed.

Lemma min_spec_witness : min 9 6 = Some (Z.min 9 6).
Proof. apply (min_spec 9 6). lia. Defined.

(** ** What q_remove_head and q_remove_tail store in the buffer *)

Lemma byte_of_range c : 0 <= byte_of c < 256.
Proof.
  unfold byte_of. pose proof (N_ascii_bounded c) as H. lia.
Qed.

Lemma char_at_get str : forall k ch beyond,
  String.get k str = Some ch -> char_at str k beyond = byte_of ch.
Proof.
  induction str as [|c str IH]; intros k ch beyond H; [done |].
  destruct k as [|k]; cbn [String.get char_at] in *; [congruence | by apply IH].
Qed.

Lemma get_length str : forall k ch, String.get k str = Some ch -> (k < String.length str)%nat.
Proof.
  induction str as [|c str IH]; intros k ch H; [done |].
  destruct k as [|k]; cbn [String.get String.length] in *; [lia |].
  apply IH in H. lia.
Qed.

Lemma char_at_length str beyond : char_at str (String.length str) beyond = 0.
Proof. induction str as [|c str IH]; [done | exact IH]. Qed.

Lemma copy_byte_last s v str len : 0 <= len < 2 ^ 64 -> copy_byte s v str (to_size_t len) len = 0.
Proof.
  intros H. unfold copy_byte. rewrite Z.lxor_nilpotent. cbn [Z.eqb negb Z.b2z Z.opp].
  by rewrite Z.land_0_r.
Qed.

Lemma copy_byte_before s v str len k :
  0 <= k < len -> len < 2 ^ 64 ->
  copy_byte s v str (to_size_t len) k =
    to_char (char_at str (Z.to_nat k)
               (fun j => stray s (v + Z.of_nat (String.length str) + 1 + Z.of_nat j))).
Proof.
  intros Hk Hlen. unfold copy_byte. rewrite !to_size_t_id by lia.
  assert (Z.lxor k len ≠ 0) as Hx by (rewrite Z.lxor_eq_0_iff; lia).
  rewrite (proj2 (Z.eqb_neq _ _) Hx). cbn [negb Z.b2z Z.opp].
  by rewrite Z.land_m1_r.
Qed.

(* the buffer once min (bufsize - 1) (strlen + 1) has been taken as the length *)
Lemma copied_contract s sp v str bufsize :
  1 <= bufsize -> Z.of_nat (String.length str) + 1 < 2 ^ 31 ->
  let n := Z.of_nat (String.length str) in
  let B := copied s sp v str (Z.min (bufsize - 1) (n + 1)) in
  (forall k ch, Z.of_nat k < bufsize - 1 -> String.get k str = Some ch ->
                B !! (sp + Z.of_nat k) = Some (byte_of ch)) /\
  B !! (sp + Z.min (bufsize - 1) n) = Some 0 /\
  (forall a, ~ sp <= a < sp + bufsize -> B !! a = bytes s !! a).
Proof.
  intros Hb Hn n B. fold n in Hn. unfold B, copied.
  set (len := Z.min (bufsize - 1) (n + 1)).
  assert (0 <= len < 2 ^ 31) as Hlen by (unfold len; lia).
  assert (2 ^ 31 < 2 ^ 64) as Hpow by done.
  split; [|split].
  - intros k ch Hk Hget. pose proof (get_length _ _ _ Hget) as Hkn.
    rewrite lookup_write_down. rewrite decide_True by (unfold len, n; lia).
    replace (sp + Z.of_nat k - sp) with (Z.of_nat k) by lia.
    rewrite copy_byte_before by (unfold len, n; lia).
    rewrite Nat2Z.id, (char_at_get _ _ _ _ Hget). f_equal.
    unfold to_char. apply Z.mod_small. pose proof (byte_of_range ch). lia.
  - rewrite lookup_write_down. rewrite decide_True by (unfold len; lia).
    replace (sp + Z.min (bufsize - 1) n - sp) with (Z.min (bufsize - 1) n) by lia.
    f_equal. destruct (decide (bufsize - 1 <= n)) as [Hle|Hgt].
    + replace (Z.min (bufsize - 1) n) with len by (unfold len; lia).
      apply copy_byte_last. lia.
    + replace (Z.min (bufsize - 1) n) with n by lia.
      rewrite copy_byte_before by (unfold len; lia).
      unfold n. by rewrite Nat2Z.id, char_at_length.
  - intros a Ha. rewrite lookup_write_down. rewrite decide_False; [done |].
    unfold len. lia.
Qed.

(** X8: for strings shorter than 2^31 - 1 bytes and a buffer of bufsize >= 1
    bytes, when the low 32 bits of the buffer's address, read as an int32_t,
    are at least bufsize in absolute value, q_remove_head and q_remove_tail
    keep the contract of their comment: the first min (bufsize - 1, strlen)
    bytes of the removed string are stored in the buffer, a zero byte follows
    them, and no byte outside the buffer changes. *)
Theorem q_remove_copies_string s head q c qh d qt sp bufsize fuel :
  queue s head q -> q = c :: qh -> q = qt ++ [d] -> short_strings q ->
  1 <= bufsize <= 2 ^ 31 -> writable s sp bufsize ->
  (Z.to_nat bufsize < fuel)%nat -> bufsize <= Z.abs (to_int32 sp) < 2 ^ 31 ->
  (exists s',
     q_remove_head fuel head sp bufsize s = Some (c_node c, s') /\
     queue s' head qh /\
     (forall k ch, Z.of_nat k < bufsize - 1 -> String.get k (c_str c) = Some ch ->
                   bytes s' !! (sp + Z.of_nat k) = Some (byte_of ch)) /\
     bytes s' !! (sp + Z.min (bufsize - 1) (Z.of_nat (String.length (c_str c)))) = Some 0 /\
     (forall a, ~ sp <= a < sp + bufsize -> bytes s' !! a = bytes s !! a)) /\
  (exists s',
     q_remove_tail fuel head sp bufsize s = Some (c_node d, s') /\
     queue s' head qt /\
     (forall k ch, Z.of_nat k < bufsize - 1 -> String.get k (c_str d) = Some ch ->
                   bytes s' !! (sp + Z.of_nat k) = Some (byte_of ch)) /\
     bytes s' !! (sp + Z.min (bufsize - 1) (Z.of_nat (String.length (c_str d)))) = Some 0 /\
     (forall a, ~ sp <= a < sp + bufsize -> bytes s' !! a = bytes s !! a)).
Proof.
  intros Hq Eh Et Hs Hb Hw Hf Hsp.
  destruct (address_term (to_int32 sp) ltac:(lia)) as [Yh Yt].
  assert (c ∈ q) as Hc by (rewrite Eh; by left).
  assert (d ∈ q) as Hd by (rewrite Et; apply elem_of_app; right; by left).
  pose proof (short_string_of q c Hs Hc) as Hnc.
  pose proof (short_string_of q d Hs Hd) as Hnd.
  split.
  - rewrite Eh in Hq.
    destruct (q_remove_head_len s head c qh sp bufsize fuel
                (Z.min (bufsize - 1) (Z.of_nat (String.length (c_str c)) + 1))
                Hq ltac:(lia) Hnc)
      as (s' & R & Q & _ & _ & B & _).
    + rewrite Yh. lia.
    + intros k Hk. apply (writable_at s sp bufsize); [done | lia].
    + lia.
    + exists s'. split; [done |]. split; [done |]. rewrite B.
      by apply copied_contract; [lia |].
  - rewrite Et in Hq.
    destruct (q_remove_tail_len s head d qt sp bufsize fuel
                (Z.min (bufsize - 1) (Z.of_nat (String.length (c_str d)) + 1))
                Hq ltac:(lia) Hnd)
      as (s' & R & Q & _ & _ & B & _).
    + rewrite Yt. lia.
    + intros k Hk. apply (writable_at s sp bufsize); [done | lia].
    + lia.
    + exists s'. split; [done |]. split; [done |]. rewrite B.
      by apply copied_contract; [lia |].
Qed.

Lemma q_remove_copies_string_witness :
  (exists s',
     q_remove_head 9 16 4096 8 abc_state = Some (32, s') /\
     queue s' 16 [Cell 64 80 "a"; Cell 96 112 "a"] /\
     (forall k ch, Z.of_nat k < 8 - 1 -> String.get k "b" = Some ch ->
                   bytes s' !! (4096 + Z.of_nat k) = Some (byte_of ch)) /\
     bytes s' !! (4096 + Z.min (8 - 1) (Z.of_nat (String.length "b"))) = Some 0 /\
     (forall a, ~ 4096 <= a < 4096 + 8 -> bytes s' !! a = bytes abc_state !! a)) /\
  (exists s',
     q_remove_tail 9 16 4096 8 abc_state = Some (96, s') /\
     queue s' 16 (cells_from ["b"; "a"]) /\
     (forall k ch, Z.of_nat k < 8 - 1 -> String.get k "a" = Some ch ->
                   bytes s' !! (4096 + Z.of_nat k) = Some (byte_of ch)) /\
     bytes s' !! (4096 + Z.min (8 - 1) (Z.of_nat (String.length "a"))) = Some 0 /\
     (forall a, ~ 4096 <= a < 4096 + 8 -> bytes s' !! a = bytes abc_state !! a)).
Proof.
  apply (q_remove_copies_string abc_state 16 (cells_from ["b"; "a"; "a"])
           (Cell 32 48 "b") [Cell 64 80 "a"; Cell 96 112 "a"]
           (Cell 96 112 "a") (cells_from ["b"; "a"]) 4096 8 9).
  - compute_done.
  - reflexivity.
  - reflexivity.
  - compute_done.
  - lia.
  - compute_done.
  - lia.
  - vm_compute. split; [discriminate | reflexivity].
Defined.

(** X9: q_remove_head and q_remove_tail never store at or beyond the index
    abs ((int32_t) sp): the copy length is at most the address term
    abs ((int32_t) sp) - 1, so only the first min (bufsize, abs ((int32_t) sp))
    bytes of the buffer can change; this for strings shorter than 2^31 - 1
    bytes, bufsize < 2^31 and an address whose low 32 bits are not INT32_MIN. *)
Theorem q_remove_capped_by_address s head q c qh d qt sp bufsize fuel :
  queue s head q -> q = c :: qh -> q = qt ++ [d] -> short_strings q ->
  0 <= bufsize < 2 ^ 31 -> Z.abs (to_int32 sp) < 2 ^ 31 ->
  writable s sp (Z.min bufsize (Z.abs (to_int32 sp))) ->
  (Z.to_nat bufsize < fuel)%nat ->
  (exists s',
     q_remove_head fuel head sp bufsize s = Some (c_node c, s') /\
     queue s' head qh /\
     forall a, ~ sp <= a < sp + Z.min bufsize (Z.abs (to_int32 sp)) ->
               bytes s' !! a = bytes s !! a) /\
  (exists s',
     q_remove_tail fuel head sp bufsize s = Some (c_node d, s') /\
     queue s' head qt /\
     forall a, ~ sp <= a < sp + Z.min bufsize (Z.abs (to_int32 sp)) ->
               bytes s' !! a = bytes s !! a).
Proof.
  intros Hq Eh Et Hs Hb Hsp Hw Hf.
  destruct (address_term (to_int32 sp) Hsp) as [Yh Yt].
  assert (c ∈ q) as Hc by (rewrite Eh; by left).
  assert (d ∈ q) as Hd by (rewrite Et; apply elem_of_app; right; by left).
  pose proof (short_string_of q c Hs Hc) as Hnc.
  pose proof (short_string_of q d Hs Hd) as Hnd.
  split.
  - rewrite Eh in Hq.
    destruct (q_remove_head_len s head c qh sp bufsize fuel _ Hq Hb Hnc eq_refl)
      as (s' & R & Q & _ & _ & B & _).
    + rewrite Yh. intros k Hk. apply (writable_at s sp _ k Hw). lia.
    + rewrite Yh. lia.
    + exists s'. split; [done |]. split; [done |]. intros a Ha.
      rewrite B, Yh. unfold copied. rewrite lookup_write_down.
      rewrite decide_False; [done | lia].
  - rewrite Et in Hq.
    destruct (q_remove_tail_len s head d qt sp bufsize fuel _ Hq Hb Hnd eq_refl)
      as (s' & R & Q & _ & _ & B & _).
    + rewrite Yt. intros k Hk. apply (writable_at s sp _ k Hw). lia.
    + rewrite Yt. lia.
    + exists s'. split; [done |]. split; [done |]. intros a Ha.
      rewrite B, Yt. unfold copied. rewrite lookup_write_down.
      rewrite decide_False; [done | lia].
Qed.

Lemma q_remove_capped_by_address_witness :
  (exists s',
     q_remove_head 11 16 low_sp 10 hello_state = Some (32, s') /\
     queue s' 16 [] /\
     forall a, ~ low_sp <= a < low_sp + Z.min 10 (Z.abs (to_int32 low_sp)) ->
               bytes s' !! a = bytes hello_state !! a) /\
  (exists s',
     q_remove_tail 11 16 low_sp 10 hello_state = Some (32, s') /\
     queue s' 16 [] /\
     forall a, ~ low_sp <= a < low_sp + Z.min 10 (Z.abs (to_int32 low_sp)) ->
               bytes s' !! a = bytes hello_state !! a).
Proof.
  apply (q_remove_capped_by_address hello_state 16 [Cell 32 48 "hello"]
           (Cell 32 48 "hello") [] (Cell 32 48 "hello") [] low_sp 10 11).
  - compute_done.
  - reflexivity.
  - reflexivity.
  - compute_done.
  - lia.
  - vm_compute. reflexivity.
  - compute_done.
  - lia.
Defined.

Lemma q_remove_head_null s head c q bufsize fuel :
  queue s head (c :: q) -> 0 <= bufsize < 2 ^ 31 ->
  Z.of_nat (String.length (c_str c)) + 1 < 2 ^ 31 -> (0 < fuel)%nat ->
  exists s',
    q_remove_head fuel head 0 bufsize s = Some (c_node c, s') /\
    queue s' head q /\ cell_ok s' c /\ is_Some (links s' !! c_node c) /\
    bytes s' = bytes s /\ values s' = values s /\ strs s' = strs s /\
    oracle s' = oracle s.
Proof.
  intros Hq Hb Hn Hf.
  assert (to_int32 (abs_branchless (to_int32 0) - 1) = - 1) as Hy by reflexivity.
  destruct (q_remove_head_len s head c q 0 bufsize fuel _ Hq Hb Hn eq_refl)
    as (s' & R & Q & C & A & B & V & S & O);
    [rewrite Hy; intros k Hk; lia | rewrite Hy; lia |].
  rewrite copied_negative in B by (rewrite Hy; lia). by exists s'.
Qed.

Lemma q_remove_tail_null s head c q bufsize fuel :
  queue s head (q ++ [c]) -> 0 <= bufsize < 2 ^ 31 ->
  Z.of_nat (String.length (c_str c)) + 1 < 2 ^ 31 -> (0 < fuel)%nat ->
  exists s',
    q_remove_tail fuel head 0 bufsize s = Some (c_node c, s') /\
    queue s' head q /\ cell_ok s' c /\ is_Some (links s' !! c_node c) /\
    bytes s' = bytes s /\ values s' = values s /\ strs s' = strs s /\
    oracle s' = oracle s.
Proof.
  intros Hq Hb Hn Hf.
  assert (to_int32 (c_abs (to_int32 0) - 1) = - 1) as Hy by reflexivity.
  destruct (q_remove_tail_len s head c q 0 bufsize fuel _ Hq Hb Hn eq_refl)
    as (s' & R & Q & C & A & B & V & S & O);
    [rewrite Hy; intros k Hk; lia | rewrite Hy; lia |].
  rewrite copied_negative in B by (rewrite Hy; lia). by exists s'.
Qed.

(** X10: with a null sp, q_remove_head and q_remove_tail unlink and return
    the element and store nothing, whatever bufsize is: the address term is
    abs (0) - 1 = -1, so the copy length is negative. *)
Theorem q_remove_null_sp s head q c qh d qt bufsize fuel :
  queue s head q -> q = c :: qh -> q = qt ++ [d] -> short_strings q ->
  0 <= bufsize < 2 ^ 31 -> (0 < fuel)%nat ->
  (exists s', q_remove_head fuel head 0 bufsize s = Some (c_node c, s') /\
              queue s' head qh /\ cell_ok s' c /\ bytes s' = bytes s) /\
  (exists s', q_remove_tail fuel head 0 bufsize s = Some (c_node d, s') /\
              queue s' head qt /\ cell_ok s' d /\ bytes s' = bytes s).
Proof.
  intros Hq Eh Et Hs Hb Hf.
  assert (c ∈ q) as Hc by (rewrite Eh; by left).
  assert (d ∈ q) as Hd by (rewrite Et; apply elem_of_app; right; by left).
  split.
  - rewrite Eh in Hq.
    destruct (q_remove_head_null s head c qh bufsize fuel Hq Hb
                (short_string_of q c Hs Hc) Hf) as (s' & R & Q & C & _ & B & _).
    by exists s'.
  - rewrite Et in Hq.
    destruct (q_remove_tail_null s head d qt bufsize fuel Hq Hb
                (short_string_of q d Hs Hd) Hf) as (s' & R & Q & C & _ & B & _).
    by exists s'.
Qed.

Lemma q_remove_null_sp_witness :
  (exists s', q_remove_head 1 16 0 100 abc_state = Some (32, s') /\
              queue s' 16 [Cell 64 80 "a"; Cell 96 112 "a"] /\
              cell_ok s' (Cell 32 48 "b") /\ bytes s' = bytes abc_state) /\
  (exists s', q_remove_tail 1 16 0 100 abc_state = Some (96, s') /\
              queue s' 16 (cells_from ["b"; "a"]) /\
              cell_ok s' (Cell 96 112 "a") /\ bytes s' = bytes abc_state).
Proof.
  apply (q_remove_null_sp abc_state 16 (cells_from ["b"; "a"; "a"])
           (Cell 32 48 "b") [Cell 64 80 "a"; Cell 96 112 "a"]
           (Cell 96 112 "a") (cells_from ["b"; "a"]) 100 1).
  - compute_done.
  - reflexivity.
  - reflexivity.
  - compute_done.
  - lia.
  - lia.
Defined.

(** X11: on a null or an empty queue q_remove_head and q_remove_tail return
    NULL and change nothing, the buffer included. *)
Theorem q_remove_nothing s head fuel sp bufsize :
  head = 0 \/ queue s head [] ->
  q_remove_head fuel head sp bufsize s = Some (0, s) /\
  q_remove_tail fuel head sp bufsize s = Some (0, s).
Proof. apply q_remove_none. Qed.

Lemma q_remove_nothing_witness :
  q_remove_head 3 16 4096 8 (sample []) = Some (0, sample []) /\
  q_remove_tail 3 16 4096 8 (sample []) = Some (0, sample []).
Proof.
  apply (q_remove_nothing (sample []) 16 3 4096 8). right. compute_done.
Defined.

(** ** Operations in sequence *)






(** X14: q_size follows the other operations: it is one more after
    q_insert_head and q_insert_tail, one less after a q_delete_mid that
    returned true, and the same after q_reverse, q_swap and q_sort. *)
Theorem q_size_after s head q p str a b fuel :
  queue s head q -> strs s !! p = Some str ->
  hd_or 0 (oracle s) = a -> hd_or 0 (tail (oracle s)) = b ->
  a ≠ 0 -> b ≠ 0 -> fresh_node s a -> fresh_str s b ->
  (S (length q) < fuel)%nat -> Z.of_nat (length q) + 1 < 2 ^ 31 ->
  let n := Z.of_nat (length q) in
  (exists s1, q_insert_head head p s = Some (true, s1) /\
              q_size fuel head s1 = Some (n + 1, s1)) /\
  (exists s1, q_insert_tail head p s = Some (true, s1) /\
              q_size fuel head s1 = Some (n + 1, s1)) /\
  (exists r s1, q_delete_mid fuel head s = Some (r, s1) /\
                q_size fuel head s1 = Some (n - Z.b2z r, s1)) /\
  (exists s1, q_reverse fuel head s = Some (tt, s1) /\
              q_size fuel head s1 = Some (n, s1)) /\
  (exists s1, q_swap fuel head s = Some (tt, s1) /\
              q_size fuel head s1 = Some (n, s1)) /\
  (exists s1, q_sort fuel head s = Some (tt, s1) /\
              q_size fuel head s1 = Some (n, s1)).
Proof.
  intros Hq Hp Ea Eb Ha Hb Hfa Hfb Hf Hn n. subst a b n.
  assert (forall s1 q1 k, queue s1 head q1 -> Z.of_nat (length q1) = k ->
            (length q1 <= S (length q))%nat ->
            q_size fuel head s1 = Some (k, s1)) as Hsize.
  { intros s1 q1 k Q1 <- Hl. apply q_size_run; [done | lia | lia]. }
  split.
  { destruct (q_insert_head_ok s head q p str Hq Hp Ha Hb Hfa Hfb) as (s1 & R1 & Q1 & _).
    exists s1. split; [done |]. eapply Hsize; [exact Q1 | |]; cbn [length]; lia. }
  split.
  { destruct (q_insert_tail_ok s head q p str Hq Hp Ha Hb Hfa Hfb) as (s1 & R1 & Q1 & _).
    exists s1. split; [done |]. eapply Hsize; [exact Q1 | |];
      rewrite length_app; cbn [length]; lia. }
  split.
  { destruct (decide (q = [])) as [->|Hne].
    - exists false, s. split; [by apply q_delete_mid_none |].
      eapply Hsize; [exact Hq | |]; cbn; lia.
    - destruct (q_delete_mid_run s head q fuel Hq Hne ltac:(lia))
        as (s1 & q1 & c & q2 & E & _ & R & Q1 & _).
      exists true, s1. split; [done |].
      assert (length q = S (length (q1 ++ q2))) as Hl.
      { rewrite E, !length_app. cbn [length]. lia. }
      eapply Hsize; [exact Q1 | |]; cbn [Z.b2z]; lia. }
  split.
  { destruct (q_reverse_run s head q fuel Hq ltac:(lia)) as (L' & R & Q1 & _).
    eexists. split; [exact R |]. eapply Hsize; [exact Q1 | |]; rewrite length_rev; lia. }
  split.
  { destruct (q_swap_run s head q fuel Hq ltac:(lia)) as (L' & R & Q1 & _).
    eexists. split; [exact R |].
    eapply Hsize; [exact Q1 | |]; rewrite swap_pairs_length; lia. }
  destruct (decide (length q <= 1)%nat) as [Hshort|Hlong].
  - exists s. split; [by apply (q_sort_short s head q) |].
    eapply Hsize; [exact Hq | |]; lia.
  - destruct (q_sort_long s head q fuel Hq ltac:(lia) ltac:(lia))
      as (L' & q' & R & Q1 & (_ & Hperm & _) & _).
    eexists. split; [exact R |]. apply Permutation_length in Hperm.
    eapply Hsize; [exact Q1 | |]; lia.
Qed.

Lemma q_size_after_witness :
  let s := abc_state in
  let n := Z.of_nat (length (cells_from ["b"; "a"; "a"])) in
  (exists s1, q_insert_head 16 8000 s = Some (true, s1) /\
              q_size 5 16 s1 = Some (n + 1, s1)) /\
  (exists s1, q_insert_tail 16 8000 s = Some (true, s1) /\
              q_size 5 16 s1 = Some (n + 1, s1)) /\
  (exists r s1, q_delete_mid 5 16 s = Some (r, s1) /\
                q_size 5 16 s1 = Some (n - Z.b2z r, s1)) /\
  (exists s1, q_reverse 5 16 s = Some (tt, s1) /\
              q_size 5 16 s1 = Some (n, s1)) /\
  (exists s1, q_swap 5 16 s = Some (tt, s1) /\
              q_size 5 16 s1 = Some (n, s1)) /\
  (exists s1, q_sort 5 16 s = Some (tt, s1) /\
              q_size 5 16 s1 = Some (n, s1)).
Proof.
  apply (q_size_after abc_state 16 (cells_from ["b"; "a"; "a"]) 8000 "x" 320 336 5).
  - compute_done.
  - reflexivity.
  - reflexivity.
  - reflexivity.
  - lia.
  - lia.
  - compute_done.
  - compute_done.
  - cbn. lia.
  - cbn. lia.
Defined.

(** ** What q_delete_dup keeps *)

Ltac last_of H :=
  rewrite ?last_cons_cons in H; rewrite ?last_cons_cons;
  match goal with
  | |- context [last (?y :: ?l)] =>
      destruct (last (y :: l)) eqn:?El; [exact H | by apply last_None in El]
  end.

Lemma dup_model_elem q : forall dp c,
  c ∈ dup_model q dp <->
  exists q1 q2,
    q = q1 ++ c :: q2 /\
    match q2 with
    | d :: _ => strcmp_str (c_str c) (c_str d) ≠ 0
    | [] => match last q1 with
            | Some p => strcmp_str (c_str p) (c_str c) ≠ 0
            | None => dp = false
            end
    end.
Proof.
  induction q as [|c0 q IH]; intros dp c.
  - cbn [dup_model]. split; [intros H; by apply elem_of_nil in H |].
    intros (q1 & q2 & E & _). by destruct q1.
  - destruct q as [|d0 q'].
    + cbn [dup_model]. split.
      * intros H. destruct dp; [by apply elem_of_nil in H |].
        apply list_elem_of_singleton in H as ->. by exists [], [].
      * intros (q1 & q2 & E & H).
        destruct q1 as [|x q1]; [|destruct q1; discriminate].
        cbn [app] in E. injection E as <- <-. cbn in H. subst dp. by left.
    + rewrite dup_model_cons2.
      destruct (Z.eqb_spec (strcmp_str (c_str c0) (c_str d0)) 0) as [He|Hne].
      * rewrite IH. split.
        -- intros (q1 & q2 & E & H). exists (c0 :: q1), q2.
           split; [by rewrite E |]. destruct q2 as [|d q2]; [|done].
           destruct q1 as [|y q1]; [discriminate H | last_of H].
        -- intros (q1 & q2 & E & H). destruct q1 as [|x q1].
           ++ cbn [app] in E. injection E as <- <-. done.
           ++ cbn [app] in E. injection E as <- E. exists q1, q2.
              split; [done |]. destruct q2 as [|d q2]; [|done].
              destruct q1 as [|y q1]; [|last_of H].
              cbn [app] in E. injection E as <- _. cbn in H. done.
      * rewrite elem_of_cons, IH. split.
        -- intros [->|(q1 & q2 & E & H)]; [by exists [], (d0 :: q') |].
           exists (c0 :: q1), q2. split; [by rewrite E |].
           destruct q2 as [|d q2]; [|done].
           destruct q1 as [|y q1]; [|last_of H].
           cbn [app] in E. injection E as <- _. exact Hne.
        -- intros (q1 & q2 & E & H). destruct q1 as [|x q1].
           ++ cbn [app] in E. injection E as <- _. by left.
           ++ cbn [app] in E. injection E as <- E. right. exists q1, q2.
              split; [done |]. destruct q2 as [|d q2]; [|done].
              destruct q1 as [|y q1]; [done | last_of H].
Qed.

Lemma dup_model_id q :
  (forall i c d, q !! i = Some c -> q !! S i = Some d ->
                 strcmp_str (c_str c) (c_str d) ≠ 0) ->
  dup_model q false = q.
Proof.
  induction q as [|c q IH]; intros H; [done |].
  destruct q as [|d q]; [done |].
  rewrite dup_model_cons2.
  rewrite (proj2 (Z.eqb_neq _ _) (H O c d eq_refl eq_refl)).
  f_equal. apply IH. intros i x y Hx Hy. exact (H (S i) x y Hx Hy).
Qed.

(** X15: what q_delete_dup does to any well-formed queue: it returns true
    and keeps, in their order, exactly the elements whose string differs
    from the string of the next element and, for the last element, from the
    string of the one before it; on a null queue it returns false. *)
Theorem q_delete_dup_keeps s head q fuel :
  queue s head q -> (length q <= fuel)%nat -> (0 < fuel)%nat ->
  q_delete_dup fuel 0 s = Some (false, s) /\
  exists s' q',
    q_delete_dup fuel head s = Some (true, s') /\ queue s' head q' /\
    q' `sublist_of` q /\
    forall c, c ∈ q' <->
      exists q1 q2,
        q = q1 ++ c :: q2 /\
        match q2 with
        | d :: _ => strcmp_str (c_str c) (c_str d) ≠ 0
        | [] => match last q1 with
                | Some p => strcmp_str (c_str p) (c_str c) ≠ 0
                | None => True
                end
        end.
Proof.
  intros Hq Hf H0. split; [done |].
  destruct (q_delete_dup_run s head q fuel Hq Hf H0) as (s' & R & Q & _).
  exists s', (dup_model q false). split; [done |]. split; [done |].
  split; [apply dup_model_sublist |].
  intros c. rewrite dup_model_elem.
  split; intros (q1 & q2 & E & H); exists q1, q2; (split; [done |]);
    destruct q2; try done; destruct (last q1); done.
Qed.

Lemma q_delete_dup_keeps_witness :
  let q := cells_from ["a"; "b"; "b"; "c"] in
  q_delete_dup 4 0 (sample ["a"; "b"; "b"; "c"]) =
    Some (false, sample ["a"; "b"; "b"; "c"]) /\
  exists s' q',
    q_delete_dup 4 16 (sample ["a"; "b"; "b"; "c"]) = Some (true, s') /\
    queue s' 16 q' /\ q' `sublist_of` q /\
    forall c, c ∈ q' <->
      exists q1 q2,
        q = q1 ++ c :: q2 /\
        match q2 with
        | d :: _ => strcmp_str (c_str c) (c_str d) ≠ 0
        | [] => match last q1 with
                | Some p => strcmp_str (c_str p) (c_str c) ≠ 0
                | None => True
                end
        end.
Proof.
  apply (q_delete_dup_keeps (sample ["a"; "b"; "b"; "c"]) 16
           (cells_from ["a"; "b"; "b"; "c"]) 4).
  - compute_done.
  - cbn. lia.
  - lia.
Defined.

(** X16: q_delete_dup removes nothing from a queue in which no element has
    the same string as the next one. *)
Theorem q_delete_dup_no_equal_neighbours s head q fuel :
  queue s head q -> (length q <= fuel)%nat -> (0 < fuel)%nat ->
  (forall i c d, q !! i = Some c -> q !! S i = Some d ->
                 strcmp_str (c_str c) (c_str d) ≠ 0) ->
  exists s', q_delete_dup fuel head s = Some (true, s') /\ queue s' head q /\
             bytes s' = bytes s.
Proof.
  intros Hq Hf H0 Hne.
  destruct (q_delete_dup_run s head q fuel Hq Hf H0) as (s' & R & Q & B & _).
  rewrite dup_model_id in Q by done. by exists s'.
Qed.

Lemma q_delete_dup_no_equal_neighbours_witness :
  exists s', q_delete_dup 3 16 (sample ["a"; "b"; "a"]) = Some (true, s') /\
             queue s' 16 (cells_from ["a"; "b"; "a"]) /\
             bytes s' = bytes (sample ["a"; "b"; "a"]).
Proof.
  apply (q_delete_dup_no_equal_neighbours (sample ["a"; "b"; "a"]) 16
           (cells_from ["a"; "b"; "a"]) 3).
  - compute_done.
  - cbn. lia.
  - lia.
  - intros [|[|[|i]]] c d Hc Hd; cbn in Hc, Hd; try discriminate;
      injection Hc as <-; injection Hd as <-; vm_compute; discriminate.
Defined.

(** ** merge and merge_sort *)

(** X17: merge, given two non-empty NULL-terminated chains of elements, each
    in ascending order, returns the head of one NULL-terminated chain that
    holds the elements of both in ascending order; elements that compare
    equal keep their order, those of the first chain before those of the
    second; the links of nodes outside the two chains are not written. *)
Theorem merge_sorted_chains s fuel qa qb L :
  qa ≠ [] -> qb ≠ [] -> Forall (cell_ok s) (qa ++ qb) ->
  nchain L (map c_node qa) 0 -> nchain L (map c_node qb) 0 ->
  NoDup (map c_node (qa ++ qb)) -> 0 ∉ map c_node (qa ++ qb) ->
  (length qa + length qb < fuel)%nat ->
  StronglySorted cell_le qa -> StronglySorted cell_le qb ->
  exists L' qm,
    merge fuel (hd_or 0 (map c_node qa)) (hd_or 0 (map c_node qb)) (with_links L s)
      = Some (hd_or 0 (map c_node qm), with_links L' s) /\
    nchain L' (map c_node qm) 0 /\
    qm ≡ₚ qa ++ qb /\ StronglySorted cell_le qm /\
    (forall k, filter (same_key k) qm =
               filter (same_key k) qa ++ filter (same_key k) qb) /\
    (forall y, y ∉ map c_node (qa ++ qb) -> L' !! y = L !! y).
Proof.
  intros Ha Hb Hok Hna Hnb Hnd H0 Hf Sa Sb.
  destruct (merge_run s fuel qa qb L Ha Hb Hok Hna Hnb Hnd H0 Hf)
    as (L' & R & Hn & Hframe & Hdom).
  exists L', (list_merge cell_le qa qb).
  split; [exact R |]. split; [exact Hn |].
  split; [apply merge_Permutation |].
  split.
  { apply Sorted_StronglySorted; [apply _ |].
    apply Sorted_list_merge; [apply _ | by apply StronglySorted_Sorted..]. }
  split; [intros k; by apply list_merge_filter |].
  exact Hframe.
Qed.

Lemma merge_sorted_chains_witness :
  let s := sample ["a"; "c"; "b"; "d"] in
  let qa := [Cell 32 48 "a"; Cell 64 80 "c"] in
  let qb := [Cell 96 112 "b"; Cell 128 144 "d"] in
  let L := <[64 := Link 0 32]> (<[128 := Link 0 96]> (links s)) in
  exists L' qm,
    merge 5 (hd_or 0 (map c_node qa)) (hd_or 0 (map c_node qb)) (with_links L s)
      = Some (hd_or 0 (map c_node qm), with_links L' s) /\
    nchain L' (map c_node qm) 0 /\
    qm ≡ₚ qa ++ qb /\ StronglySorted cell_le qm /\
    (forall k, filter (same_key k) qm =
               filter (same_key k) qa ++ filter (same_key k) qb) /\
    (forall y, y ∉ map c_node (qa ++ qb) -> L' !! y = L !! y).
Proof.
  apply (merge_sorted_chains (sample ["a"; "c"; "b"; "d"]) 5
           [Cell 32 48 "a"; Cell 64 80 "c"] [Cell 96 112 "b"; Cell 128 144 "d"]
           (<[64 := Link 0 32]> (<[128 := Link 0 96]>
              (links (sample ["a"; "c"; "b"; "d"]))))).
  - done.
  - done.
  - compute_done.
  - compute_done.
  - compute_done.
  - compute_done.
  - compute_done.
  - cbn. lia.
  - repeat constructor; vm_compute; discriminate.
  - repeat constructor; vm_compute; discriminate.
Defined.

(** X18: merge_sort, given the first node of a non-empty NULL-terminated
    chain, returns the first node of a NULL-terminated chain of the same
    elements in ascending order of their strings, elements with equal
    strings in the order they had; links of nodes outside the chain are not
    written. *)
Theorem merge_sort_sorts_chain s fuel q L :
  q ≠ [] -> Forall (cell_ok s) q -> nchain L (map c_node q) 0 ->
  NoDup (map c_node q) -> 0 ∉ map c_node q -> (length q < fuel)%nat ->
  exists L' q',
    merge_sort fuel (hd_or 0 (map c_node q)) (with_links L s)
      = Some (hd_or 0 (map c_node q'), with_links L' s) /\
    nchain L' (map c_node q') 0 /\
    StronglySorted cell_le q' /\ q' ≡ₚ q /\
    (forall k, filter (same_key k) q' = filter (same_key k) q) /\
    (forall y, y ∉ map c_node q -> L' !! y = L !! y).
Proof.
  intros Hne Hok Hn Hnd H0 Hf.
  destruct (merge_sort_run s fuel q L Hne Hok Hn Hnd H0 Hf)
    as (L' & q' & R & Hn' & (Hs & Hp & Hk) & Hframe & _).
  by exists L', q'.
Qed.

Lemma merge_sort_sorts_chain_witness :
  let s := sample ["c"; "a"; "b"] in
  let q := cells_from ["c"; "a"; "b"] in
  let L := <[96 := Link 0 64]> (links s) in
  exists L' q',
    merge_sort 4 (hd_or 0 (map c_node q)) (with_links L s)
      = Some (hd_or 0 (map c_node q'), with_links L' s) /\
    nchain L' (map c_node q') 0 /\
    StronglySorted cell_le q' /\ q' ≡ₚ q /\
    (forall k, filter (same_key k) q' = filter (same_key k) q) /\
    (forall y, y ∉ map c_node q -> L' !! y = L !! y).
Proof.
  apply (merge_sort_sorts_chain (sample ["c"; "a"; "b"]) 4
           (cells_from ["c"; "a"; "b"])
           (<[96 := Link 0 64]> (links (sample ["c"; "a"; "b"])))).
  - done.
  - compute_done.
  - compute_done.
  - compute_done.
  - compute_done.
  - cbn. lia.
Defined.

(** ** Sorting twice *)

Lemma strcmp_zero_of_le a b :
  strcmp_str a b <= 0 -> strcmp_str b a <= 0 -> strcmp_str b a = 0.
Proof. intros H1 H2. rewrite strcmp_antisym in H2 |- *. lia. Qed.

Lemma sorted_first_le q c d :
  StronglySorted cell_le (c :: q) -> d ∈ c :: q -> cell_le c d.
Proof.
  intros Hs Hd. apply StronglySorted_cons in Hs as [Hc _].
  apply elem_of_cons in Hd as [->|Hd].
  - unfold cell_le. by rewrite strcmp_refl.
  - rewrite Forall_forall in Hc. by apply Hc.
Qed.

(* a list in ascending order is its own stable sort, and the only one *)
Lemma stable_sort_of_sorted q : forall q',
  StronglySorted cell_le q -> stable_sort_of q q' -> q' = q.
Proof.
  induction q as [|c t IH]; intros q' Hs (Hs' & Hp & Hk).
  - by apply Permutation_nil_r in Hp.
  - destruct q' as [|c' t']; [by apply Permutation_nil_cons in Hp |].
    assert (c' ∈ c :: t) as Hin' by (rewrite <- Hp; by left).
    assert (c ∈ c' :: t') as Hin by (rewrite Hp; by left).
    pose proof (sorted_first_le _ _ _ Hs Hin') as Hle.
    pose proof (sorted_first_le _ _ _ Hs' Hin) as Hle'.
    assert (same_key (c_str c) c') as Hkey'.
    { unfold same_key. by apply strcmp_zero_of_le. }
    assert (same_key (c_str c) c) as Hkey by apply strcmp_refl.
    pose proof (Hk (c_str c)) as Hkc.
    rewrite !filter_cons_True in Hkc by done. injection Hkc as -> _.
    f_equal. apply IH.
    + by apply StronglySorted_cons in Hs as [_ ?].
    + split; [by apply StronglySorted_cons in Hs' as [_ ?] |].
      split; [by apply Permutation_cons_inv in Hp |].
      intros k. specialize (Hk k). rewrite !filter_cons in Hk.
      destruct (decide (same_key k c)); [by injection Hk | done].
Qed.

(** X19: q_sort applied to a queue it has sorted leaves the elements in the
    order they are in. *)
Theorem q_sort_twice s head q fuel :
  queue s head q -> (length q < fuel)%nat ->
  exists s1 s2 q',
    q_sort fuel head s = Some (tt, s1) /\ queue s1 head q' /\
    q_sort fuel head s1 = Some (tt, s2) /\ queue s2 head q'.
Proof.
  intros Hq Hf.
  assert (exists s1 q', q_sort fuel head s = Some (tt, s1) /\ queue s1 head q' /\
                        stable_sort_of q q') as (s1 & q' & R1 & Q1 & St1).
  { destruct (decide (length q <= 1)%nat) as [Hshort|Hlong].
    - exists s, q. split; [by apply (q_sort_short s head q) |].
      split; [done | by apply stable_sort_short].
    - destruct (q_sort_long s head q fuel Hq ltac:(lia) Hf) as (L' & q' & R & Q & St & _).
      by exists (with_links L' s), q'. }
  pose proof St1 as (Hs1 & Hp1 & _).
  assert (length q' = length q) as Hl by (by apply Permutation_length).
  assert (exists s2 q2, q_sort fuel head s1 = Some (tt, s2) /\ queue s2 head q2 /\
                        stable_sort_of q' q2) as (s2 & q2 & R2 & Q2 & St2).
  { destruct (decide (length q' <= 1)%nat) as [Hshort|Hlong].
    - exists s1, q'. split; [by apply (q_sort_short s1 head q') |].
      split; [done | by apply stable_sort_short].
    - destruct (q_sort_long s1 head q' fuel Q1 ltac:(lia) ltac:(lia))
        as (L' & q2 & R & Q & St & _).
      by exists (with_links L' s1), q2. }
  apply stable_sort_of_sorted in St2; [|done]. subst q2.
  by exists s1, s2, q'.
Qed.

Lemma q_sort_twice_witness :
  exists s1 s2 q',
    q_sort 5 16 (sample ["c"; "a"; "b"; "a"]) = Some (tt, s1) /\ queue s1 16 q' /\
    q_sort 5 16 s1 = Some (tt, s2) /\ queue s2 16 q'.
Proof.
  apply (q_sort_twice (sample ["c"; "a"; "b"; "a"]) 16
           (cells_from ["c"; "a"; "b"; "a"]) 5).
  - compute_done.
  - cbn. lia.
Defined.

(** ** q_swap twice *)

Lemma swap_pairs_involutive {A} (l : list A) : swap_pairs (swap_pairs l) = l.
Proof.
  induction l as [|a|a b l IH] using pair_ind; [done | done |].
  cbn [swap_pairs]. by rewrite IH.
Qed.

(** X20: q_swap applied twice puts every element back where it was. *)
Theorem q_swap_twice s head q fuel :
  queue s head q -> (length q < fuel)%nat ->
  exists s1 s2,
    q_swap fuel head s = Some (tt, s1) /\ queue s1 head (swap_pairs q) /\
    q_swap fuel head s1 = Some (tt, s2) /\ queue s2 head q.
Proof.
  intros Hq Hf.
  destruct (q_swap_run s head q fuel Hq Hf) as (L1 & R1 & Q1 & _).
  destruct (q_swap_run _ head _ fuel Q1 ltac:(by rewrite swap_pairs_length))
    as (L2 & R2 & Q2 & _).
  rewrite swap_pairs_involutive in Q2. eauto 10.
Qed.

Lemma q_swap_twice_witness :
  exists s1 s2,
    q_swap 4 16 (sample ["a"; "b"; "c"]) = Some (tt, s1) /\
    queue s1 16 (swap_pairs (cells_from ["a"; "b"; "c"])) /\
    q_swap 4 16 s1 = Some (tt, s2) /\ queue s2 16 (cells_from ["a"; "b"; "c"]).
Proof.
  apply (q_swap_twice (sample ["a"; "b"; "c"]) 16 (cells_from ["a"; "b"; "c"]) 4).
  - compute_done.
  - cbn. lia.
Defined.

(** ** q_release_element *)

(** X21: q_release_element frees the string of an element and then the
    element: afterwards neither address is allocated, and nothing else in
    the heap has changed. *)
Theorem q_release_element_frees s c :
  cell_ok s c -> is_Some (links s !! c_node c) -> c_node c ≠ 0 ->
  exists s',
    q_release_element (c_node c) s = Some (tt, s') /\
    links s' = delete (c_node c) (links s) /\
    values s' = delete (c_node c) (values s) /\
    strs s' = delete (c_val c) (strs s) /\
    bytes s' = bytes s /\ oracle s' = oracle s.
Proof.
  intros Hok Ha H0. exists (released c s).
  split; [by apply q_release_element_run | done].
Qed.

Lemma q_release_element_frees_witness :
  let s := sample ["a"; "b"] in
  let c := Cell 64 80 "b" in
  exists s',
    q_release_element (c_node c) s = Some (tt, s') /\
    links s' = delete (c_node c) (links s) /\
    values s' = delete (c_node c) (values s) /\
    strs s' = delete (c_val c) (strs s) /\
    bytes s' = bytes s /\ oracle s' = oracle s.
Proof.
  apply (q_release_element_frees (sample ["a"; "b"]) (Cell 64 80 "b")).
  - compute_done.
  - by eexists.
  - cbn. lia.
Defined.




(** ** A null queue *)

(** X23: every operation returns at once on a null queue, with the value
    its comment gives for failure, and leaves the heap as it is. *)
Theorem null_queue_untouched s fuel p sp bufsize :
  q_free fuel 0 s = Some (tt, s) /\
  q_insert_head 0 p s = Some (false, s) /\
  q_insert_tail 0 p s = Some (false, s) /\
  q_remove_head fuel 0 sp bufsize s = Some (0, s) /\
  q_remove_tail fuel 0 sp bufsize s = Some (0, s) /\
  q_size fuel 0 s = Some (0, s) /\
  q_delete_mid fuel 0 s = Some (false, s) /\
  q_delete_dup fuel 0 s = Some (false, s) /\
  q_swap fuel 0 s = Some (tt, s) /\
  q_reverse fuel 0 s = Some (tt, s) /\
  q_sort fuel 0 s = Some (tt, s).
Proof. repeat split. Qed.
